(** * Node on Fire: the Table statement factory (lib/modules/models/table.js)

    A shallow embedding of the query-construction code of [Table] and the
    properties its specification states about it.

    - The knex query builder is an external collaborator: a query is the
      record of the builder calls it received, in call order.  A clause
      builder of [Table] computes the calls it makes and adds them to the
      query it is given.  A callback handed to the builder ([where(function)],
      [whereExists(function)]) is kept by the builder and run when the
      statement is compiled: the call is recorded with what the callback
      does when it is run.
    - Errors thrown by the code are values of [Error]; a function that may
      throw returns in the monad [M].  A query under construction is dropped
      when its construction throws.
    - A JavaScript object used as a map is a list of keys and values in
      insertion order.  A map given by the caller or held by the model
      metadata is looked up by its own keys; the two object literals of
      the table ([transformers] and [WHERE_TRANSFORMER]) are looked up as
      the code does, with the members every object inherits, such as
      [constructor].
    - An [option] field or argument is [None] where the JavaScript value is
      falsy (undefined, null, an empty string), unless said otherwise.
    - The routes of lib/modules/api/index.js that lead to the statements of
      a table, and the linking of through models in
      lib/modules/models/index.js, are embedded after the table: a route is
      a function of what the access control and the request hold, up to the
      call it makes on the model. *)

From Stdlib Require Import String Ascii List ZArith Bool Lia DecimalString.
Import ListNotations.
Open Scope string_scope.

Set Implicit Arguments.
Set Warnings "-register-all".

(* ------------------------------------------------------------------ *)
(** ** JavaScript strings and arrays *)

(** The double quote character. *)
Definition dq : string := String (ascii_of_nat 34) EmptyString.
(** The tab and newline characters of the DDL templates. *)
Definition tab : string := String (ascii_of_nat 9) EmptyString.
Definition nl : string := String (ascii_of_nat 10) EmptyString.

(** [function quote(string)] *)
Definition quote (s : string) : string := dq ++ s ++ dq.

(** [Array.prototype.join] on an array of strings. *)
Fixpoint join (sep : string) (l : list string) : string :=
  match l with
  | [] => EmptyString
  | [x] => x
  | x :: xs => x ++ sep ++ join sep xs
  end.

(** [s.indexOf(p) === 0] *)
Fixpoint startsWith (p s : string) : bool :=
  match p, s with
  | EmptyString, _ => true
  | String a p', String b s' => Ascii.eqb a b && startsWith p' s'
  | String _ _, EmptyString => false
  end.

(** [s.indexOf(p) >= 0] *)
Fixpoint contains (p s : string) : bool :=
  startsWith p s ||
  match s with
  | EmptyString => false
  | String _ s' => contains p s'
  end.

(** Whether the character [c] occurs in [s]. *)
Fixpoint hasChar (c : ascii) (s : string) : bool :=
  match s with
  | EmptyString => false
  | String a s' => Ascii.eqb a c || hasChar c s'
  end.

Definition noUnderscore (s : string) : bool := negb (hasChar "_"%char s).

(** [s.substring(n)] *)
Fixpoint dropChars (n : nat) (s : string) : string :=
  match n, s with
  | O, _ => s
  | S n', String _ s' => dropChars n' s'
  | S _, EmptyString => EmptyString
  end.

(** [s.replace(p, r)] with a string pattern: the first occurrence only. *)
Fixpoint replaceFirst (p r s : string) : string :=
  if startsWith p s then r ++ dropChars (String.length p) s
  else match s with
       | EmptyString => EmptyString
       | String c s' => String c (replaceFirst p r s')
       end.

Definition upperChar (c : ascii) : ascii :=
  let n := nat_of_ascii c in
  if (97 <=? n)%nat && (n <=? 122)%nat then ascii_of_nat (n - 32) else c.

(** [s.toUpperCase()] on the ASCII range. *)
Fixpoint toUpperCase (s : string) : string :=
  match s with
  | EmptyString => EmptyString
  | String c s' => String (upperChar c) (toUpperCase s')
  end.

(** [s.split(c)]: the segments of [s] between occurrences of [c]. *)
Fixpoint splitOn (c : ascii) (s : string) : list string :=
  match s with
  | EmptyString => [EmptyString]
  | String a s' =>
      if Ascii.eqb a c then EmptyString :: splitOn c s'
      else match splitOn c s' with
           | [] => [String a EmptyString]
           | seg :: segs => String a seg :: segs
           end
  end.

(** [keyPath.split('.', 2)] *)
Definition splitKeyPath (keyPath : string) : list string :=
  firstn 2 (splitOn "."%char keyPath).

(** [arr.push(x)] *)
Definition push {A} (l : list A) (x : A) : list A := (l ++ [x])%list.

(** [arr.indexOf(x) >= 0] on an array of strings. *)
Definition includes (x : string) (l : list string) : bool :=
  existsb (String.eqb x) l.

(* ------------------------------------------------------------------ *)
(** ** Errors *)

Inductive Error : Type :=
| Err (msg : string)         (* [throw new Error(msg)] *)
| TypeError (what : string). (* raised by the engine: member access on
                                null or undefined *)

Definition M (A : Type) : Type := (Error + A)%type.

Definition ret {A} (a : A) : M A := inr a.
Definition throw {A} (e : Error) : M A := inl e.
Definition bind {A B} (m : M A) (k : A -> M B) : M B :=
  match m with
  | inl e => inl e
  | inr a => k a
  end.

Notation "x <- c ;; k" := (bind c (fun x => k))
  (at level 61, c at next level, right associativity).

(** [arr.forEach(f)] where [f] updates an accumulator and may throw. *)
Fixpoint forEach {A S} (f : S -> A -> M S) (l : list A) (s : S) : M S :=
  match l with
  | [] => ret s
  | a :: l' => s' <- f s a ;; forEach f l' s'
  end.

(** [arr.forEach(f)] where each call of [f] makes builder calls, collected
    in call order. *)
Fixpoint collect {A B} (f : A -> M (list B)) (l : list A) : M (list B) :=
  match l with
  | [] => ret []
  | a :: l' =>
      bs <- f a ;;
      rest <- collect f l' ;;
      ret (bs ++ rest)%list
  end.

Definition fails {A} (m : M A) : Prop := exists e, m = inl e.

(* ------------------------------------------------------------------ *)
(** ** JavaScript values passed in semantic maps *)

(** A query builder used as a value (a sub-select), as built by
    [knex.column(c).from(t).whereRaw(sql, bindings)]. *)
Record SubQuery : Type := mkSubQuery {
  sq_columns : list string;
  sq_from : string;
  sq_whereRaw : list (string * list string)
}.

Inductive Value : Type :=
| VNull
| VUndefined
| VBool (b : bool)
| VNum (z : Z)
| VStr (s : string)
| VDate (iso : string)
| VQueryValue (v : Value)   (* an object with a [toQueryValue] method
                               returning [v] *)
| VRaw (sql : string)       (* an instance of knex's Raw *)
| VBuilder (b : SubQuery)   (* an instance of knex's query builder *)
| VArr (l : list Value)
| VObj (o : list (string * Value)).

(** A plain object: its own keys in insertion order. *)
Definition Obj : Type := list (string * Value).

(** JavaScript truthiness. *)
Definition truthy (v : Value) : bool :=
  match v with
  | VNull | VUndefined => false
  | VBool b => b
  | VNum z => negb (z =? 0)%Z
  | VStr s => negb (String.eqb s EmptyString)
  | _ => true
  end.

(** [o[k]]; [None] is [undefined]. *)
Fixpoint get {A} (k : string) (o : list (string * A)) : option A :=
  match o with
  | [] => None
  | (k', v) :: o' => if String.eqb k k' then Some v else get k o'
  end.

(** [o[k] = v]: overwrite in place, or append a new key. *)
Fixpoint set {A} (k : string) (v : A) (o : list (string * A))
  : list (string * A) :=
  match o with
  | [] => [(k, v)]
  | (k', v') :: o' =>
      if String.eqb k k' then (k', v) :: o' else (k', v') :: set k v o'
  end.

(** [Object.keys(o)] *)
Definition keys {A} (o : list (string * A)) : list string := map fst o.

(** A numeric argument that may be absent ([limit], [skip]). *)
Definition truthyNum (n : option Z) : bool :=
  match n with
  | Some z => negb (z =? 0)%Z
  | None => false
  end.

(** [n > 0] *)
Definition positive (n : option Z) : bool :=
  match n with
  | Some z => (0 <? z)%Z
  | None => false
  end.

(** The members an object literal inherits from [Object.prototype]: [o[key]]
    finds them when [key] is not an own key of [o].  Such a member is a
    function, with its [length] and with what the plain call
    [f(query, column, value)] does (it returns, or it throws a TypeError
    because the function needs the object it is called on; the conversion
    of the builder to a property name, which [hasOwnProperty] and
    [propertyIsEnumerable] do before that, is taken to return), or, under
    [__proto__], the prototype itself, which is no function and has no
    [length]. *)
Inductive Member : Type :=
| Method (arity : nat) (returns : bool)
| Proto.

Definition objectPrototype : list (string * Member) :=
  [("constructor", Method 1 true);
   ("toString", Method 0 true);
   ("toLocaleString", Method 0 false);
   ("valueOf", Method 0 false);
   ("hasOwnProperty", Method 1 false);
   ("isPrototypeOf", Method 1 false);
   ("propertyIsEnumerable", Method 1 false);
   ("__defineGetter__", Method 2 false);
   ("__defineSetter__", Method 2 false);
   ("__lookupGetter__", Method 1 false);
   ("__lookupSetter__", Method 1 false);
   ("__proto__", Proto)].

Definition inherited (key : string) : option Member := get key objectPrototype.

(* ------------------------------------------------------------------ *)
(** ** Model metadata

    [Model] and [Property] are defined in files outside this module; the
    records below hold what [Table] reads from them.  References between
    models are by model name, resolved through the registry. *)

Record Options : Type := mkOptions {
  isHidden : bool;
  isAggregate : bool;
  isVirtual : bool;
  counting : option string;
  sqlish : option string;          (* a sqlish template of type string *)
  rawWhere : option string;
  required : bool;
  autoFetch : bool;
  autoFetchProperties : option (list string);
  hasOne : option string;
  hasMany : option string;
  belongsTo : option string;
  through : option string;         (* name of the through model *)
  throughPropertyName : option string;
  relationshipVia : option (string * string)
                                   (* owning model and name of the
                                      property on the other side *)
}.

Record Property : Type := mkProperty {
  name : string;
  columnName : string;
  columnNameIndicator : string;
  clauses : list string;
  model : string;                  (* name of the owning model *)
  options : Options;
  isAllowed : bool;                (* [property.isAllowed()] *)
  isAssociation : bool;            (* [property.isAssociation()] *)
  isManyToMany : bool;             (* [property.isManyToMany()] *)
  getAssociatedModel : option string (* [property.getAssociatedModel()] *)
}.

Record Model : Type := mkModel {
  getName : string;
  tableName : string;              (* [inflection.tableize(model.getName())] *)
  getAllProperties : list (string * Property);
  getAllAssociations : list (string * Property)
}.

(** [model.getAssociations()] *)
Definition getAssociations (m : Model) : list (string * Property) :=
  getAllAssociations m.

(** The registry of models, by name. *)
Definition Models : Type := list (string * Model).

(* ------------------------------------------------------------------ *)
(** ** Queries: the builder calls received *)

Inductive JoinType : Type := innerJoin | leftOuterJoin.

Record Join : Type := mkJoin {
  j_type : JoinType;
  j_table : string;
  j_first : string;
  j_second : string
}.

Inductive Column : Type :=
| Col (c : string)
| ColRaw (before sql after : string). (* [knex.raw(sql).wrap(before, after)] *)

(** A function handed to the builder ([where(function)],
    [orWhere(function)], [whereExists(function)]) is kept by the builder and
    run when the statement is compiled, not when it is handed over.  The
    call is recorded with what the function does when it is run: the calls
    it makes on the builder it is given, or the error it throws. *)
Inductive Where : Type :=
| WhereVal (isOr : bool) (column : string) (v : Value)
                                     (* [where(c, v)] / [orWhere(c, v)] *)
| WhereOp (column op : string) (v : Value)       (* [where(c, op, v)] *)
| WhereOpUndefined (column : string) (v : Value) (* [where(c, undefined, v)] *)
| WhereNull (column : string)                    (* [whereNull(c)] *)
| WhereIn (column : string) (v : Value)          (* [whereIn(c, v)] *)
| WhereNotIn (column : string) (l : list Value)  (* [whereNotIn(c, l)] *)
| WhereRaw (sql : string) (bindings : list Value)
| WhereWrapped (isOr : bool) (body : M (list Where))
                                 (* [where(function)] / [orWhere(function)] *)
| WhereExists (body : M (string * list Where)).
                                 (* [whereExists(function)]: the table of
                                    [this.select().from(table)] and the
                                    calls on that sub-select *)

Inductive Counter : Type :=
| Increment (column : string) (v : Value)
| Decrement (column : string) (v : Value).

Record Query : Type := mkQuery {
  q_from : string;
  q_columns : list Column;
  q_joins : list Join;
  q_wheres : list Where;
  q_orders : list (string * string);
  q_groups : list string;
  q_limit : option Z;
  q_offset : option Z;
  q_counts : list string;
  q_counters : list Counter;
  q_update : option Obj;
  q_insert : option Obj;
  q_delete : bool;
  q_returning : option (list Column)
}.

(** [knex.from(name)] *)
Definition from (t : string) : Query :=
  mkQuery t [] [] [] [] [] None None [] [] None None false None.

Definition column (c : Column) (q : Query) : Query :=
  mkQuery (q_from q) (q_columns q ++ [c]) (q_joins q) (q_wheres q)
    (q_orders q) (q_groups q) (q_limit q) (q_offset q) (q_counts q)
    (q_counters q) (q_update q) (q_insert q) (q_delete q) (q_returning q).

Definition addJoins (js : list Join) (q : Query) : Query :=
  mkQuery (q_from q) (q_columns q) (q_joins q ++ js) (q_wheres q)
    (q_orders q) (q_groups q) (q_limit q) (q_offset q) (q_counts q)
    (q_counters q) (q_update q) (q_insert q) (q_delete q) (q_returning q).

Definition addWheres (ws : list Where) (q : Query) : Query :=
  mkQuery (q_from q) (q_columns q) (q_joins q) (q_wheres q ++ ws)
    (q_orders q) (q_groups q) (q_limit q) (q_offset q) (q_counts q)
    (q_counters q) (q_update q) (q_insert q) (q_delete q) (q_returning q).

Definition addOrders (os : list (string * string)) (q : Query) : Query :=
  mkQuery (q_from q) (q_columns q) (q_joins q) (q_wheres q)
    (q_orders q ++ os) (q_groups q) (q_limit q) (q_offset q)
    (q_counts q) (q_counters q) (q_update q) (q_insert q) (q_delete q)
    (q_returning q).

Definition orderBy (c dir : string) (q : Query) : Query :=
  addOrders [(c, dir)] q.

Definition groupBy (c : string) (q : Query) : Query :=
  mkQuery (q_from q) (q_columns q) (q_joins q) (q_wheres q)
    (q_orders q) (q_groups q ++ [c]) (q_limit q) (q_offset q)
    (q_counts q) (q_counters q) (q_update q) (q_insert q) (q_delete q)
    (q_returning q).

Definition limit (n : Z) (q : Query) : Query :=
  mkQuery (q_from q) (q_columns q) (q_joins q) (q_wheres q)
    (q_orders q) (q_groups q) (Some n) (q_offset q)
    (q_counts q) (q_counters q) (q_update q) (q_insert q) (q_delete q)
    (q_returning q).

Definition offset (n : Z) (q : Query) : Query :=
  mkQuery (q_from q) (q_columns q) (q_joins q) (q_wheres q)
    (q_orders q) (q_groups q) (q_limit q) (Some n)
    (q_counts q) (q_counters q) (q_update q) (q_insert q) (q_delete q)
    (q_returning q).

Definition count (c : string) (q : Query) : Query :=
  mkQuery (q_from q) (q_columns q) (q_joins q) (q_wheres q)
    (q_orders q) (q_groups q) (q_limit q) (q_offset q)
    (q_counts q ++ [c]) (q_counters q) (q_update q) (q_insert q)
    (q_delete q) (q_returning q).

Definition counter (c : Counter) (q : Query) : Query :=
  mkQuery (q_from q) (q_columns q) (q_joins q) (q_wheres q)
    (q_orders q) (q_groups q) (q_limit q) (q_offset q)
    (q_counts q) (q_counters q ++ [c]) (q_update q) (q_insert q)
    (q_delete q) (q_returning q).

Definition update (m : Obj) (q : Query) : Query :=
  mkQuery (q_from q) (q_columns q) (q_joins q) (q_wheres q)
    (q_orders q) (q_groups q) (q_limit q) (q_offset q)
    (q_counts q) (q_counters q) (Some m) (q_insert q)
    (q_delete q) (q_returning q).

Definition insert (m : Obj) (q : Query) : Query :=
  mkQuery (q_from q) (q_columns q) (q_joins q) (q_wheres q)
    (q_orders q) (q_groups q) (q_limit q) (q_offset q)
    (q_counts q) (q_counters q) (q_update q) (Some m)
    (q_delete q) (q_returning q).

Definition delete (q : Query) : Query :=
  mkQuery (q_from q) (q_columns q) (q_joins q) (q_wheres q)
    (q_orders q) (q_groups q) (q_limit q) (q_offset q)
    (q_counts q) (q_counters q) (q_update q) (q_insert q)
    true (q_returning q).

Definition returning (cs : list Column) (q : Query) : Query :=
  mkQuery (q_from q) (q_columns q) (q_joins q) (q_wheres q)
    (q_orders q) (q_groups q) (q_limit q) (q_offset q)
    (q_counts q) (q_counters q) (q_update q) (q_insert q)
    (q_delete q) (Some cs).

(** What a statement factory returns: a builder, or [knex.raw(sql, bindings)]
    with queries as bindings. *)
Inductive Statement : Type :=
| Built (q : Query)
| Raw (sql : string) (bindings : list Query).

(* ------------------------------------------------------------------ *)
(** ** The Table *)

Section Table.

Set Default Proof Using "Type".

(** [inflection.underscore] and [inflection.camelize]: external. *)
Variable underscore : string -> string.
Variable camelize : string -> bool -> string.

(** [s.replace(/\$(\w+)(\("(.*?)"\))?/ig, f)]: the engine's regular
    expression replacement.  The callback receives the first capture and,
    when it is a non-empty string, the third; it may throw. *)
Variable replaceSqlish :
  string -> (string -> option string -> M string) -> M string.

(** The own enumerable keys of knex's Raw and Builder objects. *)
Variable rawKeys builderKeys : list string.

(** The registry of linked models, and the model this table belongs to.
    [this.name] is [tableName self]. *)
Variable models : Models.
Variable self : Model.

(** Dereferencing a model name; a dangling reference makes the member
    access that follows it fail. *)
Definition modelOf (n : string) : M Model :=
  match get n models with
  | Some m => ret m
  | None => throw (TypeError ("model " ++ n))
  end.

Definition modelOfOpt (what : string) (n : option string) : M Model :=
  match n with
  | Some n => modelOf n
  | None => throw (TypeError what)
  end.

Definition orTypeError {A} (what : string) (o : option A) : M A :=
  match o with
  | Some a => ret a
  | None => throw (TypeError what)
  end.

(** Modelled from the spec: [Model.prototype.getProperty], which is not
    part of this module.  It returns the Property or a null result; a
    dotted key path [assoc.property] resolves to the property of the
    associated model. *)
Definition getPropertyOf (m : Model) (keyPath : string) : option Property :=
  match splitKeyPath keyPath with
  | [first; second] =>
      match get first (getAllProperties m) with
      | Some a =>
          match getAssociatedModel a with
          | Some an =>
              match get an models with
              | Some am => get second (getAllProperties am)
              | None => None
              end
          | None => None
          end
      | None => None
      end
  | _ => get keyPath (getAllProperties m)
  end.

Definition getPropertyOpt (m : Model) (keyPath : option string)
  : option Property :=
  match keyPath with
  | Some k => getPropertyOf m k
  | None => None
  end.

(** Modelled from the spec: [Model.prototype.findAssociationsTo], which is
    not part of this module: the associations of [m] whose associated
    model is [target]. *)
Definition findAssociationsTo (m : Model) (target : string)
  : list Property :=
  filter (fun a => match getAssociatedModel a with
                   | Some n => (n =? target)%string
                   | None => false
                   end)
         (map snd (getAllAssociations m)).

(** [Table.prototype.getProperty] *)
Definition getProperty (propertyName : string) : option Property :=
  getPropertyOf self propertyName.

(** [Table.prototype.getFirstProperty] *)
Definition getFirstProperty (keyPath : string) : option Property :=
  match splitKeyPath keyPath with
  | first :: _ :: _ => getProperty first
  | _ => None
  end.

(** [Table.prototype.getName] *)
Definition getTableName (m : Model) : string := quote (tableName m).

(** [property.options.relationshipVia], dereferenced. *)
Definition relationshipViaOf (p : Property) : M Property :=
  match relationshipVia (options p) with
  | Some (mn, pn) =>
      m <- modelOf mn ;;
      orTypeError "relationshipVia" (get pn (getAllProperties m))
  | None => throw (TypeError "relationshipVia")
  end.

(** [Object.keys(v)] with the values under them, for a value of type
    object; a call on null, undefined or a primitive throws. *)
Definition indexKey (i : nat) : string :=
  NilZero.string_of_uint (Nat.to_uint i).

Definition ownEntries (v : Value) : M (list (string * Value)) :=
  match v with
  | VObj o => ret o
  | VArr l => ret (combine (map indexKey (seq 0 (List.length l))) l)
  | VRaw _ => ret (map (fun k => (k, VUndefined)) rawKeys)
  | VBuilder _ => ret (map (fun k => (k, VUndefined)) builderKeys)
  | VDate _ | VQueryValue _ => ret []
  | _ => throw (TypeError "Object.keys called on non-object")
  end.

(** [value.toQueryValue()] when the value has that method. *)
Definition toQueryValue (v : Value) : Value :=
  match v with
  | VQueryValue x => x
  | _ => v
  end.

(* ---------------------------------------------------------------- *)
(** *** SET and INSERT clauses *)

(** What [transformers[key]] finds in the [transformers] literal of
    [addSetClause]: one of its two functions, or a member it inherits. *)
Inductive SetTransformer : Type :=
| Counts (make : string -> Value -> Counter)
| InheritedMember (m : Member).

(** [transformers[key]] *)
Definition setTransformers (key : string) : option SetTransformer :=
  if (key =? "$inc")%string then Some (Counts Increment)
  else if (key =? "$decr")%string then Some (Counts Decrement)
  else option_map InheritedMember (inherited key).

(** [transformer(query, columnName, setValue[key])] *)
Definition applySetTransformer (columnName : string) (q : Query)
    (e : string * Value) : M Query :=
  match setTransformers (fst e) with
  | None => throw (Err ("Invalid transformer `" ++ fst e ++ "`."))
  | Some (Counts transformer) =>
      ret (counter (transformer columnName (snd e)) q)
  | Some (InheritedMember (Method _ true)) => ret q
  | Some (InheritedMember _) => throw (TypeError (fst e))
  end.

Definition addSetEntry (st : Query * Obj) (e : string * Value)
  : M (Query * Obj) :=
  let propertyName := fst e in
  let setValue := snd e in
  match getProperty propertyName with
  | None =>
      throw (Err ("Could not find property `" ++ propertyName ++ "` in `"
                  ++ tableName self ++ "`."))
  | Some property =>
      if isAllowed property then
        let columnName := columnName property in
        match setValue with
        | VQueryValue v => ret (fst st, set columnName v (snd st))
        | VRaw _ => ret (fst st, set columnName setValue (snd st))
        | VObj _ | VArr _ | VBuilder _ =>
            es <- ownEntries setValue ;;
            q <- forEach (applySetTransformer columnName) es (fst st) ;;
            ret (q, snd st)
        | _ => ret (fst st, set columnName setValue (snd st))
        end
      else ret st
  end.

(** [Table.prototype.addSetClause] *)
Definition addSetClause (query : Query) (setMap : option Obj) : M Query :=
  match setMap with
  | None => ret query
  | Some m =>
      st <- forEach addSetEntry m (query, []) ;;
      ret (update (snd st) (fst st))
  end.

Definition addInsertEntry (insertMap : Obj) (e : string * Value) : M Obj :=
  let propertyName := fst e in
  let setValue := snd e in
  match getProperty propertyName with
  | None =>
      throw (Err ("Could not find property `" ++ propertyName ++ "` in `"
                  ++ tableName self ++ "`."))
  | Some property =>
      if isAllowed property then
        ret (set (columnName property) (toQueryValue setValue) insertMap)
      else ret insertMap
  end.

(** [Table.prototype.addInsertClause] *)
Definition addInsertClause (query : Query) (setMap : Obj) : M Query :=
  insertMap <- forEach addInsertEntry setMap [] ;;
  ret (insert insertMap query).

(* ---------------------------------------------------------------- *)
(** *** Schema statements

    [alterStatement] receives property objects by reference and writes to
    them, so the property objects live in a heap. *)

Definition Heap : Type := list Property.

Definition deref (h : Heap) (r : nat) : M Property :=
  orTypeError "property" (nth_error h r).

Definition withClauses (cl : list string) (p : Property) : Property :=
  mkProperty (name p) (columnName p) (columnNameIndicator p) cl (model p)
    (options p) (isAllowed p) (isAssociation p) (isManyToMany p)
    (getAssociatedModel p).

Fixpoint store (h : Heap) (r : nat) (p : Property) : Heap :=
  match h, r with
  | [], _ => []
  | _ :: h', O => p :: h'
  | x :: h', S r' => x :: store h' r' p
  end.

(** [arr[0]] inside a string concatenation. *)
Definition first (l : list string) : string :=
  match l with
  | [] => "undefined"
  | x :: _ => x
  end.

(** [arr.splice(1)]: what is removed, and what is left in the array. *)
Definition splice1 (l : list string) : list string * list string :=
  match l with
  | [] => ([], [])
  | x :: rest => (rest, [x])
  end.

Definition alterAdded (st : list string * Heap) (r : nat)
  : M (list string * Heap) :=
  property <- deref (snd st) r ;;
  if isAllowed property then
    ret (push (fst st) (tab ++ " ADD COLUMN " ++ quote (columnName property)
                        ++ " " ++ join " " (clauses property)), snd st)
  else ret st.

Definition alterRemoved (st : list string * Heap) (r : nat)
  : M (list string * Heap) :=
  property <- deref (snd st) r ;;
  if isAllowed property then
    ret (push (fst st) (tab ++ " DROP COLUMN " ++ quote (columnName property)),
         snd st)
  else ret st.

Definition alterChanged (st : list string * Heap) (r : nat)
  : M (list string * Heap) :=
  property <- deref (snd st) r ;;
  if isAllowed property then
    let type := first (clauses property) in
    let removed := fst (splice1 (clauses property)) in
    let kept := snd (splice1 (clauses property)) in
    ret (push (fst st) (tab ++ " ALTER COLUMN " ++ quote (columnName property)
                        ++ " TYPE " ++ type ++ " SET " ++ join " " removed),
         store (snd st) r (withClauses kept property))
  else ret st.

Definition orEmpty {A} (o : option (list A)) : list A :=
  match o with
  | Some l => l
  | None => []
  end.

(** [Table.prototype.alterStatement]: the statement and the heap after the
    call. *)
Definition alterStatement (h : Heap)
    (addedProperties removedProperties changedProperties
       : option (list nat)) : M (Statement * Heap) :=
  let clause := "ALTER TABLE " ++ getTableName self ++ nl in
  st <- forEach alterAdded (orEmpty addedProperties) ([], h) ;;
  st <- forEach alterRemoved (orEmpty removedProperties) st ;;
  st <- forEach alterChanged (orEmpty changedProperties) st ;;
  ret (Raw (clause ++ join ("," ++ nl) (fst st) ++ nl ++ ";") [], snd st).

(** [Table.prototype.createStatement] *)
Definition createStatement : Statement :=
  Raw ("CREATE TABLE " ++ getTableName self ++ " (" ++ nl
       ++ join ("," ++ nl)
            (map (fun property =>
                    tab ++ quote (columnName property) ++ " "
                    ++ join " " (clauses property))
               (filter isAllowed (map snd (getAllProperties self))))
       ++ nl ++ ");") [].

(** [Table.prototype.dropStatement] *)
Definition dropStatement (cascade : bool) : string :=
  "DROP TABLE " ++ getTableName self
  ++ (if cascade then " CASCADE" else EmptyString).

(* ---------------------------------------------------------------- *)
(** *** Computed (sqlish) properties *)

(** [Table.prototype.createReadOnlyStatement] *)
Definition createReadOnlyStatement (property : Property)
    (targetPropertyName : string) : M string :=
  owner <- modelOf (model property) ;;
  targetProperty <-
    orTypeError "targetProperty" (getPropertyOf owner targetPropertyName) ;;
  if negb (isAssociation targetProperty) then
    throw (Err "Count only works on associations.")
  else
    associated <-
      match through (options targetProperty) with
      | Some t =>
          associatedTable <- modelOf t ;;
          p <- orTypeError "throughProperty"
                 (getPropertyOpt associatedTable
                    (throughPropertyName (options targetProperty))) ;;
          ret (associatedTable, columnName p)
      | None =>
          associatedModel <-
            modelOfOpt "associatedModel" (getAssociatedModel targetProperty) ;;
          associatedProperty <- relationshipViaOf targetProperty ;;
          ret (associatedModel, columnName associatedProperty)
      end ;;
    ret ("(SELECT COUNT(*) FROM " ++ getTableName (fst associated)
         ++ " WHERE " ++ getTableName owner ++ ".id = "
         ++ getTableName (fst associated) ++ "." ++ snd associated ++ ")").

(** [property.options.sqlish] after the lazy initialisation
    [if(counting && !sqlish) sqlish = createReadOnlyStatement(...)].  The
    memoised text depends on the model metadata only, so it is recomputed
    here instead of being stored. *)
Definition sqlishOf (property : Property) : M (option string) :=
  match counting (options property), sqlish (options property) with
  | Some c, None =>
      s <- createReadOnlyStatement property c ;; ret (Some s)
  | _, s => ret s
  end.

(** The replacement of the [$name] and [$fn("arg")] tokens of a sqlish
    template; [prefix] is what is put before an underscored property
    name. *)
Definition expandSqlish (prefix : string) (property : Property)
    (template : string) : M string :=
  replaceSqlish template
    (fun readOnlyPropertyName targetPropertyName =>
       match targetPropertyName with
       | Some t => createReadOnlyStatement property t
       | None => ret (prefix ++ underscore readOnlyPropertyName)
       end).

(* ---------------------------------------------------------------- *)
(** *** Joins and associations *)

Definition names (associations : list Property) : list string :=
  map name associations.

(** The [alias] of [addJoinStatement]. *)
Definition alias (associations : list Property) : string :=
  tableName self ++ "_" ++ join "_" (names associations).

(** The [previousAlias] of [addJoinStatement]. *)
Definition previousAlias (associations : list Property) : string :=
  join "_" (tableName self :: names (removelast associations)).

(** The [alias] of [addSelectColumnsForAssociation]. *)
Definition columnsAlias (associations : list Property) : string :=
  join "_" (tableName self :: names associations).

(** The joins [addJoinStatement] makes for a chain of associations. *)
Definition joinsFor (associations : list Property) : M (list Join) :=
  association <- orTypeError "association" (last (map Some associations) None) ;;
  let previousAlias := previousAlias associations in
  let alias := alias associations in
  if isManyToMany association then
    throughModel <- modelOfOpt "through" (through (options association)) ;;
    let associatedTable := tableName throughModel in
    let relation1Property :=
      getPropertyOpt throughModel
        (throughPropertyName (options association)) in
    via <- relationshipViaOf association ;;
    let relation2Property :=
      getPropertyOpt throughModel (throughPropertyName (options via)) in
    match relation1Property with
    | None =>
        owner <- modelOf (model association) ;;
        throw (Err ("Could not find property `"
                    ++ camelize (getName owner) true ++ "` on `"
                    ++ getName throughModel ++ "`."))
    | Some relation1Property =>
        match relation2Property with
        | None =>
            am <- modelOfOpt "associatedModel"
                    (getAssociatedModel association) ;;
            throw (Err ("Could not find property `"
                        ++ camelize (getName am) true ++ "` on `"
                        ++ getName throughModel ++ "`."))
        | Some relation2Property =>
            am <- modelOfOpt "associatedModel"
                    (getAssociatedModel association) ;;
            ret [mkJoin leftOuterJoin associatedTable
                   (associatedTable ++ "." ++ columnName relation1Property)
                   (previousAlias ++ ".id");
                 mkJoin leftOuterJoin (tableName am ++ " as " ++ alias)
                   (associatedTable ++ "." ++ columnName relation2Property)
                   (alias ++ ".id")]
        end
    end
  else
    am <- modelOfOpt "associatedModel" (getAssociatedModel association) ;;
    let referenceTableName := tableName am in
    let joinType :=
      if required (options association) then innerJoin
      else leftOuterJoin in
    match hasOne (options association),
          hasMany (options association),
          belongsTo (options association) with
    | Some h, _, _ =>
        associationProperty <-
          orTypeError "associationProperty" (getPropertyOf am h) ;;
        ret [mkJoin joinType (referenceTableName ++ " as " ++ alias)
               (previousAlias ++ ".id")
               (alias ++ "." ++ columnName associationProperty)]
    | None, Some h, _ =>
        match getPropertyOf am h with
        | None =>
            owner <- modelOf (model association) ;;
            throw (Err ("Could not find association property `" ++ h
                        ++ "` on `" ++ getName owner ++ "`."))
        | Some associationProperty =>
            ret [mkJoin joinType (referenceTableName ++ " as " ++ alias)
                   (previousAlias ++ "." ++ "id")
                   (alias ++ "." ++ columnName associationProperty)]
        end
    | None, None, Some _ =>
        ret [mkJoin joinType (referenceTableName ++ " as " ++ alias)
               (previousAlias ++ "." ++ columnName association)
               (alias ++ ".id")]
    | None, None, None =>
        if autoFetch (options association) then
          throw (Err ("Unknown association type in `" ++ name association
                      ++ "`."))
        else ret []
    end.

(** [Table.prototype.addJoinStatement] *)
Definition addJoinStatement (query : Query) (associations : list Property)
  : M Query :=
  js <- joinsFor associations ;;
  ret (addJoins js query).

(** The output name of a column selected through [associations]. *)
Definition columnAs (associations : list Property) (property : Property)
  : string :=
  String.concat EmptyString
    (map (fun association =>
            name association ++ columnNameIndicator property)
       associations)
  ++ columnName property.

Definition selectedThrough (startSelect : string)
    (st : bool * list string) (selectProperty : string)
  : bool * list string :=
  if startsWith startSelect selectProperty then
    let propertyName :=
      dropChars (String.length startSelect) selectProperty in
    if (propertyName =? "*")%string then (true, snd st)
    else (fst st, push (snd st) propertyName)
  else st.

(** [Table.prototype.addSelectColumnsForAssociation].  [associations] is an
    array, so the guard [if(!associations)] never fires. *)
Definition addSelectColumnsForAssociation (query : Query)
    (associations : list Property) (select : option (list string))
  : M Query :=
  referenceProperty <-
    orTypeError "referenceProperty" (last (map Some associations) None) ;;
  am <- modelOfOpt "associatedModel" (getAssociatedModel referenceProperty) ;;
  let properties := getAllProperties am in
  let startSelect :=
    String.concat EmptyString
      (map (fun association => name association ++ ".") associations) in
  let chosen :=
    fold_left (selectedThrough startSelect) (orEmpty select) (false, []) in
  let selectAllProperties := fst chosen in
  let selectIsArray :=
    match select, autoFetchProperties (options referenceProperty) with
    | None, None => false
    | _, _ => true
    end in
  let selectProperties :=
    (snd chosen
     ++ orEmpty (autoFetchProperties (options referenceProperty)))%list in
  let alias := columnsAlias associations in
  forEach
    (fun query (e : string * Property) =>
       let propertyName := fst e in
       let property := snd e in
       if negb selectIsArray || selectAllProperties
          || (propertyName =? "id")%string
          || includes propertyName selectProperties
       then
         if isAllowed property then
           ret (column (Col (alias ++ "." ++ columnName property ++ " as "
                             ++ columnAs associations property)) query)
         else
           s <- sqlishOf property ;;
           match s with
           | Some template =>
               sql <- expandSqlish (alias ++ ".") property template ;;
               ret (column (ColRaw "(" sql
                              (") as " ++ columnAs associations property))
                      query)
           | None => ret query
           end
       else ret query)
    properties query.

(** [Table.prototype.addAssociation].  The recursion goes one association
    deeper at each call and stops when the chain is as long as
    [autoFetchDepth]: [fuel] is the difference of the two. *)
Fixpoint addAssociationFrom (fuel : nat) (query : Query)
    (associations : list Property) (select : option (list string))
  : M Query :=
  query <- addSelectColumnsForAssociation query associations select ;;
  query <- addJoinStatement query associations ;;
  match fuel with
  | O => ret query
  | S fuel' =>
      lastAssociation <-
        orTypeError "lastAssociation" (last (map Some associations) None) ;;
      match getAssociatedModel lastAssociation with
      | None => ret query
      | Some an =>
          associatedModel <- modelOf an ;;
          forEach
            (fun query (e : string * Property) =>
               let associationName := fst e in
               let childAssociation := snd e in
               if autoFetch (options childAssociation)
                  && match autoFetchProperties (options lastAssociation) with
                     | None => true
                     | Some l => includes associationName l
                     end
               then addAssociationFrom fuel' query
                      (push associations childAssociation) select
               else ret query)
            (getAssociations associatedModel) query
      end
  end.

Definition addAssociation (query : Query) (associations : list Property)
    (select : option (list string)) (autoFetchDepth : option nat)
  : M Query :=
  addAssociationFrom
    (match autoFetchDepth with
     | Some d => d - List.length associations
     | None => 0
     end)%nat
    query associations select.

(* ---------------------------------------------------------------- *)
(** *** WHERE clauses *)

(** What [Table.WHERE_TRANSFORMER[key]] finds: the array under one of the
    eleven keys of the literal, or a member the literal inherits. *)
Inductive Transformer : Type :=
| Operators (l : list string)
| Inherited (m : Member).

(** [Table.WHERE_TRANSFORMER[key]] *)
Definition WHERE_TRANSFORMER (key : string) : option Transformer :=
  if (key =? "$is")%string then Some (Operators ["="; "IS"])
  else if (key =? "$gte")%string then Some (Operators [">="])
  else if (key =? "$gt")%string then Some (Operators [">"])
  else if (key =? "$lt")%string then Some (Operators ["<"])
  else if (key =? "$lte")%string then Some (Operators ["<="])
  else if (key =? "$not")%string then Some (Operators ["!="; "IS NOT"])
  else if (key =? "$like")%string then Some (Operators ["LIKE"])
  else if (key =? "$ilike")%string then Some (Operators ["ILIKE"])
  else if (key =? "$regex")%string then Some (Operators ["~"])
  else if (key =? "$or")%string then Some (Operators [])
  else if (key =? "$in")%string then Some (Operators [])
  else option_map Inherited (inherited key).

(** [arr[1]] inside a string concatenation. *)
Definition second (l : list string) : string := nth 1 l "undefined".

(** [transformer.length <= 1]; a [length] that is undefined compares
    false. *)
Definition atMostOne (transformer : Transformer) : bool :=
  match transformer with
  | Operators l => (List.length l <=? 1)%nat
  | Inherited (Method arity _) => (arity <=? 1)%nat
  | Inherited Proto => false
  end.

(** [transformer[1]] inside a string concatenation. *)
Definition secondOf (transformer : Transformer) : string :=
  match transformer with
  | Operators l => second l
  | Inherited _ => "undefined"
  end.

(** [query.where(columnName, transformer[0], value)] *)
Definition whereFirst (columnName : string) (transformer : Transformer)
    (v : Value) : Where :=
  match transformer with
  | Operators l => WhereOp columnName (first l) v
  | Inherited _ => WhereOpUndefined columnName v
  end.

(** The body of the [$or] callback: [where] for the first value and
    [orWhere] for the others. *)
Fixpoint orValues (columnName : string) (ors : list Value) (isFirst : bool)
  : list Where :=
  match ors with
  | [] => []
  | orValue :: rest =>
      WhereVal (negb isFirst) columnName orValue
      :: orValues columnName rest false
  end.

(** One key of an operator object, in [addValueClause]. *)
Definition addOperatorClause (columnName : string) (e : string * Value)
  : M (list Where) :=
  let key := fst e in
  let v := snd e in
  match WHERE_TRANSFORMER key with
  | None => throw (Err ("Invalid transformer `" ++ key ++ "`."))
  | Some transformer =>
      if (key =? "$or")%string then
        ret [WhereWrapped false
               match v with
               | VArr ors => ret (orValues columnName ors true)
               | _ => throw (TypeError "ors.forEach")
               end]
      else if (key =? "$in")%string then ret [WhereIn columnName v]
      else
        match v with
        | VNull =>
            if atMostOne transformer then
              throw (Err ("Cannot use transformer `" ++ key
                          ++ "` with NULL value."))
            else
              ret [WhereRaw (columnName ++ " " ++ secondOf transformer
                             ++ " null") []]
        | VArr l =>
            if (key =? "$not")%string then
              ret [WhereNotIn columnName (map toQueryValue l)]
            else ret [whereFirst columnName transformer v]
        | _ => ret [whereFirst columnName transformer v]
        end
  end.

(** [Table.prototype.addValueClause]: the where clauses it adds. *)
Definition addValueClause (columnName : string) (value : Value)
    (property : option Property) : M (list Where) :=
  match value with
  | VArr l => ret [WhereIn columnName (VArr (map toQueryValue l))]
  | whereValue =>
      match match property with
            | Some p => rawWhere (options p)
            | None => None
            end with
      | Some template =>
          if contains "$1" template then
            ret [WhereRaw (replaceFirst "$1" "?" template) [whereValue]]
          else ret [WhereRaw template []]
      | None =>
          match whereValue with
          | VNull => ret [WhereNull columnName]
          | VQueryValue v => ret [WhereVal false columnName v]
          | VBuilder _ => ret [WhereVal false columnName whereValue]
          | VObj _ | VRaw _ | VArr _ =>
              es <- ownEntries whereValue ;;
              collect (addOperatorClause columnName) es
          | _ => ret [WhereVal false columnName whereValue]
          end
      end
  end.

(** What [addWhereClause] does for one property name and its value;
    [notFound] is the message of the error for an unknown property. *)
Definition whereProperty (notFound : string) (propertyName : string)
    (whereValue : Value) : M (list Where) :=
  match getProperty propertyName with
  | None => throw (Err notFound)
  | Some property =>
      match getFirstProperty propertyName with
      | Some firstProperty =>
          ret [WhereExists
                 (owner <- modelOf (model property) ;;
                  ws <- addValueClause (columnName property) whereValue
                          (Some firstProperty) ;;
                  correlation <-
                    (if isManyToMany firstProperty then
                       t <- modelOfOpt "through"
                              (through (options firstProperty)) ;;
                       otherProperty <-
                         orTypeError "otherProperty"
                           (getPropertyOpt t
                              (throughPropertyName
                                 (options firstProperty))) ;;
                       ret (columnName otherProperty ++ " = "
                            ++ quote (tableName self) ++ "." ++ quote "id")
                     else
                       via <- relationshipViaOf firstProperty ;;
                       if isAllowed via then
                         ret (columnName via ++ " = " ++ getTableName self
                              ++ ".id")
                       else
                         ret (tableName self ++ "."
                              ++ columnName firstProperty
                              ++ " = " ++ tableName owner ++ ".id")) ;;
                  ret (tableName owner,
                       (ws ++ [WhereRaw correlation []])%list))]
      | None =>
          columnName <-
            (if isManyToMany property then
               t <- modelOfOpt "through" (through (options property)) ;;
               via <- relationshipViaOf property ;;
               a <- orTypeError "findAssociationsTo"
                      (hd_error (findAssociationsTo t (model via))) ;;
               ret (tableName t ++ "." ++ columnName a)
             else
               match hasOne (options property) with
               | Some _ =>
                   via <- relationshipViaOf property ;;
                   vm <- modelOf (model via) ;;
                   ret (tableName vm ++ "_" ++ name property ++ ".id")
               | None =>
                   owner <- modelOf (model property) ;;
                   ret (tableName owner ++ "." ++ columnName property)
               end) ;;
          addValueClause columnName whereValue (Some property)
      end
  end.

(** The message for an unknown property at the top level of a where map. *)
Definition notFoundInWhere (propertyName : string) : string :=
  "Cannot find property with name `" ++ propertyName ++ "` on table `"
  ++ tableName self
  ++ "`. Did you specify an invalid property name in where clause?".

(** The message for an unknown property inside [$or]; [propertyName] is the
    key of the enclosing iteration. *)
Definition notFoundInOr (propertyName : string) : string :=
  "Cannot find property with name `" ++ propertyName
  ++ "` on $or on table `" ++ tableName self
  ++ "`. Did you specify an invalid property name in where clause?".

(** The function handed to [where] or [orWhere] for one element of a
    top-level [$or]: what it does when it is run. *)
Definition orBranch (propertyName : string) (or : Value) : M (list Where) :=
  es <- ownEntries or ;;
  collect
    (fun e : string * Value =>
       whereProperty (notFoundInOr propertyName) (fst e) (snd e))
    es.

(** The function handed to [where] for a top-level [$or] hands one function
    for each element to [where], for the first, or [orWhere]. *)
Fixpoint orBranches (propertyName : string) (ors : list Value)
    (isFirst : bool) : list Where :=
  match ors with
  | [] => []
  | or :: rest =>
      WhereWrapped (negb isFirst) (orBranch propertyName or)
      :: orBranches propertyName rest false
  end.

Definition whereEntry (e : string * Value) : M (list Where) :=
  let propertyName := fst e in
  if (propertyName =? "$or")%string then
    ret [WhereWrapped false
           match snd e with
           | VArr ors => ret (orBranches propertyName ors true)
           | _ => throw (TypeError "ors.forEach")
           end]
  else whereProperty (notFoundInWhere propertyName) propertyName (snd e).

(** The where clauses [addWhereClause] adds for [whereMap]. *)
Definition whereClauses (whereMap : Obj) : M (list Where) :=
  collect whereEntry whereMap.

(** [Table.prototype.addWhereClause] *)
Definition addWhereClause (query : Query) (whereMap : Obj) : M Query :=
  ws <- whereClauses whereMap ;;
  ret (addWheres ws query).

(* ---------------------------------------------------------------- *)
(** *** Sorting, limits and RETURNING *)

(** The [sort] argument when it is truthy. *)
Inductive Sort : Type :=
| SortString (s : string)
| SortMap (m : Obj).

Definition truthySort (sort : option Sort) : bool :=
  match sort with
  | None => false
  | Some (SortString s) => negb (s =? EmptyString)%string
  | Some (SortMap _) => true
  end.

(** [value < 0] for a sort direction that is not a string; values without
    a numeric reading compare false. *)
Definition negative (v : Value) : bool :=
  match v with
  | VNum z => (z <? 0)%Z
  | _ => false
  end.

Definition sortEntry (e : string * Value) : M (list (string * string)) :=
  let propertyName := fst e in
  match getProperty propertyName with
  | None =>
      throw (Err ("Warning: cannot find property `" ++ propertyName
                  ++ "` in orderBy."))
  | Some property =>
      sortValue <-
        match snd e with
        | VStr s =>
            let value := toUpperCase s in
            if (value =? "ASC")%string || (value =? "DESC")%string then
              ret value
            else
              throw (Err ("Value `" ++ value
                          ++ "` is not allowed in orderBy."))
        | value => ret (if negative value then "DESC" else "ASC")
        end ;;
      if isVirtual (options property) then
        ret [(columnName property, sortValue)]
      else
        ret [(tableName self ++ "." ++ columnName property, sortValue)]
  end.

(** The [orderBy] calls [addSortClause] makes for [sort]. *)
Definition sortClauses (sort : option Sort)
  : M (list (string * string)) :=
  if truthySort sort then
    match sort with
    | Some (SortMap m) => collect sortEntry m
    | _ =>
        throw (Err ("Ordering by a string is not allowed anymore. "
                    ++ "Use PropertyTypes#Aggregate to order by something "
                    ++ "more advanced."))
    end
  else ret [].

(** [Table.prototype.addSortClause] *)
Definition addSortClause (query : Query) (sort : option Sort) : M Query :=
  os <- sortClauses sort ;;
  ret (addOrders os query).

(** [Table.prototype.addLimitClause] *)
Definition addLimitClause (query : Query) (n : option Z) : Query :=
  match n with
  | Some z => if (0 <? z)%Z then limit z query else query
  | None => query
  end.

(** [Table.prototype.addOffsetClause] *)
Definition addOffsetClause (query : Query) (n : option Z) : Query :=
  match n with
  | Some z => if (0 <? z)%Z then offset z query else query
  | None => query
  end.

Definition returningEntry (readOnlyProperties : list Column)
    (e : string * Property) : M (list Column) :=
  let property := snd e in
  s <- sqlishOf property ;;
  match s with
  | Some template =>
      if negb (isAggregate (options property)) then
        readOnly <- expandSqlish EmptyString property template ;;
        ret (push readOnlyProperties
               (ColRaw "(" readOnly (") as " ++ columnName property)))
      else ret readOnlyProperties
  | None => ret readOnlyProperties
  end.

(** The list handed to [query.returning] by [addReturningClause]. *)
Definition returningColumns : M (list Column) :=
  forEach returningEntry (getAllProperties self) [Col "*"].

(** [Table.prototype.addReturningClause] *)
Definition addReturningClause (query : Query) : M Query :=
  readOnlyProperties <- returningColumns ;;
  ret (returning readOnlyProperties query).

(* ---------------------------------------------------------------- *)
(** *** The statement factory *)

(** The [group] argument when it is truthy. *)
Inductive Group : Type :=
| GroupString (s : string)
| GroupArray (l : list string)
| GroupOther.

Definition truthyGroup (group : option Group) : bool :=
  match group with
  | None => false
  | Some (GroupString s) => negb (s =? EmptyString)%string
  | Some _ => true
  end.

(** [group] inside a string concatenation. *)
Definition groupText (group : option Group) : string :=
  match group with
  | Some (GroupString s) => s
  | Some (GroupArray l) => join "," l
  | _ => "[object Object]"
  end.

Definition isSome {A} (o : option A) : bool :=
  match o with
  | Some _ => true
  | None => false
  end.

(** The computed column of a sqlish property of this table. *)
Definition sqlishColumn (query : Query) (property : Property) : M Query :=
  s <- sqlishOf property ;;
  match s with
  | Some template =>
      sql <- expandSqlish (tableName self ++ ".") property template ;;
      ret (column (ColRaw "(" sql (") as " ++ quote (columnName property)))
             query)
  | None => ret query
  end.

(** The start of the inner query of a paginated SELECT. *)
Definition startWithQuery (sort : option Sort) : M Query :=
  let withQuery := column (Col (tableName self ++ ".*")) (from (tableName self)) in
  if truthySort sort then
    match sort with
    | Some (SortMap m) =>
        forEach
          (fun withQuery (e : string * Value) =>
             property <-
               orTypeError "property" (get (fst e) (getAllProperties self)) ;;
             sqlishColumn withQuery property)
          m withQuery
    | _ => throw (TypeError "property")
    end
  else ret withQuery.

Definition selectEntry (group : option Group) (select : option (list string))
    (selectQuery : Query) (e : string * Property) : M Query :=
  let property := snd e in
  if negb (isHidden (options property))
     && ((negb (isSome select) && negb (isAggregate (options property)))
         || ((name property =? "id")%string && negb (truthyGroup group))
         || match select with
            | Some l => includes (name property) l
            | None => false
            end)
  then
    if isAllowed property then
      ret (column (Col (tableName self ++ "." ++ columnName property))
             selectQuery)
    else sqlishColumn selectQuery property
  else ret selectQuery.

Definition associationEntry (whereMap : option Obj)
    (select fetchAssociations : option (list string))
    (autoFetchDepth : option nat)
    (st : Query * option Query) (e : string * Property)
  : M (Query * option Query) :=
  let association := snd e in
  if autoFetch (options association)
     || match fetchAssociations with
        | Some l => includes (name association) l
        | None => false
        end
  then
    q <- addAssociation (fst st) [association] select autoFetchDepth ;;
    ret (q, snd st)
  else
    m <- orTypeError "whereMap" whereMap ;;
    if match get (name association) m with
       | Some v => truthy v
       | None => false
       end
    then
      match snd st with
      | Some withQuery =>
          w <- addJoinStatement withQuery [association] ;;
          ret (fst st, Some w)
      | None =>
          q <- addJoinStatement (fst st) [association] ;;
          ret (q, None)
      end
    else ret st.

(** The implicit sort of [createSelectStatement]. *)
Definition implicitSort (sort : option Sort) (group : option Group)
  : bool :=
  (0 <? List.length (keys (getAllAssociations self)))%nat
  && negb (truthySort sort)
  && isSome (getProperty "id")
  && negb (truthyGroup group).

Definition effectiveSort (sort : option Sort) (group : option Group)
  : option Sort :=
  if implicitSort sort group then Some (SortMap [("id", VStr "asc")])
  else sort.

Definition addGroupClause (selectQuery : Query) (group : option Group)
  : M Query :=
  if truthyGroup group then
    groupByPropertyNames <-
      match group with
      | Some (GroupString g) => ret [g]
      | Some (GroupArray l) => ret l
      | _ =>
          throw (Err ("Invalid groupBy. Please provider either an array "
                      ++ "or a string."))
      end ;;
    forEach
      (fun selectQuery propertyName =>
         match getProperty propertyName with
         | None =>
             throw (Err ("Invalid group by property `" ++ groupText group
                         ++ "`."))
         | Some property =>
             ret (groupBy (tableName self ++ "." ++ columnName property)
                    selectQuery)
         end)
      groupByPropertyNames selectQuery
  else ret selectQuery.

Definition addWhereClauseOpt (query : Query) (whereMap : option Obj)
  : M Query :=
  match whereMap with
  | Some m => addWhereClause query m
  | None => ret query
  end.

(** [Table.prototype.createSelectStatement] *)
Definition createSelectStatement (whereMap : option Obj)
    (limit skip : option Z) (sort : option Sort) (group : option Group)
    (select fetchAssociations : option (list string))
    (autoFetchDepth : option nat) : M Statement :=
  let selectQuery := from (tableName self) in
  let usingCTE := truthyNum limit || truthyNum skip in
  withQuery <-
    (if usingCTE then w <- startWithQuery sort ;; ret (Some w)
     else ret None) ;;
  selectQuery <-
    forEach (selectEntry group select) (getAllProperties self) selectQuery ;;
  st <- forEach
          (associationEntry whereMap select fetchAssociations autoFetchDepth)
          (getAssociations self) (selectQuery, withQuery) ;;
  let selectQuery := fst st in
  let withQuery := snd st in
  let sort := effectiveSort sort group in
  selectQuery <- addSortClause selectQuery sort ;;
  selectQuery <- addGroupClause selectQuery group ;;
  match withQuery with
  | Some withQuery =>
      withQuery <- addSortClause withQuery sort ;;
      withQuery <- addWhereClauseOpt withQuery whereMap ;;
      let withQuery := addLimitClause withQuery limit in
      let withQuery := addOffsetClause withQuery skip in
      let withQuery :=
        if implicitSort sort group then orderBy "id" "asc" withQuery
        else withQuery in
      ret (Raw ("WITH " ++ dq ++ tableName self ++ dq ++ " AS (?) ?")
             [withQuery; selectQuery])
  | None =>
      selectQuery <- addWhereClauseOpt selectQuery whereMap ;;
      let selectQuery := addLimitClause selectQuery limit in
      let selectQuery := addOffsetClause selectQuery skip in
      ret (Built selectQuery)
  end.

(** The full-text sub-select of [createSearchStatement]. *)
Definition searchCondition (searchText : string) : Value :=
  VObj [("$in",
         VBuilder (mkSubQuery ["id"] (tableName self)
                     [("_search @@ to_tsquery(?)", [searchText])]))].

(** [Table.prototype.createSearchStatement]: the caller's [where] object ([where_])
    after the call, and the statement. *)
Definition createSearchStatement (searchText : string) (where_ : option Obj)
    (limit skip : option Z) (sort : option Sort) (group : option Group)
    (select fetchAssociations : option (list string))
    (autoFetchDepth : option nat) : option Obj * M Statement :=
  let whereMap := set "id" (searchCondition searchText) (orEmpty where_) in
  (match where_ with
   | Some _ => Some whereMap
   | None => None
   end,
   createSelectStatement (Some whereMap) limit skip sort group select
     fetchAssociations autoFetchDepth).

(** [Table.prototype.createCountStatement] *)
Definition createCountStatement (propertyName : option string)
    (whereMap : option Obj) : M Query :=
  let query := from (tableName self) in
  query <-
    match propertyName with
    | Some propertyName =>
        match get propertyName (getAllProperties self) with
        | None =>
            throw (Err ("Unknown property `" ++ propertyName ++ "`."))
        | Some property => ret (count (columnName property) query)
        end
    | None => ret (count "*" query)
    end ;;
  addWhereClauseOpt query whereMap.

(** The id-membership condition of a paginated UPDATE or DELETE. *)
Definition idInT : Where :=
  WhereRaw (quote "id" ++ " in (select " ++ quote "id" ++ " from "
            ++ quote "t" ++ ")") [].

Definition withT : string := "WITH " ++ quote "t" ++ " AS (?) ?".

(** [(limit || skip || sort) && this.getProperty('id')] *)
Definition paginated (limit skip : option Z) (sort : option Sort) : bool :=
  (truthyNum limit || truthyNum skip || truthySort sort)
  && isSome (getProperty "id").

(** [Table.prototype.createDeleteStatement] *)
Definition createDeleteStatement (whereMap : option Obj)
    (limit skip : option Z) (sort : option Sort) : M Statement :=
  let deleteQuery := delete (from (tableName self)) in
  deleteQuery <- addReturningClause deleteQuery ;;
  if paginated limit skip sort then
    let withQuery := from (tableName self) in
    m <- orTypeError "whereMap" whereMap ;;
    withQuery <- addWhereClause withQuery m ;;
    withQuery <- addSortClause withQuery sort ;;
    let withQuery := addLimitClause withQuery limit in
    let withQuery := addOffsetClause withQuery skip in
    let deleteQuery := addWheres [idInT] deleteQuery in
    ret (Raw withT [withQuery; deleteQuery])
  else
    m <- orTypeError "whereMap" whereMap ;;
    deleteQuery <- addWhereClause deleteQuery m ;;
    ret (Built deleteQuery).

(** [Table.prototype.createUpdateStatement] *)
Definition createUpdateStatement (whereMap setMap : option Obj)
    (limit skip : option Z) (sort : option Sort) : M Statement :=
  let updateQuery := from (tableName self) in
  updateQuery <- addSetClause updateQuery setMap ;;
  updateQuery <- addReturningClause updateQuery ;;
  if paginated limit skip sort then
    let withQuery := from (tableName self) in
    withQuery <- addSortClause withQuery sort ;;
    let withQuery := addLimitClause withQuery limit in
    let withQuery := addOffsetClause withQuery skip in
    m <- orTypeError "whereMap" whereMap ;;
    withQuery <- addWhereClause withQuery m ;;
    let updateQuery := addWheres [idInT] updateQuery in
    ret (Raw withT [withQuery; updateQuery])
  else
    m <- orTypeError "whereMap" whereMap ;;
    updateQuery <- addWhereClause updateQuery m ;;
    ret (Built updateQuery).

(** [Table.prototype.createInsertStatement] *)
Definition createInsertStatement (setMap : Obj) : M Query :=
  insertQuery <- addInsertClause (from (tableName self)) setMap ;;
  addReturningClause insertQuery.

(* ---------------------------------------------------------------- *)
(** *** A sample schema

    A blog: users write posts, posts have comments and, through
    [Tagging], tags. *)

Definition noOptions : Options :=
  mkOptions false false false None None None false false None
    None None None None None None.

(** A stored column. *)
Definition stored (owner n c : string) (cl : list string) : Property :=
  mkProperty n c "$" cl owner noOptions true false false None.

Definition withRequired (p : Property) : Property :=
  let o := options p in
  mkProperty (name p) (columnName p) (columnNameIndicator p) (clauses p)
    (model p)
    (mkOptions (isHidden o) (isAggregate o) (isVirtual o) (counting o)
       (sqlish o) (rawWhere o) true (autoFetch o) (autoFetchProperties o)
       (hasOne o) (hasMany o) (belongsTo o) (through o)
       (throughPropertyName o) (relationshipVia o))
    (isAllowed p) (isAssociation p) (isManyToMany p) (getAssociatedModel p).

Definition withAutoFetch (p : Property) : Property :=
  let o := options p in
  mkProperty (name p) (columnName p) (columnNameIndicator p) (clauses p)
    (model p)
    (mkOptions (isHidden o) (isAggregate o) (isVirtual o) (counting o)
       (sqlish o) (rawWhere o) (required o) true (autoFetchProperties o)
       (hasOne o) (hasMany o) (belongsTo o) (through o)
       (throughPropertyName o) (relationshipVia o))
    (isAllowed p) (isAssociation p) (isManyToMany p) (getAssociatedModel p).

(** [owner.n] belongs to [target]; the other side is [target.via]. *)
Definition belongsToP (owner n c target via : string) : Property :=
  mkProperty n c "$" ["INTEGER"] owner
    (mkOptions false false false None None None false false None
       None None (Some target) None None (Some (target, via)))
    true true false (Some target).

(** [owner.n] has many [target]; the other side is [target.via]. *)
Definition hasManyP (owner n target via : string) : Property :=
  mkProperty n n "$" [] owner
    (mkOptions false false false None None None false false None
       None (Some via) None None None (Some (target, via)))
    false true false (Some target).

(** [owner.n] has one [target]; the other side is [target.via]. *)
Definition hasOneP (owner n target via : string) : Property :=
  mkProperty n n "$" [] owner
    (mkOptions false false false None None None false false None
       (Some via) None None None None (Some (target, via)))
    false true false (Some target).

(** [owner.n] has many [target] through [thr]; [mine] is the property of
    [thr] that points back to [owner], and the other side is
    [target.via]. *)
Definition manyToManyP (owner n target via thr mine : string) : Property :=
  mkProperty n n "$" [] owner
    (mkOptions false false false None None None false false None
       None (Some via) None (Some thr) (Some mine) (Some (target, via)))
    false true true (Some target).

(** A computed column counting an association. *)
Definition countingP (owner n target : string) : Property :=
  mkProperty n n "$" [] owner
    (mkOptions false false false (Some target) None None false false None
       None None None None None None)
    false false false None.

Definition idP (owner : string) : Property :=
  stored owner "id" "id" ["SERIAL PRIMARY KEY"].

Definition User_posts : Property := hasManyP "User" "posts" "Post" "user".
Definition User_profile : Property :=
  hasOneP "User" "profile" "Profile" "user".

Definition User : Model :=
  mkModel "User" "users"
    [("id", idP "User");
     ("name", stored "User" "name" "name" ["TEXT"; "NOT NULL"]);
     ("posts", User_posts);
     ("profile", User_profile)]
    [("posts", User_posts);
     ("profile", User_profile)].

Definition Profile : Model :=
  mkModel "Profile" "profiles"
    [("id", idP "Profile");
     ("user", belongsToP "Profile" "user" "user_id" "User" "profile")]
    [("user", belongsToP "Profile" "user" "user_id" "User" "profile")].

Definition Post_score : Property :=
  stored "Post" "score" "score" ["INTEGER"; "NOT NULL"].
Definition Post_user : Property :=
  belongsToP "Post" "user" "user_id" "User" "posts".
Definition Post_comments : Property :=
  withAutoFetch (hasManyP "Post" "comments" "Comment" "post").
Definition Post_tags : Property :=
  withRequired (manyToManyP "Post" "tags" "Tag" "posts" "Tagging" "post").

Definition Post : Model :=
  mkModel "Post" "posts"
    [("id", idP "Post");
     ("title", stored "Post" "title" "title" ["TEXT"]);
     ("score", Post_score);
     ("user", Post_user);
     ("comments", Post_comments);
     ("tags", Post_tags);
     ("numberOfComments", countingP "Post" "numberOfComments" "comments")]
    [("user", Post_user);
     ("comments", Post_comments);
     ("tags", Post_tags)].

Definition Comment_post : Property :=
  belongsToP "Comment" "post" "post_id" "Post" "comments".
Definition Comment_author : Property :=
  withRequired (belongsToP "Comment" "author" "author_id" "User" "posts").

Definition Comment : Model :=
  mkModel "Comment" "comments"
    [("id", idP "Comment");
     ("text", stored "Comment" "text" "text" ["TEXT"]);
     ("post", Comment_post);
     ("author", Comment_author)]
    [("post", Comment_post);
     ("author", Comment_author)].

(** Two chains from [User] with the same alias. *)
Definition User_bestFriend : Property :=
  belongsToP "User" "best_friend" "best_friend_id" "User" "posts".
Definition User_best : Property :=
  belongsToP "User" "best" "best_id" "User" "posts".
Definition User_friend : Property :=
  belongsToP "User" "friend" "friend_id" "User" "posts".

Definition Tag : Model :=
  mkModel "Tag" "tags"
    [("id", idP "Tag");
     ("name", stored "Tag" "name" "name" ["TEXT"]);
     ("posts", manyToManyP "Tag" "posts" "Post" "tags" "Tagging" "tag")]
    [("posts", manyToManyP "Tag" "posts" "Post" "tags" "Tagging" "tag")].

Definition Tagging : Model :=
  mkModel "Tagging" "taggings"
    [("id", idP "Tagging");
     ("post", belongsToP "Tagging" "post" "post_id" "Post" "tags");
     ("tag", belongsToP "Tagging" "tag" "tag_id" "Tag" "posts")]
    [("post", belongsToP "Tagging" "post" "post_id" "Post" "tags");
     ("tag", belongsToP "Tagging" "tag" "tag_id" "Tag" "posts")].

Definition blog : Models :=
  [("User", User); ("Profile", Profile); ("Post", Post);
   ("Comment", Comment); ("Tag", Tag); ("Tagging", Tagging)].

(** A table without an [id], and a column with a raw where template. *)
Definition Setting : Model :=
  mkModel "Setting" "settings"
    [("key", stored "Setting" "key" "key" ["TEXT"]);
     ("value", stored "Setting" "value" "value" ["TEXT"])]
    [].

Definition withRawWhere (template : string) (p : Property) : Property :=
  let o := options p in
  mkProperty (name p) (columnName p) (columnNameIndicator p) (clauses p)
    (model p)
    (mkOptions (isHidden o) (isAggregate o) (isVirtual o) (counting o)
       (sqlish o) (Some template) (required o) (autoFetch o)
       (autoFetchProperties o) (hasOne o) (hasMany o) (belongsTo o)
       (through o) (throughPropertyName o) (relationshipVia o))
    (isAllowed p) (isAssociation p) (isManyToMany p) (getAssociatedModel p).

Definition Post_titleSearch : Property :=
  withRawWhere "to_tsvector(title) @@ to_tsquery($1)"
    (stored "Post" "title" "title" ["TEXT"]).

(** The column that the computed property [numberOfComments] of a post
    expands to. *)
Definition countOfComments : Column :=
  ColRaw "("
    ("(SELECT COUNT(*) FROM " ++ quote "comments" ++ " WHERE "
     ++ quote "posts" ++ ".id = " ++ quote "comments" ++ ".post_id)")
    ") as numberOfComments".

(** Stand-ins for the external functions, for templates without tokens and
    names already in the wanted case. *)
Definition sameCase (s : string) : string := s.
Definition sameCamel (s : string) (lower : bool) : string := s.
Definition noTokens (s : string)
    (f : string -> option string -> M string) : M string := ret s.

(* ---------------------------------------------------------------- *)
(** *** Reading a statement *)

(** The query that runs against the table: the statement itself, or the
    second binding of a [WITH ... AS (?) ?] statement. *)
Definition outer (st : Statement) : option Query :=
  match st with
  | Built q => Some q
  | Raw _ [_; q] => Some q
  | Raw _ _ => None
  end.

(** The query that computes the common table expression of a
    [WITH ... AS (?) ?] statement. *)
Definition inner (st : Statement) : option Query :=
  match st with
  | Raw _ [w; _] => Some w
  | _ => None
  end.

(* ---------------------------------------------------------------- *)
(** *** The operator table, as lists *)




Definition isArray (v : Value) : bool :=
  match v with
  | VArr _ => true
  | _ => false
  end.

(* ---------------------------------------------------------------- *)
(** *** Limits and computed columns, as read off a statement *)

(** The limit or offset a query gets for the argument [n]. *)
Definition applied (n : option Z) : option Z :=
  if positive n then n else None.

(** Whether [addReturningClause] lists a column for [property]: it has a
    sqlish text and is not an aggregate. *)
Definition returned (property : Property) : bool :=
  match sqlishOf property with
  | inr (Some _) => negb (isAggregate (options property))
  | _ => false
  end.

(** The column [addReturningClause] lists for [property]. *)
Definition returnedAs (property : Property) (c : Column) : Prop :=
  exists template sql,
    sqlishOf property = inr (Some template)
    /\ isAggregate (options property) = false
    /\ expandSqlish EmptyString property template = inr sql
    /\ c = ColRaw "(" sql (") as " ++ columnName property).

(** Following the spec: a property has a computed RETURNING column when it
    carries a sqlish template or counts an association, and is not an
    aggregate. *)
Definition isComputed (property : Property) : bool :=
  (isSome (sqlish (options property))
   || isSome (counting (options property)))
  && negb (isAggregate (options property)).

(** Following the spec: the RETURNING column of such a property is its
    template, or, for a property that counts an association and has no
    template, the count of that association, with the tokens of the text
    replaced ([$name] by the underscored name, [$fn("arg")] by the count of
    [arg]), in parentheses and named by the column of the property. *)
Definition computedAs (property : Property) (c : Column) : Prop :=
  exists template sql,
    match sqlish (options property), counting (options property) with
    | Some t, _ => template = t
    | None, Some target =>
        createReadOnlyStatement property target = inr template
    | None, None => False
    end
    /\ replaceSqlish template
         (fun readOnlyPropertyName targetPropertyName =>
            match targetPropertyName with
            | Some t => createReadOnlyStatement property t
            | None => ret (underscore readOnlyPropertyName)
            end) = inr sql
    /\ c = ColRaw "(" sql (") as " ++ columnName property).

(* ---------------------------------------------------------------- *)
(** *** Associations of a SELECT, and what a builder step leaves alone *)

(** Whether [createSelectStatement] fetches [association]: it is auto-fetch
    or named in [fetchAssociations]. *)
Definition fetched (fetchAssociations : option (list string))
    (association : Property) : bool :=
  autoFetch (options association)
  || match fetchAssociations with
     | Some l => includes (name association) l
     | None => false
     end.

(** Whether [whereMap] has a truthy value under the name of
    [association]. *)
Definition referenced (whereMap : option Obj) (association : Property)
  : bool :=
  match whereMap with
  | Some m =>
      match get (name association) m with
      | Some v => truthy v
      | None => false
      end
  | None => false
  end.

(** [q'] has the table, joins, where clauses, sort, limit and offset of
    [q]. *)
Definition untouched (q q' : Query) : Prop :=
  q_from q' = q_from q
  /\ q_wheres q' = q_wheres q
  /\ q_orders q' = q_orders q
  /\ q_limit q' = q_limit q
  /\ q_offset q' = q_offset q
  /\ q_joins q' = q_joins q.

(** [q'] has the table, where clauses, sort, limit and offset of [q], and
    its joins followed by more. *)
Definition keeps (q q' : Query) : Prop :=
  q_from q' = q_from q
  /\ q_wheres q' = q_wheres q
  /\ q_orders q' = q_orders q
  /\ q_limit q' = q_limit q
  /\ q_offset q' = q_offset q
  /\ exists js, q_joins q' = (q_joins q ++ js)%list.

(* ---------------------------------------------------------------- *)
(** *** Error messages *)





(* ---------------------------------------------------------------- *)
(** *** Sqlish statements given by the application *)

Definition isDigit (c : ascii) : bool :=
  let n := nat_of_ascii c in (48 <=? n)%nat && (n <=? 57)%nat.

Fixpoint allDigits (s : string) : bool :=
  match s with
  | EmptyString => true
  | String c s' => isDigit c && allDigits s'
  end.

(** [s.match(/^[0-9]+$/)] *)
Definition isNumber (s : string) : bool :=
  negb (s =? EmptyString)%string && allDigits s.

(** [s.substring(a, b)] *)
Definition substringJS (a b : nat) (s : string) : string :=
  String.substring (Nat.min a b) (Nat.max a b - Nat.min a b) s.

(** [Table.prototype.parseSQLishFunction] *)
Definition parseSQLishFunction (sqlishFunctionName firstArgument : string)
  : M string :=
  targetProperty <-
    orTypeError "targetProperty" (getProperty firstArgument) ;;
  if negb (isAssociation targetProperty) then
    throw (Err "Count only works on associations.")
  else
    associated <-
      match through (options targetProperty) with
      | Some t =>
          associatedTable <- modelOf t ;;
          p <- orTypeError "throughProperty"
                 (getPropertyOpt associatedTable
                    (throughPropertyName (options targetProperty))) ;;
          ret (associatedTable, columnName p)
      | None =>
          associatedModel <-
            modelOfOpt "associatedModel" (getAssociatedModel targetProperty) ;;
          associatedProperty <- relationshipViaOf targetProperty ;;
          ret (associatedModel, columnName associatedProperty)
      end ;;
    let sqlFunction := toUpperCase sqlishFunctionName in
    ret ("(SELECT " ++ sqlFunction ++ "(*) FROM "
         ++ getTableName (fst associated)
         ++ " WHERE " ++ getTableName self ++ ".id = "
         ++ getTableName (fst associated) ++ "." ++ snd associated ++ ")").

(** The replacement callback of [parseSQLishStatement]. *)
Definition parseSQLishToken (propertyNameOrFunction : string)
    (functionArgument : option string) : M string :=
  match functionArgument with
  | Some argument => parseSQLishFunction propertyNameOrFunction argument
  | None =>
      if isNumber propertyNameOrFunction then
        ret ("$" ++ propertyNameOrFunction)
      else
        property <-
          orTypeError "property" (getProperty propertyNameOrFunction) ;;
        ret (columnName property)
  end.

(** [Table.prototype.parseSQLishStatement] *)
Definition parseSQLishStatement (sqlish : string) : M string :=
  sql <- replaceSqlish sqlish parseSQLishToken ;;
  ret ("(" ++ sql ++ ")").

(** [Table.prototype.execute]: the text and the values given to
    [knex.raw], whose result goes to the datastore. *)
Definition execute (sql : string) (values : list Value)
  : M (string * list Value) :=
  statement <- parseSQLishStatement sql ;;
  ret (substringJS 1 (String.length statement - 1) statement, values).

(** [Table.keywords.Decimal]; the arguments are given as printed. *)
Definition Decimal (precision scale : option string) : string :=
  match precision, scale with
  | Some p, Some s => "DECIMAL(" ++ p ++ ", " ++ s ++ ")"
  | Some p, None => "DECIMAL(" ++ p ++ ")"
  | None, _ => "DECIMAL"
  end.

(** [Table.keywords.Default] and [Table.keywords.References] *)
Definition Default (defaultValue : string) : string :=
  "DEFAULT " ++ defaultValue.

Definition References (table : string) : string :=
  "REFERENCES " ++ quote table ++ "(id)".

(* ---------------------------------------------------------------- *)
(** *** More ways to read a statement *)

(** The queries of a statement. *)
Definition queries (st : Statement) : list Query :=
  match st with
  | Built q => [q]
  | Raw _ bindings => bindings
  end.

(** A limit or an offset, when there is one, is positive. *)
Definition positiveOrNone (n : option Z) : Prop :=
  match n with
  | Some z => (0 < z)%Z
  | None => True
  end.

(** [p'] is [p] but for its clauses. *)
Definition sameButClauses (p p' : Property) : Prop :=
  withClauses (clauses p) p' = p.

(** A set value that [addSetClause] takes as a directive object, not as a
    value to assign. *)
Definition isDirective (v : Value) : bool :=
  match v with
  | VObj _ | VArr _ | VBuilder _ => true
  | _ => false
  end.

(** The base-table column [createSelectStatement] selects for an entry of the
    property map, for a storable property. *)
Definition selected (group : option Group) (select : option (list string))
    (property : Property) : bool :=
  negb (isHidden (options property))
  && ((negb (isSome select) && negb (isAggregate (options property)))
      || ((name property =? "id")%string && negb (truthyGroup group))
      || match select with
         | Some l => includes (name property) l
         | None => false
         end).

(** Whether [addSelectColumnsForAssociation] selects the property under the
    key [propertyName] for the chain [associations]. *)
Definition chosen (associations : list Property)
    (select : option (list string)) (propertyName : string) : bool :=
  let startSelect :=
    String.concat EmptyString
      (map (fun association => name association ++ ".") associations) in
  let picked :=
    fold_left (selectedThrough startSelect) (orEmpty select) (false, []) in
  let referenceOptions :=
    match last (map Some associations) None with
    | Some r => autoFetchProperties (options r)
    | None => None
    end in
  match select, referenceOptions with
  | None, None => true
  | _, _ =>
      fst picked
      || (propertyName =? "id")%string
      || includes propertyName
           (snd picked ++ orEmpty referenceOptions)%list
  end.

(** The column selected for a storable property of an association. *)
Definition associationColumn (associations : list Property)
    (property : Property) : Column :=
  Col (columnsAlias associations ++ "." ++ columnName property ++ " as "
       ++ columnAs associations property).

(** The groups of a top-level [$or]: the first joined with [where], the
    others with [orWhere]. *)
Definition alternatives (bodies : list (M (list Where))) : list Where :=
  match bodies with
  | [] => []
  | body :: others =>
      WhereWrapped false body :: map (WhereWrapped true) others
  end.

(** A column given by name, not as a raw expression. *)
Definition isPlain (c : Column) : bool :=
  match c with
  | Col _ => true
  | ColRaw _ _ _ => false
  end.

(** The column [createSelectStatement] selects for a storable property of
    this table. *)
Definition baseColumn (property : Property) : Column :=
  Col (tableName self ++ "." ++ columnName property).

(** [q'] has the columns of [q], followed by more. *)
Definition moreColumns (q q' : Query) : Prop :=
  exists cs, q_columns q' = (q_columns q ++ cs)%list.

(** The names a truthy group stands for. *)
Definition groupNames (group : option Group) : option (list string) :=
  match group with
  | Some (GroupString g) => Some [g]
  | Some (GroupArray l) => Some l
  | _ => None
  end.

(* ---------------------------------------------------------------- *)
(** *** The API routes of the model (lib/modules/api/index.js)

    [model] is the model of this table, so [model.getProperty] is
    [getProperty].  A route answers with a promise: the value it is
    resolved with, or the error it is rejected with.  What the access
    control and the model's own functions answer is given to a route as an
    argument. *)

(** An error with a [status] and a message, or any other error. *)
Inductive Rejection : Type :=
| Status (status : Z) (message : string)
| Thrown (e : Error).

Definition Promise (A : Type) : Type := (Rejection + A)%type.

(** [promise.then(k)] *)
Definition andThen {A B} (p : Promise A) (k : A -> Promise B) : Promise B :=
  match p with
  | inl r => inl r
  | inr a => k a
  end.

(** The error of a route that is not permitted. *)
Definition notPermitted {A} (_authenticator : Value) : Promise A :=
  if truthy _authenticator then inl (Status 403 "Forbidden")
  else inl (Status 401 "Unauthorized").

Definition isUndefined (v : Value) : bool :=
  match v with
  | VUndefined => true
  | _ => false
  end.

(** [_canUpdateProperties] of the update route; [canUpdateOption] gives
    [property.options.canUpdate]. *)
Fixpoint _canUpdateProperties (canUpdateOption : Property -> Value)
    (propertyNames : list string) : bool :=
  match propertyNames with
  | [] => true
  | propertyName :: rest =>
      if match getProperty propertyName with
         | Some property =>
             negb (isUndefined (canUpdateOption property))
             && negb (truthy (canUpdateOption property))
         | None => false
         end
      then false
      else _canUpdateProperties canUpdateOption rest
  end.

(** The update route up to its call of the update function of the model:
    the where map and the set map of the call. *)
Definition updateCall (canUpdateOption : Property -> Value)
    (canUpdate _authenticator : Value) (keyPath : option string)
    (id : Value) (body : option Obj) : Promise (Obj * Obj) :=
  if truthy canUpdate then
    andThen
      match keyPath with
      | Some keyPath =>
          match getProperty keyPath with
          | None =>
              inl (Thrown (Err ("Invalid key path `" ++ keyPath ++ "`.")))
          | Some _ => inr (set keyPath _authenticator [])
          end
      | None => inr []
      end
      (fun whereMap =>
         let whereMap := set "id" id whereMap in
         match body with
         | None => inl (Thrown (TypeError "Object.keys called on non-object"))
         | Some setMap =>
             if _canUpdateProperties canUpdateOption (keys setMap) then
               inr (whereMap, setMap)
             else inl (Status 400 "Bad Request")
         end)
  else notPermitted _authenticator.

(** [ModelController.prototype[updateFunctionName]] *)
Definition updateRoute (canUpdateOption : Property -> Value)
    (canUpdate _authenticator : Value) (keyPath : option string)
    (id : Value) (body : option Obj)
    (updateFunction : Obj -> Obj -> Promise Value) : Promise Value :=
  andThen (updateCall canUpdateOption canUpdate _authenticator keyPath id body)
    (fun call =>
       andThen (updateFunction (fst call) (snd call))
         (fun instance =>
            if truthy instance then inr instance
            else notPermitted _authenticator)).

(** The create route up to its call of the create function of the model:
    the argument of the call, which is the body of the request, absent or
    not. *)
Definition createCall (canCreate _authenticator : Value)
    (hasAuthenticator : bool) (automaticPropertyName : option string)
    (body : option Obj) : Promise (option Obj) :=
  if truthy canCreate then
    let createMap := orEmpty body in
    match automaticPropertyName with
    | Some automaticPropertyName =>
        if negb hasAuthenticator then
          inl (Thrown (Err ("Cannot find authenticator model. Did you "
                            ++ "define an authenticator via "
                            ++ "`PropertyTypes#Authenticate`?")))
        else if match get automaticPropertyName createMap with
                | Some v => truthy v
                | None => false
                end
        then inl (Status 400 "Cannot set automatic property manually.")
        else
          inr match body with
              | Some _ =>
                  Some (set automaticPropertyName _authenticator createMap)
              | None => None
              end
    | None => inr body
    end
  else notPermitted _authenticator.

(** [delete o[k]] *)
Fixpoint remove {A} (k : string) (o : list (string * A))
  : list (string * A) :=
  match o with
  | [] => []
  | (k', v) :: o' =>
      if String.eqb k k' then remove k o' else (k', v) :: remove k o'
  end.

(** The read-many route up to its call of the find function of the model:
    the query map and the options of the call.  [parse] is [JSON.parse];
    [query] is the query of the request, absent or not. *)
Definition readManyCall (parse : Value -> Promise Value)
    (canRead _authenticator : Value) (query : option Obj)
  : Promise (Obj * Value) :=
  if truthy canRead then
    let queryMap := orEmpty query in
    match get "$options" queryMap with
    | Some options =>
        if truthy options then
          andThen (parse options)
            (fun optionsMap => inr (remove "$options" queryMap, optionsMap))
        else inr (queryMap, VObj [])
    | None => inr (queryMap, VObj [])
    end
  else notPermitted _authenticator.

(** [instance.accessToken] *)
Definition accessToken (instance : Value) : Promise Value :=
  match instance with
  | VNull | VUndefined => inl (Thrown (TypeError "accessToken"))
  | VObj o =>
      inr match get "accessToken" o with
          | Some v => v
          | None => VUndefined
          end
  | _ => inr VUndefined
  end.

(** [ModelController.prototype[createFunctionName]]: the instance, and
    [session.at] after the call when it is set. *)
Definition createRoute (canCreate _authenticator : Value)
    (hasAuthenticator : bool) (automaticPropertyName : option string)
    (isAuthenticator : bool) (body : option Obj)
    (createFunction : option Obj -> Promise Value)
  : Promise (Value * option Value) :=
  andThen
    (createCall canCreate _authenticator hasAuthenticator
       automaticPropertyName body)
    (fun argument =>
       andThen (createFunction argument)
         (fun instance =>
            if isAuthenticator then
              andThen (accessToken instance)
                (fun token => inr (instance, Some token))
            else inr (instance, None))).

(** [ModelController.prototype[deleteFunctionName]] *)
Definition deleteRoute (id : Value) : Promise Value :=
  inl (Status 404 "Not Found").

(* ---------------------------------------------------------------- *)
(** *** Through models (lib/modules/models/index.js)

    [postInstallModel] writes the name of a property of a through model to
    [options.throughPropertyName] of the two associations the model
    stands between.  The associations are objects: references into a store
    of what that option holds. *)

Record ThroughProperty : Type := mkThroughProperty {
  throughName : string;            (* [throughProperty.name] *)
  referenceName : option string    (* [throughProperty.options.referenceName] *)
}.

Definition Links : Type := list (option string).

Fixpoint assign (links : Links) (r : nat) (v : option string) : Links :=
  match links, r with
  | [], _ => []
  | _ :: links', O => v :: links'
  | x :: links', S r' => x :: assign links' r' v
  end.

(** [name == reference], for a reference that may be undefined *)
Definition refersTo (reference : option string) (n : string) : bool :=
  match reference with
  | Some r => (r =? n)%string
  | None => false
  end.

(** What [postInstallModel] reads from a through model: the two
    associations, the names of their models, and the properties of the
    through model. *)
Record ThroughModel : Type := mkThroughModel {
  throughProperty : nat;               (* [model.options.throughProperty] *)
  throughAssociatedProperty : nat;
                                 (* [model.options.throughAssociatedProperty] *)
  ownerName : string;                  (* [property.model.getName()] *)
  associatedName : string;
                                 (* [property.getAssociatedModel().getName()] *)
  throughModelProperties : list ThroughProperty
}.

(** One round of the loop of [postInstallModel]. *)
Definition linkThroughProperty (t : ThroughModel) (links : Links)
    (p : ThroughProperty) : Links :=
  if refersTo (referenceName p) (ownerName t) then
    assign links (throughProperty t) (Some (throughName p))
  else if refersTo (referenceName p) (associatedName t) then
    assign links (throughAssociatedProperty t) (Some (throughName p))
  else links.

(** [Models.prototype.postInstallModel]: the authenticator and the store
    after the call.  [modelName] stands for the model object. *)
Definition postInstallModel (modelName : string) (isAuthenticator : bool)
    (isThroughModel : option ThroughModel)
    (st : option string * Links) : option string * Links :=
  let _authenticator := if isAuthenticator then Some modelName else fst st in
  match isThroughModel with
  | Some t =>
      (_authenticator,
       fold_left (linkThroughProperty t) (throughModelProperties t) (snd st))
  | None => (_authenticator, snd st)
  end.

(* ---------------------------------------------------------------- *)
(** ** Properties *)

(** *** Strings and the error monad *)

Lemma append_inj_l (a x y : string) : a ++ x = a ++ y -> x = y.
Proof.
  induction a as [|c a IH]; simpl; intros H.
  - exact H.
  - injection H as H. auto.
Qed.

Lemma hasChar_app (c : ascii) (x y : string) :
  hasChar c (x ++ y) = hasChar c x || hasChar c y.
Proof.
  induction x as [|a x IH]; simpl.
  - reflexivity.
  - rewrite IH. now rewrite orb_assoc.
Qed.

Lemma split_at_char (c : ascii) (x y r1 r2 : string) :
  hasChar c x = false -> hasChar c y = false ->
  x ++ String c r1 = y ++ String c r2 -> x = y /\ r1 = r2.
Proof.
  revert y. induction x as [|a x IH]; intros [|b y]; simpl; intros Hx Hy H.
  - injection H as H. auto.
  - injection H as Hc _. subst b. rewrite Ascii.eqb_refl in Hy. discriminate.
  - injection H as Hc _. subst a. rewrite Ascii.eqb_refl in Hx. discriminate.
  - injection H as Hc H. subst b.
    apply orb_false_elim in Hx as [_ Hx].
    apply orb_false_elim in Hy as [_ Hy].
    destruct (IH y Hx Hy H) as [-> ->]. auto.
Qed.

Lemma join_cons2 (sep x y : string) (l : list string) :
  join sep (x :: y :: l) = x ++ sep ++ join sep (y :: l).
Proof. reflexivity. Qed.

Lemma join_underscore_inj (l1 l2 : list string) :
  l1 <> [] -> l2 <> [] ->
  forallb noUnderscore l1 = true -> forallb noUnderscore l2 = true ->
  join "_" l1 = join "_" l2 -> l1 = l2.
Proof.
  revert l2. induction l1 as [|x t1 IH]; intros [|y t2] N1 N2 U1 U2 H;
    try congruence.
  simpl in U1, U2.
  apply andb_true_iff in U1 as [Ux U1]. apply andb_true_iff in U2 as [Uy U2].
  unfold noUnderscore in Ux, Uy.
  apply negb_true_iff in Ux. apply negb_true_iff in Uy.
  destruct t1 as [|x' t1], t2 as [|y' t2].
  - simpl in H. now subst.
  - rewrite join_cons2 in H. simpl join at 1 in H. subst x.
    rewrite hasChar_app in Ux. simpl in Ux.
    rewrite orb_true_r in Ux. discriminate.
  - rewrite join_cons2 in H. simpl join at 2 in H. subst y.
    rewrite hasChar_app in Uy. simpl in Uy.
    rewrite orb_true_r in Uy. discriminate.
  - rewrite !join_cons2 in H.
    change ("_" ++ join "_" (x' :: t1))
      with (String "_"%char (join "_" (x' :: t1))) in H.
    change ("_" ++ join "_" (y' :: t2))
      with (String "_"%char (join "_" (y' :: t2))) in H.
    destruct (split_at_char _ _ _ _ _ Ux Uy H) as [-> H'].
    f_equal. apply IH; auto; discriminate.
Qed.

Lemma append_assoc (a b c : string) : (a ++ b) ++ c = a ++ b ++ c.
Proof.
  induction a as [|x a IH]; simpl; [reflexivity | now rewrite IH].
Qed.

Lemma join_push (sep x a : string) (l : list string) :
  join sep (push (x :: l) a) = join sep (x :: l) ++ sep ++ a.
Proof.
  revert x. induction l as [|y l IH]; intros x.
  - reflexivity.
  - change (push (x :: y :: l) a) with (x :: y :: push l a).
    rewrite join_cons2.
    change (y :: push l a) with (push (y :: l) a).
    rewrite IH. rewrite join_cons2.
    now rewrite !append_assoc.
Qed.

Lemma names_push (l : list Property) (a : Property) :
  names (push l a) = push (names l) (name a).
Proof. unfold names, push. now rewrite map_app. Qed.

Lemma removelast_push {A} (l : list A) (a : A) :
  removelast (push l a) = l.
Proof. unfold push. apply removelast_last. Qed.

(* ---------------------------------------------------------------- *)
(** *** Aliases of joined tables *)

(** C6, as amended.  For a non-empty chain of associations the alias of
    the joined table, in [addJoinStatement] and in
    [addSelectColumnsForAssociation] alike, is the table name and the
    association names in traversal order joined by underscores; the alias
    the join refers back to is the same rule on the chain without its last
    association; and two non-empty chains whose association names contain no
    underscore have the same alias only if they have the same names. *)
Theorem alias_of_chain (chain : list Property) :
  chain <> [] ->
  alias chain = join "_" (tableName self :: names chain)
  /\ columnsAlias chain = alias chain
  /\ previousAlias chain
     = join "_" (tableName self :: names (removelast chain))
  /\ (forall a, alias (push chain a) = alias chain ++ "_" ++ name a)
  /\ (forall a, previousAlias (push chain a) = alias chain)
  /\ (forall chain',
        chain' <> [] ->
        forallb noUnderscore (names chain) = true ->
        forallb noUnderscore (names chain') = true ->
        alias chain = alias chain' -> names chain = names chain').
Proof.
  intros Hne.
  assert (Halias : forall c, c <> [] ->
            alias c = join "_" (tableName self :: names c)).
  { intros [|a c] Hc; [congruence|]. reflexivity. }
  repeat split.
  - now apply Halias.
  - unfold columnsAlias. symmetry. now apply Halias.
  - intros a. unfold alias. rewrite names_push.
    destruct chain as [|b chain]; [congruence|].
    simpl names. rewrite join_push. now rewrite <- !append_assoc.
  - intros a. unfold previousAlias. rewrite removelast_push.
    symmetry. now apply Halias.
  - intros chain' Hne' U U' H.
    unfold alias in H. apply append_inj_l in H.
    change ("_" ++ join "_" (names chain))
      with (String "_"%char (join "_" (names chain))) in H.
    change ("_" ++ join "_" (names chain'))
      with (String "_"%char (join "_" (names chain'))) in H.
    injection H as H.
    apply join_underscore_inj; auto.
    + destruct chain; [congruence | discriminate].
    + destruct chain'; [congruence | discriminate].
Qed.

(* ---------------------------------------------------------------- *)
(** *** The error monad *)

Lemma bind_inr {A B} (m : M A) (k : A -> M B) (b : B) :
  bind m k = inr b -> exists a, m = inr a /\ k a = inr b.
Proof. destruct m as [e|a]; simpl; [discriminate | eauto]. Qed.

Lemma last_push {A} (l : list A) (a : A) :
  last (map Some (push l a)) None = Some a.
Proof.
  unfold push. rewrite map_app. simpl. apply last_last.
Qed.

(* ---------------------------------------------------------------- *)
(** *** Join types *)

(** C5, as amended.  The joins [addJoinStatement] makes for a chain ending
    in [association]: for a hasOne, hasMany or belongsTo association one
    join of the associated table under the alias of the chain, inner when
    the association is required and left outer otherwise; for a
    many-to-many association two joins, of the through table and of the
    associated table, both left outer whether or not the association is
    required. *)
Theorem join_type_of_association (prefix : list Property)
    (association : Property) (js : list Join) :
  joinsFor (push prefix association) = inr js ->
  if isManyToMany association then
    exists j1 j2 through associated,
      js = [j1; j2]
      /\ j_table j1 = tableName through
      /\ j_table j2
         = tableName associated ++ " as " ++ alias (push prefix association)
      /\ j_type j1 = leftOuterJoin /\ j_type j2 = leftOuterJoin
  else
    (hasOne (options association) = None
     /\ hasMany (options association) = None
     /\ belongsTo (options association) = None
     /\ js = [])
    \/ (exists j associated,
          js = [j]
          /\ j_table j
             = tableName associated ++ " as "
               ++ alias (push prefix association)
          /\ j_type j = (if required (options association) then innerJoin
                         else leftOuterJoin)).
Proof.
  unfold joinsFor. rewrite last_push. simpl.
  destruct (isManyToMany association).
  - intros H.
    repeat match type of H with
           | bind ?m _ = inr _ =>
               let a := fresh "a" in
               let E := fresh "E" in
               apply bind_inr in H as (a & E & H)
           | match ?x with _ => _ end = inr _ => destruct x eqn:?
           | throw _ = inr _ => discriminate H
           end.
    injection H as <-. do 4 eexists. repeat split.
  - intros H.
    apply bind_inr in H as (am & Eam & H).
    destruct (hasOne (options association)) as [h1|].
    { apply bind_inr in H as (p & _ & H). injection H as <-.
      right. do 2 eexists. repeat split. }
    destruct (hasMany (options association)) as [h2|].
    { destruct (getPropertyOf am h2).
      - injection H as <-. right. do 2 eexists. repeat split.
      - apply bind_inr in H as (? & _ & H). discriminate. }
    destruct (belongsTo (options association)) as [h3|].
    { injection H as <-. right. do 2 eexists. repeat split. }
    destruct (autoFetch (options association)); [discriminate|].
    injection H as <-. left. auto.
Qed.

Lemma forEach_app {A S} (f : S -> A -> M S) (l1 l2 : list A) (s : S) :
  forEach f (l1 ++ l2) s = bind (forEach f l1 s) (forEach f l2).
Proof.
  revert s. induction l1 as [|a l1 IH]; intros s; simpl.
  - reflexivity.
  - destruct (f s a) as [e|s']; simpl; auto.
Qed.

Lemma forEach_inv {A S} (P : S -> Prop) (f : S -> A -> M S) (l : list A) :
  (forall s a s', In a l -> P s -> f s a = inr s' -> P s') ->
  forall s s', P s -> forEach f l s = inr s' -> P s'.
Proof.
  induction l as [|a l IH]; intros Hstep s s' Hs H; simpl in H.
  - injection H as <-. exact Hs.
  - apply bind_inr in H as (s1 & E1 & H).
    apply IH with (s := s1); auto.
    + intros s0 a0 s0' Hin. apply Hstep. now right.
    + apply Hstep with (s := s) (a := a); auto. now left.
Qed.

Lemma get_set_same {A} (k : string) (v : A) (o : list (string * A)) :
  get k (set k v o) = Some v.
Proof.
  induction o as [|[k' v'] o IH]; simpl.
  - now rewrite String.eqb_refl.
  - destruct (String.eqb k k') eqn:E; simpl; rewrite E; auto.
Qed.

Lemma get_set_other {A} (k k' : string) (v : A) (o : list (string * A)) :
  k' <> k -> get k' (set k v o) = get k' o.
Proof.
  intros Hne. induction o as [|[k0 v0] o IH]; simpl.
  - apply String.eqb_neq in Hne. now rewrite Hne.
  - destruct (String.eqb k k0) eqn:E; simpl.
    + apply String.eqb_eq in E. subst k0.
      apply String.eqb_neq in Hne. now rewrite Hne.
    + now rewrite IH.
Qed.

(* ---------------------------------------------------------------- *)
(** *** The search statement writes to its argument *)

(** C10.  When [createSearchStatement] is called with a where map, the
    caller's map is written to: after the call its [id] key holds the
    [$in] sub-select over the [to_tsquery] matches, whatever [id] condition it
    held before, its other keys are as they were, and the statement is the
    one [createSelectStatement] builds for the map so updated. *)
Theorem createSearchStatement_writes_id (searchText : string)
    (where_ : Obj) (limit skip : option Z) (sort : option Sort)
    (group : option Group) (select fetchAssociations : option (list string))
    (autoFetchDepth : option nat) :
  exists whereMap,
    fst (createSearchStatement searchText (Some where_) limit skip sort
           group select fetchAssociations autoFetchDepth) = Some whereMap
    /\ get "id" whereMap
       = Some (VObj [("$in",
                      VBuilder
                        (mkSubQuery ["id"] (tableName self)
                           [("_search @@ to_tsquery(?)", [searchText])]))])
    /\ (forall k, k <> "id" -> get k whereMap = get k where_)
    /\ snd (createSearchStatement searchText (Some where_) limit skip sort
              group select fetchAssociations autoFetchDepth)
       = createSelectStatement (Some whereMap) limit skip sort group select
           fetchAssociations autoFetchDepth.
Proof.
  exists (set "id" (searchCondition searchText) where_).
  repeat split.
  - apply get_set_same.
  - intros k Hk. now apply get_set_other.
Qed.

Lemma forEach_fails_at {A S} (f : S -> A -> M S) (l1 l2 : list A) (a : A)
    (s : S) :
  (forall s, fails (f s a)) -> fails (forEach f (l1 ++ a :: l2) s).
Proof.
  intros Hf. rewrite forEach_app.
  destruct (forEach f l1 s) as [e|s1]; simpl.
  - now exists e.
  - destruct (Hf s1) as [e He]. rewrite He. now exists e.
Qed.

Lemma fails_bind {A B} (m : M A) (k : A -> M B) :
  fails m -> fails (bind m k).
Proof. intros [e ->]. now exists e. Qed.

Lemma fails_bind_all {A B} (m : M A) (k : A -> M B) :
  (forall a, fails (k a)) -> fails (bind m k).
Proof.
  intros Hk. destruct m as [e|a]; simpl; [now exists e | apply Hk].
Qed.

(* ---------------------------------------------------------------- *)
(** *** Increment and decrement directives *)






(* ---------------------------------------------------------------- *)
(** *** Operator objects in a where map *)

Lemma collect_app {A B} (f : A -> M (list B)) (l1 l2 : list A) :
  collect f (l1 ++ l2)
  = bind (collect f l1)
      (fun bs1 => bind (collect f l2) (fun bs2 => ret (bs1 ++ bs2)%list)).
Proof.
  induction l1 as [|a l1 IH]; simpl.
  - destruct (collect f l2); reflexivity.
  - destruct (f a) as [e|bs]; simpl; [reflexivity|].
    rewrite IH. destruct (collect f l1) as [e|bs1]; simpl; [reflexivity|].
    destruct (collect f l2) as [e|bs2]; simpl; [reflexivity|].
    now rewrite app_assoc.
Qed.

Lemma collect_fails_at {A B} (f : A -> M (list B)) (l1 l2 : list A) (a : A) :
  fails (f a) -> fails (collect f (l1 ++ a :: l2)).
Proof.
  intros [e He]. rewrite collect_app.
  destruct (collect f l1) as [e1|bs1]; simpl; [now exists e1|].
  rewrite He. simpl. now exists e.
Qed.





(* ---------------------------------------------------------------- *)
(** *** UPDATE and DELETE statements *)

Ltac limit_offset :=
  unfold addOffsetClause, addLimitClause, applied, positive;
  repeat match goal with
         | |- context [match ?n with Some _ => _ | None => _ end] =>
             destruct n
         end;
  repeat match goal with
         | |- context [(0 <? ?z)%Z] => destruct (0 <? z)%Z
         end;
  simpl.

Lemma returning_forEach (l : list (string * Property))
    (acc cols : list Column) :
  forEach returningEntry l acc = inr cols ->
  exists computed,
    cols = (acc ++ computed)%list
    /\ Forall2 returnedAs (filter returned (map snd l)) computed.
Proof.
  revert acc. induction l as [|[k p] l IH]; intros acc H; simpl in H.
  - injection H as <-. exists []. split; [now rewrite app_nil_r | constructor].
  - apply bind_inr in H as (acc1 & E1 & H).
    apply IH in H as (computed & -> & HF).
    unfold returningEntry in E1. simpl in E1.
    apply bind_inr in E1 as (s & Es & E1).
    simpl. unfold returned at 1. rewrite Es.
    destruct s as [template|].
    + destruct (isAggregate (options p)) eqn:Eagg; simpl in E1 |- *.
      * injection E1 as <-. eauto.
      * apply bind_inr in E1 as (sql & Esql & E1). injection E1 as <-.
        exists (ColRaw "(" sql (") as " ++ columnName p) :: computed).
        split; [unfold push; now rewrite <- app_assoc|].
        constructor; auto. exists template, sql. auto.
    + injection E1 as <-. eauto.
Qed.

Lemma returning_computed (l : list (string * Property))
    (acc cols : list Column) :
  forEach returningEntry l acc = inr cols ->
  exists computed,
    cols = (acc ++ computed)%list
    /\ Forall2 computedAs (filter isComputed (map snd l)) computed.
Proof.
  revert acc. induction l as [|[k p] l IH]; intros acc H; simpl in H.
  - injection H as <-. exists []. split; [now rewrite app_nil_r | constructor].
  - apply bind_inr in H as (acc1 & E1 & H).
    apply IH in H as (computed & -> & HF). clear IH.
    unfold returningEntry in E1. simpl in E1.
    apply bind_inr in E1 as (s & Es & E1).
    simpl. unfold isComputed at 1. unfold sqlishOf in Es.
    destruct (sqlish (options p)) as [t|] eqn:Et.
    + assert (s = Some t) as ->
        by (destruct (counting (options p)); now injection Es as <-).
      simpl. destruct (isAggregate (options p)); simpl in E1 |- *.
      * injection E1 as <-. eauto.
      * apply bind_inr in E1 as (sql & Esql & E1). injection E1 as <-.
        exists (ColRaw "(" sql (") as " ++ columnName p) :: computed).
        split; [unfold push; now rewrite <- app_assoc|].
        constructor; [|assumption]. exists t, sql. rewrite Et. auto.
    + destruct (counting (options p)) as [target|] eqn:Ec; simpl.
      * apply bind_inr in Es as (text & Etext & Es). injection Es as <-.
        destruct (isAggregate (options p)); simpl in E1 |- *.
        -- injection E1 as <-. eauto.
        -- apply bind_inr in E1 as (sql & Esql & E1). injection E1 as <-.
           exists (ColRaw "(" sql (") as " ++ columnName p) :: computed).
           split; [unfold push; now rewrite <- app_assoc|].
           constructor; [|assumption]. exists text, sql.
           rewrite Et, Ec. auto.
      * injection Es as <-. injection E1 as <-. eauto.
Qed.

(** The limit and the offset of the first query of a paginated statement. *)
Lemma limit_offset_applied (q : Query) (limit skip : option Z) :
  q_limit (addOffsetClause (addLimitClause q limit) skip)
  = (if positive limit then limit else q_limit q)
  /\ q_offset (addOffsetClause (addLimitClause q limit) skip)
     = (if positive skip then skip else q_offset q).
Proof.
  unfold addOffsetClause, addLimitClause, positive.
  destruct limit as [l|], skip as [k|]; simpl;
    repeat match goal with
           | |- context [(0 <? ?z)%Z] => destruct (0 <? z)%Z
           end;
    simpl; auto.
Qed.

(** C3, as amended.  [createDeleteStatement] and [createUpdateStatement]
    build a statement whenever there is a where map and the where map, the
    sort when it is applied, the computed columns and, for an update, the
    set map are accepted, and the statement they build is this.  It has a
    RETURNING list of [*] followed by one column for each property that has
    a sqlish template or counts an association and is not an aggregate, in
    property order.  When [limit] or [skip] is not zero or a sort is given,
    and the model has an [id] property, the statement is
    [WITH "t" AS (?) ?]: the first query is from the table with the where
    clauses and the sort, with the limit when it is positive and the offset
    when it is positive, and the second is the delete or update, whose only
    condition is that [id] is among the ids of [t].  Otherwise, so also
    for a limit and a skip of zero, the statement is the delete or update
    itself with the where clauses, and no sort, limit or offset. *)
Theorem paginated_mutations (whereMap setMap : option Obj)
    (limit skip : option Z) (sort : option Sort) :
  (forall st,
    createDeleteStatement whereMap limit skip sort = inr st ->
    exists m ws computed d,
      whereMap = Some m
      /\ whereClauses m = inr ws
      /\ outer st = Some d
      /\ q_from d = tableName self
      /\ q_delete d = true
      /\ q_returning d = Some (Col "*" :: computed)
      /\ Forall2 computedAs
           (filter isComputed (map snd (getAllProperties self))) computed
      /\ q_limit d = None /\ q_offset d = None /\ q_orders d = []
      /\ if (truthyNum limit || truthyNum skip || truthySort sort)
            && isSome (getProperty "id")
         then
           exists os w,
             sortClauses sort = inr os
             /\ st = Raw withT [w; d]
             /\ q_from w = tableName self
             /\ q_joins w = []
             /\ q_wheres w = ws
             /\ q_orders w = os
             /\ q_limit w = applied limit
             /\ q_offset w = applied skip
             /\ q_wheres d = [idInT]
         else st = Built d /\ q_wheres d = ws)
  /\ (forall st,
    createUpdateStatement whereMap setMap limit skip sort = inr st ->
    exists m ws computed d,
      whereMap = Some m
      /\ whereClauses m = inr ws
      /\ outer st = Some d
      /\ q_from d = tableName self
      /\ (exists u, addSetClause (from (tableName self)) setMap = inr u
                    /\ q_update d = q_update u
                    /\ q_counters d = q_counters u)
      /\ q_returning d = Some (Col "*" :: computed)
      /\ Forall2 computedAs
           (filter isComputed (map snd (getAllProperties self))) computed
      /\ q_limit d = None /\ q_offset d = None /\ q_orders d = []
      /\ if (truthyNum limit || truthyNum skip || truthySort sort)
            && isSome (getProperty "id")
         then
           exists os w,
             sortClauses sort = inr os
             /\ st = Raw withT [w; d]
             /\ q_from w = tableName self
             /\ q_joins w = []
             /\ q_wheres w = ws
             /\ q_orders w = os
             /\ q_limit w = applied limit
             /\ q_offset w = applied skip
             /\ q_wheres d = [idInT]
         else st = Built d /\ q_wheres d = ws)
  /\ (forall m ws os cols,
         whereMap = Some m ->
         whereClauses m = inr ws ->
         returningColumns = inr cols ->
         (paginated limit skip sort = true -> sortClauses sort = inr os) ->
         createDeleteStatement whereMap limit skip sort
         = inr (if paginated limit skip sort then
                  Raw withT
                    [addOffsetClause
                       (addLimitClause
                          (addOrders os
                             (addWheres ws (from (tableName self))))
                          limit) skip;
                     addWheres [idInT]
                       (returning cols (delete (from (tableName self))))]
                else
                  Built (addWheres ws
                           (returning cols
                              (delete (from (tableName self)))))))
  /\ (forall m ws os cols u,
         whereMap = Some m ->
         whereClauses m = inr ws ->
         returningColumns = inr cols ->
         addSetClause (from (tableName self)) setMap = inr u ->
         (paginated limit skip sort = true -> sortClauses sort = inr os) ->
         createUpdateStatement whereMap setMap limit skip sort
         = inr (if paginated limit skip sort then
                  Raw withT
                    [addWheres ws
                       (addOffsetClause
                          (addLimitClause
                             (addOrders os (from (tableName self))) limit)
                          skip);
                     addWheres [idInT] (returning cols u)]
                else Built (addWheres ws (returning cols u)))).
Proof.
  assert (Hret : forall q q',
             addReturningClause q = inr q' ->
             exists computed,
               q' = returning (Col "*" :: computed) q
               /\ Forall2 computedAs
                    (filter isComputed (map snd (getAllProperties self)))
                    computed).
  { intros q q' H. unfold addReturningClause in H.
    apply bind_inr in H as (cols & Ecols & H). injection H as <-.
    unfold returningColumns in Ecols.
    apply returning_computed in Ecols as (computed & -> & HF).
    exists computed. split; [reflexivity | exact HF]. }
  assert (Hwhere : forall q q' m,
             addWhereClause q m = inr q' ->
             exists ws, whereClauses m = inr ws /\ q' = addWheres ws q).
  { intros q q' m H. unfold addWhereClause in H.
    apply bind_inr in H as (ws & E & H). injection H as <-. eauto. }
  assert (Hsort : forall q q',
             addSortClause q sort = inr q' ->
             exists os, sortClauses sort = inr os /\ q' = addOrders os q).
  { intros q q' H. unfold addSortClause in H.
    apply bind_inr in H as (os & E & H). injection H as <-. eauto. }
  assert (Hopt : forall m, orTypeError "whereMap" whereMap = inr m ->
                           whereMap = Some m).
  { intros m H. destruct whereMap; [now injection H as -> | discriminate]. }
  split; [|split; [|split]].
  - intros st H. unfold createDeleteStatement in H.
    apply bind_inr in H as (d1 & E1 & H).
    apply Hret in E1 as (computed & -> & HF).
    fold (paginated limit skip sort).
    destruct (paginated limit skip sort).
    + apply bind_inr in H as (m & Em & H). apply Hopt in Em.
      apply bind_inr in H as (w1 & Ew & H).
      apply Hwhere in Ew as (ws & Ews & ->).
      apply bind_inr in H as (w2 & Es & H).
      apply Hsort in Es as (os & Eos & ->).
      injection H as <-.
      exists m, ws, computed. eexists. simpl outer.
      repeat (split; [reflexivity || assumption|]).
      exists os. eexists. split; [assumption|]. split; [reflexivity|].
      limit_offset; repeat split.
    + apply bind_inr in H as (m & Em & H). apply Hopt in Em.
      apply bind_inr in H as (d2 & Ew & H).
      apply Hwhere in Ew as (ws & Ews & ->).
      injection H as <-.
      exists m, ws, computed. eexists. simpl outer.
      repeat (split; [reflexivity || assumption|]).
      split; reflexivity.
  - intros st H. unfold createUpdateStatement in H.
    apply bind_inr in H as (u & Eu & H).
    apply bind_inr in H as (u2 & Eu2 & H).
    apply Hret in Eu2 as (computed & -> & HF).
    fold (paginated limit skip sort) in H |- *.
    assert (Hu : q_from u = tableName self /\ q_wheres u = []
                 /\ q_limit u = None /\ q_offset u = None
                 /\ q_orders u = []).
    { clear - Eu. unfold addSetClause in Eu.
      destruct setMap as [sm|]; [|injection Eu as <-; repeat split].
      apply bind_inr in Eu as (s & Es & Eu). injection Eu as <-. simpl.
      revert Es.
      apply forEach_inv
        with (P := fun s : Query * Obj =>
                     q_from (fst s) = tableName self
                     /\ q_wheres (fst s) = [] /\ q_limit (fst s) = None
                     /\ q_offset (fst s) = None /\ q_orders (fst s) = []);
        [|repeat split].
      intros s0 a s1 _ Hs Hstep. unfold addSetEntry in Hstep.
      destruct (getProperty (fst a)) as [p|]; [|discriminate].
      destruct (isAllowed p); [|now injection Hstep as <-].
      assert (Hobj : forall es,
                 bind (forEach (applySetTransformer (columnName p)) es
                         (fst s0))
                   (fun q => ret (q, snd s0)) = inr s1 ->
                 q_from (fst s1) = tableName self
                 /\ q_wheres (fst s1) = [] /\ q_limit (fst s1) = None
                 /\ q_offset (fst s1) = None /\ q_orders (fst s1) = []).
      { intros es Hes. apply bind_inr in Hes as (q' & Efe & Hes).
        injection Hes as <-. simpl. revert Efe.
        apply forEach_inv
          with (P := fun q : Query =>
                       q_from q = tableName self
                       /\ q_wheres q = [] /\ q_limit q = None
                       /\ q_offset q = None /\ q_orders q = []); auto.
        intros q0 b q1 _ Hq Hb. unfold applySetTransformer in Hb.
        destruct (setTransformers (fst b)) as [[make | [arity [|] | ]]|];
          try discriminate; injection Hb as <-; exact Hq. }
      destruct (snd a); simpl in Hstep;
        try (injection Hstep as <-; exact Hs);
        try (apply Hobj in Hstep; exact Hstep). }
    destruct Hu as (Hf & Hw & Hl & Ho & Hor).
    destruct (paginated limit skip sort).
    + apply bind_inr in H as (w1 & Es & H).
      apply Hsort in Es as (os & Eos & ->).
      apply bind_inr in H as (m & Em & H). apply Hopt in Em.
      apply bind_inr in H as (w2 & Ew & H).
      apply Hwhere in Ew as (ws & Ews & ->).
      injection H as <-.
      exists m, ws, computed. eexists. simpl outer.
      repeat (split; [reflexivity || assumption|]).
      split; [exists u; auto|].
      simpl. rewrite Hl, Ho, Hor, Hw.
      repeat (split; [reflexivity || assumption|]).
      exists os. eexists. split; [assumption|]. split; [reflexivity|].
      limit_offset; repeat split.
    + apply bind_inr in H as (m & Em & H). apply Hopt in Em.
      apply bind_inr in H as (u3 & Ew & H).
      apply Hwhere in Ew as (ws & Ews & ->).
      injection H as <-.
      exists m, ws, computed. eexists. simpl outer.
      repeat (split; [reflexivity || assumption|]).
      split; [exists u; auto|].
      simpl. rewrite Hl, Ho, Hor, Hw. repeat split; assumption.
  - intros m ws os cols -> Ews Ecols Hos. unfold createDeleteStatement.
    unfold addReturningClause. rewrite Ecols. simpl.
    destruct (paginated limit skip sort); simpl.
    + unfold addWhereClause. rewrite Ews. simpl.
      unfold addSortClause. now rewrite (Hos eq_refl).
    + unfold addWhereClause. now rewrite Ews.
  - intros m ws os cols u -> Ews Ecols Eu Hos. unfold createUpdateStatement.
    rewrite Eu. simpl.
    unfold addReturningClause. rewrite Ecols. simpl.
    destruct (paginated limit skip sort); simpl.
    + unfold addSortClause. rewrite (Hos eq_refl). simpl.
      unfold addWhereClause. now rewrite Ews.
    + unfold addWhereClause. now rewrite Ews.
Qed.

(* ---------------------------------------------------------------- *)
(** *** SELECT statements *)

Lemma untouched_refl (q : Query) : untouched q q.
Proof. unfold untouched. repeat split. Qed.

Lemma untouched_trans (q1 q2 q3 : Query) :
  untouched q1 q2 -> untouched q2 q3 -> untouched q1 q3.
Proof.
  intros (F1 & W1 & O1 & L1 & S1 & J1) (F2 & W2 & O2 & L2 & S2 & J2).
  unfold untouched. repeat split; congruence.
Qed.

Lemma untouched_column (c : Column) (q : Query) :
  untouched q (column c q).
Proof. unfold untouched. simpl. repeat split. Qed.

Lemma untouched_keeps (q q' : Query) : untouched q q' -> keeps q q'.
Proof.
  intros (F & W & O & L & S & J). unfold keeps. repeat split; auto.
  exists []. now rewrite app_nil_r.
Qed.

Lemma keeps_refl (q : Query) : keeps q q.
Proof. apply untouched_keeps, untouched_refl. Qed.

Lemma keeps_trans (q1 q2 q3 : Query) :
  keeps q1 q2 -> keeps q2 q3 -> keeps q1 q3.
Proof.
  intros (F1 & W1 & O1 & L1 & S1 & js1 & J1) (F2 & W2 & O2 & L2 & S2 & js2 & J2).
  unfold keeps. repeat split; try congruence.
  exists (js1 ++ js2)%list. rewrite J2, J1. now rewrite app_assoc.
Qed.

Lemma keeps_joins (js : list Join) (q : Query) : keeps q (addJoins js q).
Proof. unfold keeps. simpl. repeat split. now exists js. Qed.

Lemma forEach_rel {A} (R : Query -> Query -> Prop)
    (f : Query -> A -> M Query) (l : list A) :
  (forall q, R q q) ->
  (forall q1 q2 q3, R q1 q2 -> R q2 q3 -> R q1 q3) ->
  (forall q a q', In a l -> f q a = inr q' -> R q q') ->
  forall q q', forEach f l q = inr q' -> R q q'.
Proof.
  intros Hrefl Htrans Hf q q' H. revert H.
  apply forEach_inv with (P := R q); [|apply Hrefl].
  intros s a s' Hin Hs Hstep. eapply Htrans; eauto.
Qed.

Lemma sqlishColumn_untouched (q q' : Query) (p : Property) :
  sqlishColumn q p = inr q' -> untouched q q'.
Proof.
  unfold sqlishColumn. intros H.
  apply bind_inr in H as ([template|] & _ & H).
  - apply bind_inr in H as (sql & _ & H). injection H as <-.
    apply untouched_column.
  - injection H as <-. apply untouched_refl.
Qed.

Lemma addSelectColumnsForAssociation_untouched (q q' : Query)
    (associations : list Property) (select : option (list string)) :
  addSelectColumnsForAssociation q associations select = inr q' ->
  untouched q q'.
Proof.
  unfold addSelectColumnsForAssociation. intros H.
  apply bind_inr in H as (r & _ & H).
  apply bind_inr in H as (am & _ & H).
  revert H.
  apply forEach_rel with (R := untouched);
    [apply untouched_refl | apply untouched_trans|].
  intros q0 e q1 _ Hstep.
  match type of Hstep with
  | (if ?c then _ else _) = _ => destruct c
  end; [|injection Hstep as <-; apply untouched_refl].
  destruct (isAllowed (snd e)).
  - injection Hstep as <-. apply untouched_column.
  - apply bind_inr in Hstep as ([template|] & _ & Hstep).
    + apply bind_inr in Hstep as (sql & _ & Hstep). injection Hstep as <-.
      apply untouched_column.
    + injection Hstep as <-. apply untouched_refl.
Qed.

Lemma addJoinStatement_joins (q q' : Query) (associations : list Property) :
  addJoinStatement q associations = inr q' ->
  exists js, joinsFor associations = inr js /\ q' = addJoins js q.
Proof.
  unfold addJoinStatement. intros H.
  apply bind_inr in H as (js & E & H). injection H as <-. eauto.
Qed.

(** What [addAssociation] does to a query: more columns and more joins, the
    first of them the joins of the chain itself. *)
Lemma addAssociationFrom_joins (fuel : nat) :
  forall (q q' : Query) (associations : list Property)
         (select : option (list string)),
    addAssociationFrom fuel q associations select = inr q' ->
    keeps q q'
    /\ exists js rest,
         joinsFor associations = inr js
         /\ q_joins q' = (q_joins q ++ js ++ rest)%list.
Proof.
  induction fuel as [|fuel IH]; intros q q' associations select H;
    simpl in H;
    apply bind_inr in H as (q1 & E1 & H);
    apply bind_inr in H as (q2 & E2 & H);
    apply addSelectColumnsForAssociation_untouched in E1;
    apply addJoinStatement_joins in E2 as (js & Ejs & ->);
    assert (K2 : keeps q (addJoins js q1))
      by (eapply keeps_trans;
          [apply untouched_keeps; exact E1 | apply keeps_joins]);
    assert (J2 : q_joins (addJoins js q1) = (q_joins q ++ js)%list)
      by (destruct E1 as (_ & _ & _ & _ & _ & E1); simpl; now rewrite E1).
  - injection H as <-. split; [assumption|].
    exists js, []. split; [assumption|]. now rewrite app_nil_r.
  - apply bind_inr in H as (lastAssociation & _ & H).
    assert (K3 : keeps (addJoins js q1) q').
    { destruct (getAssociatedModel lastAssociation) as [an|];
        [|injection H as <-; apply keeps_refl].
      apply bind_inr in H as (am & _ & H). revert H.
      apply forEach_rel with (R := keeps);
        [apply keeps_refl | apply keeps_trans|].
      intros q0 e q3 _ Hstep.
      match type of Hstep with
      | (if ?c then _ else _) = _ => destruct c
      end; [|injection Hstep as <-; apply keeps_refl].
      now apply IH in Hstep. }
    split; [eapply keeps_trans; eauto|].
    destruct K3 as (_ & _ & _ & _ & _ & rest & J3).
    exists js, rest. split; [assumption|].
    rewrite J3, J2. now rewrite app_assoc.
Qed.

Lemma untouched_groupBy (c : string) (q : Query) : untouched q (groupBy c q).
Proof. unfold untouched. simpl. repeat split. Qed.

Lemma addGroupClause_untouched (q q' : Query) (group : option Group) :
  addGroupClause q group = inr q' -> untouched q q'.
Proof.
  unfold addGroupClause. intros H.
  destruct (truthyGroup group); [|injection H as <-; apply untouched_refl].
  apply bind_inr in H as (ns & _ & H). revert H.
  apply forEach_rel with (R := untouched);
    [apply untouched_refl | apply untouched_trans|].
  intros q0 n q1 _ Hstep.
  destruct (getProperty n); [|discriminate].
  injection Hstep as <-. apply untouched_groupBy.
Qed.

Lemma startWithQuery_untouched (sort : option Sort) (w : Query) :
  startWithQuery sort = inr w -> untouched (from (tableName self)) w.
Proof.
  unfold startWithQuery. intros H.
  destruct (truthySort sort).
  - destruct sort as [[s|m]|]; try discriminate.
    apply untouched_trans
      with (q2 := column (Col (tableName self ++ ".*"))
                    (from (tableName self)));
      [apply untouched_column|].
    revert H.
    apply forEach_rel with (R := untouched);
      [apply untouched_refl | apply untouched_trans|].
    intros q0 e q1 _ Hstep.
    apply bind_inr in Hstep as (p & _ & Hstep).
    now apply sqlishColumn_untouched in Hstep.
  - injection H as <-. apply untouched_column.
Qed.

Lemma selectEntries_untouched (group : option Group)
    (select : option (list string)) (l : list (string * Property))
    (q q' : Query) :
  forEach (selectEntry group select) l q = inr q' -> untouched q q'.
Proof.
  apply forEach_rel with (R := untouched);
    [apply untouched_refl | apply untouched_trans|].
  intros q0 e q1 _ Hstep. unfold selectEntry in Hstep.
  match type of Hstep with
  | (if ?c then _ else _) = _ => destruct c
  end; [|injection Hstep as <-; apply untouched_refl].
  destruct (isAllowed (snd e)).
  - injection Hstep as <-. apply untouched_column.
  - now apply sqlishColumn_untouched in Hstep.
Qed.

(** The loop over the associations in [createSelectStatement]: a fetched
    association is joined to the select query; one that is not fetched and is
    referenced in the where map is joined to the with query when there is
    one. *)
Lemma association_loop (whereMap : option Obj)
    (select fetchAssociations : option (list string))
    (autoFetchDepth : option nat) (l : list (string * Property)) :
  forall sq wq sq' wq',
    forEach (associationEntry whereMap select fetchAssociations
               autoFetchDepth) l (sq, wq) = inr (sq', wq') ->
    keeps sq sq'
    /\ (forall e, In e l -> fetched fetchAssociations (snd e) = true ->
                  exists js, joinsFor [snd e] = inr js
                             /\ incl js (q_joins sq'))
    /\ match wq with
       | None => wq' = None
       | Some w =>
           exists w' Js,
             wq' = Some w'
             /\ untouched (addJoins (concat Js) w) w'
             /\ Forall2 (fun e js => joinsFor [snd e] = inr js)
                  (filter (fun e => negb (fetched fetchAssociations (snd e))
                                    && referenced whereMap (snd e)) l) Js
       end.
Proof.
  induction l as [|e l IH]; intros sq wq sq' wq' H; simpl in H.
  - injection H as <- <-. split; [apply keeps_refl|].
    split; [intros e []|].
    destruct wq as [w|]; [|reflexivity].
    exists w, []. split; [reflexivity|]. split; [|constructor].
    unfold untouched. simpl. rewrite app_nil_r. repeat split.
  - apply bind_inr in H as ([sq1 wq1] & E1 & H).
    apply IH in H as (K & HF & HW). clear IH.
    unfold associationEntry in E1. fold (fetched fetchAssociations (snd e)) in E1.
    simpl filter.
    destruct (fetched fetchAssociations (snd e)) eqn:Ef.
    + apply bind_inr in E1 as (q1 & Ea & E1). injection E1 as <- <-.
      unfold addAssociation in Ea.
      apply addAssociationFrom_joins in Ea as (K1 & js & rest & Ejs & J1).
      split; [eapply keeps_trans; eauto|].
      split; [|exact HW].
      intros e' [<- | Hin] He'; [|auto].
      exists js. split; [assumption|].
      destruct K as (_ & _ & _ & _ & _ & more & J).
      rewrite J, J1. intros j Hj.
      apply in_or_app. left. apply in_or_app. right.
      apply in_or_app. now left.
    + apply bind_inr in E1 as (m & Em & E1).
      destruct whereMap as [m'|]; [|discriminate].
      injection Em as ->. simpl referenced. simpl negb. simpl andb.
      destruct (match get (name (snd e)) m with
                | Some v => truthy v
                | None => false
                end) eqn:Eref.
      * destruct wq as [w|].
        -- apply bind_inr in E1 as (w1 & Ej & E1). injection E1 as <- <-.
           apply addJoinStatement_joins in Ej as (js & Ejs & ->).
           split; [assumption|]. split.
           { intros e' [<- | Hin] He'; [congruence | auto]. }
           destruct HW as (w' & Js & -> & U & HF2).
           exists w', (js :: Js). split; [reflexivity|].
           split; [|constructor; assumption].
           destruct U as (F & W & O & L & S & J).
           unfold untouched. simpl in *. rewrite J.
           repeat split; auto. now rewrite app_assoc.
        -- apply bind_inr in E1 as (q1 & Ej & E1). injection E1 as <- <-.
           apply addJoinStatement_joins in Ej as (js & Ejs & ->).
           split; [eapply keeps_trans; [apply keeps_joins | exact K]|].
           split; [|exact HW].
           intros e' [<- | Hin] He'; [congruence | auto].
      * injection E1 as <- <-.
        split; [assumption|]. split; [|exact HW].
        intros e' [<- | Hin] He'; [congruence | auto].
Qed.

Lemma implicitSort_once (sort : option Sort) (group : option Group) :
  implicitSort (effectiveSort sort group) group = false.
Proof.
  unfold effectiveSort. destruct (implicitSort sort group) eqn:E.
  - unfold implicitSort. simpl.
    now rewrite andb_false_r.
  - exact E.
Qed.

Lemma falsy_not_positive (n : option Z) :
  truthyNum n = false -> positive n = false.
Proof.
  destruct n as [z|]; simpl; [|reflexivity].
  intros H. apply negb_false_iff in H. apply Z.eqb_eq in H. now subst.
Qed.

Lemma falsy_not_applied (q : Query) (n : option Z) :
  truthyNum n = false ->
  addLimitClause q n = q /\ addOffsetClause q n = q.
Proof.
  intros H. apply falsy_not_positive in H.
  destruct n as [z|]; simpl in *; [rewrite H|]; auto.
Qed.

(** The parts of a statement built by [createSelectStatement]. *)
Lemma select_anatomy (whereMap : option Obj) (limit skip : option Z)
    (sort : option Sort) (group : option Group)
    (select fetchAssociations : option (list string))
    (autoFetchDepth : option nat) (st : Statement) :
  createSelectStatement whereMap limit skip sort group select
    fetchAssociations autoFetchDepth = inr st ->
  exists s os ws,
    outer st = Some s
    /\ sortClauses (effectiveSort sort group) = inr os
    /\ match whereMap with
       | Some m => whereClauses m = inr ws
       | None => ws = []
       end
    /\ q_from s = tableName self
    /\ q_orders s = os
    /\ (forall e, In e (getAssociations self) ->
                  fetched fetchAssociations (snd e) = true ->
                  exists js, joinsFor [snd e] = inr js
                             /\ incl js (q_joins s))
    /\ if truthyNum limit || truthyNum skip then
         exists w Js,
           st = Raw ("WITH " ++ dq ++ tableName self ++ dq ++ " AS (?) ?")
                  [w; s]
           /\ q_from w = tableName self
           /\ q_wheres w = ws
           /\ q_orders w = os
           /\ q_limit w = applied limit
           /\ q_offset w = applied skip
           /\ Forall2 (fun e js => joinsFor [snd e] = inr js)
                (filter (fun e => negb (fetched fetchAssociations (snd e))
                                  && referenced whereMap (snd e))
                   (getAssociations self)) Js
           /\ q_joins w = concat Js
           /\ q_wheres s = [] /\ q_limit s = None /\ q_offset s = None
       else
         st = Built s
         /\ q_wheres s = ws /\ q_limit s = None /\ q_offset s = None.
Proof.
  intros H. unfold createSelectStatement in H.
  apply bind_inr in H as (wq0 & E0 & H).
  apply bind_inr in H as (sq1 & E1 & H).
  apply bind_inr in H as ([sq2 wq2] & E2 & H).
  simpl fst in H. simpl snd in H.
  apply bind_inr in H as (sq3 & E3 & H).
  apply bind_inr in H as (sq4 & E4 & H).
  apply selectEntries_untouched in E1.
  apply association_loop in E2 as (K2 & HF & HW).
  unfold addSortClause in E3.
  apply bind_inr in E3 as (os & Eos & E3). injection E3 as <-.
  apply addGroupClause_untouched in E4.
  destruct E1 as (F1 & W1 & O1 & L1 & S1 & J1). simpl in *.
  destruct K2 as (F2 & W2 & O2 & L2 & S2 & js2 & J2).
  destruct E4 as (F4 & W4 & O4 & L4 & S4 & J4). simpl in *.
  assert (Hw : forall q q',
             addWhereClauseOpt q whereMap = inr q' ->
             exists ws,
               match whereMap with
               | Some m => whereClauses m = inr ws
               | None => ws = []
               end /\ q' = addWheres ws q).
  { intros q q' Hq. unfold addWhereClauseOpt in Hq.
    destruct whereMap as [m|].
    - unfold addWhereClause in Hq.
      apply bind_inr in Hq as (ws & Ews & Hq). injection Hq as <-. eauto.
    - injection Hq as <-. exists []. split; [reflexivity|].
      destruct q. unfold addWheres. simpl. now rewrite app_nil_r. }
  assert (HF4 : forall e, In e (getAssociations self) ->
                          fetched fetchAssociations (snd e) = true ->
                          exists js, joinsFor [snd e] = inr js
                                     /\ incl js (q_joins sq4)).
  { intros e Hin He. destruct (HF e Hin He) as (js & Ejs & Hincl).
    exists js. split; [assumption|]. now rewrite J4. }
  destruct (truthyNum limit || truthyNum skip) eqn:Ecte.
  - apply bind_inr in E0 as (w0 & Ew0 & E0). injection E0 as <-.
    apply startWithQuery_untouched in Ew0.
    destruct Ew0 as (F0 & W0 & O0 & L0 & S0 & J0). simpl in *.
    destruct HW as (w2 & Js & -> & U & HJs).
    destruct U as (Fw & Ww & Ow & Lw & Sw & Jw). simpl in *.
    apply bind_inr in H as (w3 & Es & H).
    unfold addSortClause in Es. rewrite Eos in Es. simpl in Es.
    injection Es as <-.
    apply bind_inr in H as (w4 & Ew & H).
    apply Hw in Ew as (ws & Ews & ->).
    rewrite implicitSort_once in H. injection H as <-.
    exists sq4, os, ws. simpl outer.
    repeat (split; [reflexivity || assumption || congruence|]).
    split; [rewrite O4; simpl; rewrite O2, O1; reflexivity|].
    split; [assumption|].
    eexists. exists Js. split; [reflexivity|].
    limit_offset; simpl; rewrite ?Fw, ?Ww, ?Ow, ?Jw, ?F0, ?W0, ?O0, ?J0;
      simpl; repeat split; congruence.
  - injection E0 as <-. subst wq2.
    apply bind_inr in H as (sq5 & Ew & H).
    apply Hw in Ew as (ws & Ews & ->).
    apply orb_false_elim in Ecte as [El Es].
    rewrite (proj1 (falsy_not_applied (addWheres ws sq4) limit El)) in H.
    rewrite (proj2 (falsy_not_applied (addWheres ws sq4) skip Es)) in H.
    injection H as <-.
    exists (addWheres ws sq4), os, ws. simpl.
    repeat (split; [reflexivity || assumption || congruence|]).
    split; [rewrite O4; simpl; rewrite O2, O1; reflexivity|].
    split; [assumption|].
    repeat split; try congruence.
    rewrite W4. simpl. rewrite W2, W1. reflexivity.
Qed.

(** C1, as amended.  A statement built by [createSelectStatement] selects
    from the table and joins every fetched association.  When [limit] or
    [skip] is truthy, whether or not an association is joined, the statement
    is [WITH "<table>" AS (?) ?]: the first query is from the table with the
    where clauses, the sort, the limit and the offset (each when positive),
    and it joins the associations that are referenced in the where map and
    not fetched, and no other, so none at all when there is no such
    association; the second query, from the same name, is the one with the
    fetched associations, and has no where clause, limit or offset.  When
    neither is truthy the statement is the select query alone. *)
Theorem paginated_select (whereMap : option Obj) (limit skip : option Z)
    (sort : option Sort) (group : option Group)
    (select fetchAssociations : option (list string))
    (autoFetchDepth : option nat) (st : Statement) :
  createSelectStatement whereMap limit skip sort group select
    fetchAssociations autoFetchDepth = inr st ->
  exists s,
    outer st = Some s
    /\ q_from s = tableName self
    /\ (forall e, In e (getAssociations self) ->
                  fetched fetchAssociations (snd e) = true ->
                  exists js, joinsFor [snd e] = inr js
                             /\ incl js (q_joins s))
    /\ if truthyNum limit || truthyNum skip then
         exists w ws os Js,
           st = Raw ("WITH " ++ dq ++ tableName self ++ dq ++ " AS (?) ?")
                  [w; s]
           /\ q_from w = tableName self
           /\ match whereMap with
              | Some m => whereClauses m = inr ws
              | None => ws = []
              end
           /\ q_wheres w = ws
           /\ sortClauses (effectiveSort sort group) = inr os
           /\ q_orders w = os
           /\ q_limit w = applied limit
           /\ q_offset w = applied skip
           /\ Forall2 (fun e js => joinsFor [snd e] = inr js)
                (filter (fun e => negb (fetched fetchAssociations (snd e))
                                  && referenced whereMap (snd e))
                   (getAssociations self)) Js
           /\ q_joins w = concat Js
           /\ ((forall e, In e (getAssociations self) ->
                          referenced whereMap (snd e) = true ->
                          fetched fetchAssociations (snd e) = true) ->
               q_joins w = [])
           /\ q_wheres s = [] /\ q_limit s = None /\ q_offset s = None
       else st = Built s.
Proof.
  intros H.
  apply select_anatomy in H
    as (s & os & ws & Hout & Eos & Ews & Hfrom & Hord & HF & H).
  exists s. repeat (split; [assumption|]).
  destruct (truthyNum limit || truthyNum skip).
  - destruct H as (w & Js & -> & Fw & Ww & Ow & Lw & Sw & HJs & Jw & Hs).
    exists w, ws, os, Js.
    repeat (split; [reflexivity || assumption|]).
    split; [|exact Hs].
    intros Hall. rewrite Jw.
    assert (Hnil : filter (fun e => negb (fetched fetchAssociations (snd e))
                                    && referenced whereMap (snd e))
                     (getAssociations self) = []).
    { clear - Hall. induction (getAssociations self) as [|e l IH].
      - reflexivity.
      - simpl. destruct (referenced whereMap (snd e)) eqn:Er.
        + rewrite (Hall e (or_introl eq_refl) Er). simpl.
          apply IH. intros e' Hin. apply Hall. now right.
        + rewrite andb_false_r. apply IH. intros e' Hin. apply Hall.
          now right. }
    rewrite Hnil in HJs. inversion HJs. reflexivity.
  - now destruct H.
Qed.

(** C4, as amended.  In a statement built by [createSelectStatement], when
    the model has at least one association, joined or not, no sort and no
    group is given and the model has an [id] property, the select query is
    sorted by that property, ascending, and by nothing else; when the
    model has no association or no [id] property, or a sort or a group is
    given, the select query is sorted as the given sort says, and not at all
    when none is given. *)
Theorem implicit_sort_by_id (whereMap : option Obj) (limit skip : option Z)
    (sort : option Sort) (group : option Group)
    (select fetchAssociations : option (list string))
    (autoFetchDepth : option nat) (st : Statement) :
  createSelectStatement whereMap limit skip sort group select
    fetchAssociations autoFetchDepth = inr st ->
  exists s,
    outer st = Some s
    /\ (getAllAssociations self <> [] ->
        truthySort sort = false ->
        truthyGroup group = false ->
        forall idProperty,
          getProperty "id" = Some idProperty ->
          q_orders s
          = [(if isVirtual (options idProperty) then columnName idProperty
              else tableName self ++ "." ++ columnName idProperty,
              "ASC")])
    /\ (getAllAssociations self = [] \/ truthySort sort = true
        \/ truthyGroup group = true \/ getProperty "id" = None ->
        sortClauses sort = inr (q_orders s)
        /\ (truthySort sort = false -> q_orders s = [])).
Proof.
  intros H.
  apply select_anatomy in H
    as (s & os & ws & Hout & Eos & _ & _ & Hord & _ & _).
  exists s. split; [assumption|]. subst os. split.
  - intros Hassoc Hsort Hgroup idProperty Hid.
    unfold effectiveSort, implicitSort in Eos.
    rewrite Hsort, Hgroup, Hid in Eos.
    destruct (getAllAssociations self) as [|a l]; [congruence|].
    simpl in Eos. unfold sortClauses, collect, sortEntry in Eos.
    cbn [truthySort fst snd] in Eos. rewrite Hid in Eos.
    destruct (isVirtual (options idProperty)); simpl in Eos;
      now injection Eos as <-.
  - intros Hno.
    assert (E : implicitSort sort group = false).
    { unfold implicitSort.
      destruct Hno as [-> | [-> | [-> | ->]]]; simpl;
        rewrite ?andb_false_r; reflexivity. }
    unfold effectiveSort in Eos. rewrite E in Eos.
    split; [assumption|].
    intros Hsort. unfold sortClauses in Eos. rewrite Hsort in Eos.
    now injection Eos as <-.
Qed.

(* ---------------------------------------------------------------- *)
(** *** Unknown property names *)





Lemma in_keys_split {A} (k : string) (o : list (string * A)) :
  In k (keys o) -> exists before v after, o = (before ++ (k, v) :: after)%list.
Proof.
  induction o as [|[k' v'] o IH]; simpl; intros H; [contradiction|].
  destruct H as [-> | H].
  - exists [], v', o. reflexivity.
  - destruct (IH H) as (before & v & after & ->).
    exists ((k', v') :: before), v, after. reflexivity.
Qed.

Lemma whereEntry_unknown (k : string) (v : Value) :
  getProperty k = None -> k <> "$or" ->
  whereEntry (k, v) = inl (Err (notFoundInWhere k)).
Proof.
  intros Hk Hor. unfold whereEntry. simpl.
  apply String.eqb_neq in Hor. rewrite Hor.
  unfold whereProperty. now rewrite Hk.
Qed.

Lemma whereClauses_unknown (k : string) (whereMap : Obj) :
  getProperty k = None -> k <> "$or" -> In k (keys whereMap) ->
  fails (whereClauses whereMap).
Proof.
  intros Hk Hor Hin.
  apply in_keys_split in Hin as (before & v & after & ->).
  apply collect_fails_at. rewrite whereEntry_unknown by assumption.
  now eexists.
Qed.

Lemma addWhereClause_fails (q : Query) (whereMap : Obj) :
  fails (whereClauses whereMap) -> fails (addWhereClause q whereMap).
Proof. intros H. unfold addWhereClause. now apply fails_bind. Qed.

Lemma select_fails_on_where (whereMap : Obj) (limit skip : option Z)
    (sort : option Sort) (group : option Group)
    (select fetchAssociations : option (list string))
    (autoFetchDepth : option nat) :
  fails (whereClauses whereMap) ->
  fails (createSelectStatement (Some whereMap) limit skip sort group select
           fetchAssociations autoFetchDepth).
Proof.
  intros H. unfold createSelectStatement.
  apply fails_bind_all. intros wq0.
  apply fails_bind_all. intros sq1.
  apply fails_bind_all. intros [sq2 [w|]]; simpl.
  - apply fails_bind_all. intros sq3.
    apply fails_bind_all. intros sq4.
    apply fails_bind_all. intros w3.
    apply fails_bind. now apply addWhereClause_fails.
  - apply fails_bind_all. intros sq3.
    apply fails_bind_all. intros sq4.
    apply fails_bind. now apply addWhereClause_fails.
Qed.








(* ---------------------------------------------------------------- *)
(** *** ALTER TABLE and the properties it is given *)

Lemma store_length (h : Heap) (r : nat) (p : Property) :
  List.length (store h r p) = List.length h.
Proof.
  revert r. induction h as [|x h IH]; intros [|r]; simpl; auto.
Qed.

Lemma store_nth_same (h : Heap) (r : nat) (p q : Property) :
  nth_error h r = Some q -> nth_error (store h r p) r = Some p.
Proof.
  revert r. induction h as [|x h IH]; intros [|r]; simpl; intros H;
    try discriminate; auto.
Qed.

Lemma store_nth_other (h : Heap) (r i : nat) (p : Property) :
  i <> r -> nth_error (store h r p) i = nth_error h i.
Proof.
  revert r i. induction h as [|x h IH]; intros [|r] [|i]; simpl; intros H;
    auto; congruence.
Qed.

Lemma store_same (h : Heap) (r : nat) (p : Property) :
  nth_error h r = Some p -> store h r p = h.
Proof.
  revert r. induction h as [|x h IH]; intros [|r]; simpl; intros H;
    try discriminate.
  - now injection H as ->.
  - now rewrite IH.
Qed.

Lemma withClauses_same (p : Property) : withClauses (clauses p) p = p.
Proof. now destruct p. Qed.

Lemma splice1_kept (l : list string) : snd (splice1 l) = firstn 1 l.
Proof. now destruct l. Qed.

Lemma firstn_1_twice {A} (l : list A) : firstn 1 (firstn 1 l) = firstn 1 l.
Proof. now destruct l. Qed.

Lemma deref_inr (h : Heap) (r : nat) (p : Property) :
  deref h r = inr p -> nth_error h r = Some p.
Proof.
  unfold deref, orTypeError. destruct (nth_error h r); [|discriminate].
  now intros [= ->].
Qed.

(** The loops over the added and the removed properties read the heap. *)
Lemma alterAdded_heap (l : list nat) (s s' : list string * Heap) :
  forEach alterAdded l s = inr s' -> snd s' = snd s.
Proof.
  apply forEach_inv with (P := fun x => snd x = snd s); [|reflexivity].
  intros x r x' _ Hx H. unfold alterAdded in H.
  apply bind_inr in H as (p & _ & H).
  destruct (isAllowed p); injection H as <-; exact Hx.
Qed.

Lemma alterRemoved_heap (l : list nat) (s s' : list string * Heap) :
  forEach alterRemoved l s = inr s' -> snd s' = snd s.
Proof.
  apply forEach_inv with (P := fun x => snd x = snd s); [|reflexivity].
  intros x r x' _ Hx H. unfold alterRemoved in H.
  apply bind_inr in H as (p & _ & H).
  destruct (isAllowed p); injection H as <-; exact Hx.
Qed.

(** The loop over the changed properties: a storable property of the list
    keeps its first clause, and nothing else is written. *)
Lemma alterChanged_heap (l : list nat) :
  forall (acc acc' : list string) (h h' : Heap),
    forEach alterChanged l (acc, h) = inr (acc', h') ->
    List.length h' = List.length h
    /\ forall i p,
         nth_error h i = Some p ->
         exists p',
           nth_error h' i = Some p'
           /\ sameButClauses p p'
           /\ clauses p'
              = if existsb (Nat.eqb i) l && isAllowed p
                then firstn 1 (clauses p) else clauses p.
Proof.
  induction l as [|r l IH]; intros acc acc' h h' H; simpl in H.
  - injection H as <- <-. split; [reflexivity|].
    intros i p Hp. exists p. repeat split; [assumption|].
    apply withClauses_same.
  - apply bind_inr in H as ([acc1 h1] & E1 & H).
    apply IH in H as (Hlen & Hrest). clear IH.
    unfold alterChanged in E1. simpl in E1.
    apply bind_inr in E1 as (property & Ep & E1). apply deref_inr in Ep.
    destruct (isAllowed property) eqn:Ea.
    + injection E1 as <- <-. rewrite store_length in Hlen.
      split; [assumption|].
      intros i p Hp. simpl existsb.
      destruct (Nat.eqb_spec i r) as [-> | Hne].
      * rewrite Ep in Hp. injection Hp as <-.
        destruct (Hrest r (withClauses (snd (splice1 (clauses property)))
                             property)) as (p' & Hp' & Hs & Hc).
        { eapply store_nth_same; eauto. }
        exists p'. split; [assumption|]. split.
        -- clear - Hs. unfold sameButClauses, withClauses in *.
           destruct p', property. simpl in *. inversion Hs. reflexivity.
        -- rewrite Hc. simpl. rewrite Ea, splice1_kept.
           destruct (clauses property); now destruct (existsb (Nat.eqb r) l).
      * destruct (Hrest i p) as (p' & Hp' & Hs & Hc).
        { rewrite store_nth_other; assumption. }
        exists p'. repeat split; assumption.
    + injection E1 as <- <-. split; [assumption|].
      intros i p Hp. destruct (Hrest i p Hp) as (p' & Hp' & Hs & Hc).
      exists p'. repeat split; try assumption.
      rewrite Hc. simpl.
      destruct (Nat.eqb_spec i r) as [-> | Hne]; [|reflexivity].
      rewrite Ep in Hp. injection Hp as <-. rewrite Ea.
      now rewrite !andb_false_r.
Qed.

(** X1.  [alterStatement] writes to the clauses of the storable properties of
    the changed set, and to nothing else: the heap keeps its size, a property
    outside the changed set is as it was, and a property of the heap differs
    from what it was at most in its clauses, which are then cut down to the
    first. *)
Theorem alterStatement_frame (h h' : Heap)
    (added removed changed : option (list nat)) (st : Statement) :
  alterStatement h added removed changed = inr (st, h') ->
  List.length h' = List.length h
  /\ (forall i, ~ In i (orEmpty changed) -> nth_error h' i = nth_error h i)
  /\ (forall i p,
         nth_error h i = Some p ->
         exists p',
           nth_error h' i = Some p'
           /\ sameButClauses p p'
           /\ (clauses p' = clauses p
               \/ (In i (orEmpty changed) /\ isAllowed p = true
                   /\ clauses p' = firstn 1 (clauses p)))).
Proof.
  unfold alterStatement. intros H.
  apply bind_inr in H as ([a1 h1] & E1 & H).
  apply bind_inr in H as ([a2 h2] & E2 & H).
  apply bind_inr in H as ([a3 h3] & E3 & H).
  injection H as _ <-.
  apply alterAdded_heap in E1. apply alterRemoved_heap in E2.
  simpl in E1, E2. subst h2 h1.
  apply alterChanged_heap in E3 as (Hlen & Hall).
  split; [assumption|]. split.
  - intros i Hi.
    destruct (nth_error h i) as [p|] eqn:Hp.
    + destruct (Hall i p Hp) as (p' & Hp' & Hs & Hc).
      rewrite Hp'. f_equal.
      assert (E : existsb (Nat.eqb i) (orEmpty changed) = false).
      { apply not_true_is_false. intros Hex.
        apply existsb_exists in Hex as (x & Hx & Hix).
        apply Nat.eqb_eq in Hix. now subst x. }
      rewrite E in Hc. simpl in Hc. unfold sameButClauses in Hs.
      rewrite <- Hc in Hs. now rewrite withClauses_same in Hs.
    + apply nth_error_None in Hp. apply nth_error_None. now rewrite Hlen.
  - intros i p Hp. destruct (Hall i p Hp) as (p' & Hp' & Hs & Hc).
    exists p'. repeat split; try assumption.
    destruct (existsb (Nat.eqb i) (orEmpty changed)) eqn:Ex;
      [|left; exact Hc].
    destruct (isAllowed p) eqn:Ea; [|left; exact Hc].
    right. repeat split; try assumption.
    apply existsb_exists in Ex as (x & Hx & Hix).
    apply Nat.eqb_eq in Hix. now subst x.
Qed.

Lemma alterAdded_valid (l : list nat) :
  forall (acc : list string) (h : Heap),
    (exists s', forEach alterAdded l (acc, h) = inr s')
    <-> (forall r, In r l -> nth_error h r <> None).
Proof.
  induction l as [|r l IH]; intros acc h; simpl.
  - split; [intros _ r [] | eauto].
  - unfold alterAdded at 1, deref, orTypeError. simpl.
    destruct (nth_error h r) as [p|] eqn:Ep; simpl.
    + destruct (isAllowed p); simpl; rewrite IH;
        (split; [intros H x [<- | Hx]; [congruence | auto] | auto]).
    + split; [intros [s' H]; discriminate|].
      intros H. exfalso. apply (H r); [now left | assumption].
Qed.

Lemma alterRemoved_valid (l : list nat) :
  forall (acc : list string) (h : Heap),
    (exists s', forEach alterRemoved l (acc, h) = inr s')
    <-> (forall r, In r l -> nth_error h r <> None).
Proof.
  induction l as [|r l IH]; intros acc h; simpl.
  - split; [intros _ r [] | eauto].
  - unfold alterRemoved at 1, deref, orTypeError. simpl.
    destruct (nth_error h r) as [p|] eqn:Ep; simpl.
    + destruct (isAllowed p); simpl; rewrite IH;
        (split; [intros H x [<- | Hx]; [congruence | auto] | auto]).
    + split; [intros [s' H]; discriminate|].
      intros H. exfalso. apply (H r); [now left | assumption].
Qed.

Lemma alterChanged_valid (l : list nat) :
  forall (acc : list string) (h : Heap) (s' : list string * Heap),
    forEach alterChanged l (acc, h) = inr s' ->
    forall r, In r l -> nth_error h r <> None.
Proof.
  induction l as [|r l IH]; intros acc h s' H x Hx; simpl in *;
    [contradiction|].
  apply bind_inr in H as ([acc1 h1] & E1 & H).
  unfold alterChanged in E1. simpl in E1.
  apply bind_inr in E1 as (p & Ep & E1). apply deref_inr in Ep.
  destruct Hx as [<- | Hx]; [congruence|].
  pose proof (IH _ _ _ H x Hx) as Hv.
  destruct (isAllowed p); injection E1 as <- <-; [|assumption].
  intros Hn. apply Hv. apply nth_error_None. rewrite store_length.
  now apply nth_error_None.
Qed.

Lemma alterChanged_settled (l : list nat) :
  forall (acc : list string) (h : Heap),
    (forall r, In r l -> nth_error h r <> None) ->
    (forall r p, In r l -> nth_error h r = Some p -> isAllowed p = true ->
                 firstn 1 (clauses p) = clauses p) ->
    exists acc', forEach alterChanged l (acc, h) = inr (acc', h).
Proof.
  induction l as [|r l IH]; intros acc h Hv Hs; simpl; [now exists acc|].
  unfold alterChanged at 1, deref, orTypeError. simpl.
  destruct (nth_error h r) as [p|] eqn:Ep;
    [|exfalso; apply (Hv r); [now left | assumption]]. simpl.
  destruct (isAllowed p) eqn:Ea; simpl.
  - assert (Hk : store h r (withClauses (snd (splice1 (clauses p))) p) = h).
    { rewrite splice1_kept, (Hs r p (or_introl eq_refl) Ep Ea).
      rewrite withClauses_same. now apply store_same. }
    rewrite Hk.
    apply IH; [intros x Hx; apply Hv; now right|].
    intros x q Hx. apply Hs. now right.
  - apply IH; [intros x Hx; apply Hv; now right|].
    intros x q Hx. apply Hs. now right.
Qed.

(** X2.  After a call of [alterStatement] that returns, the same call on the
    properties as the first call left them returns too and writes nothing: the
    clauses of a changed property are cut once. *)
Theorem alterStatement_settles (h h' : Heap)
    (added removed changed : option (list nat)) (st : Statement) :
  alterStatement h added removed changed = inr (st, h') ->
  exists st', alterStatement h' added removed changed = inr (st', h').
Proof.
  intros H. pose proof H as H0. unfold alterStatement in H.
  apply bind_inr in H as ([a1 h1] & E1 & H).
  apply bind_inr in H as ([a2 h2] & E2 & H).
  apply bind_inr in H as ([a3 h3] & E3 & H).
  injection H as _ <-.
  pose proof (alterAdded_heap _ _ E1) as F1.
  pose proof (alterRemoved_heap _ _ E2) as F2.
  simpl in F1, F2. subst h2 h1.
  pose proof (alterChanged_heap _ _ _ E3) as (Hlen & Hall).
  assert (Hvalid : forall l, (forall r, In r l -> nth_error h r <> None) ->
                             forall r, In r l -> nth_error h3 r <> None).
  { intros l Hl r Hr Hn. apply (Hl r Hr). apply nth_error_None.
    rewrite <- Hlen. now apply nth_error_None. }
  assert (V1 : forall r, In r (orEmpty added) -> nth_error h3 r <> None).
  { apply Hvalid. apply (alterAdded_valid (orEmpty added) [] h). eauto. }
  assert (V2 : forall r, In r (orEmpty removed) -> nth_error h3 r <> None).
  { apply Hvalid. apply (alterRemoved_valid (orEmpty removed) a1 h). eauto. }
  assert (V3 : forall r, In r (orEmpty changed) -> nth_error h3 r <> None).
  { apply Hvalid. eapply alterChanged_valid; eauto. }
  apply (alterAdded_valid (orEmpty added) [] h3) in V1 as ([b1 k1] & B1).
  pose proof (alterAdded_heap _ _ B1) as G1. simpl in G1. subst k1.
  apply (alterRemoved_valid (orEmpty removed) b1 h3) in V2 as ([b2 k2] & B2).
  pose proof (alterRemoved_heap _ _ B2) as G2. simpl in G2. subst k2.
  destruct (@alterChanged_settled (orEmpty changed) b2 h3 V3) as (b3 & B3).
  { intros r p' Hr Hp' Ha.
    destruct (nth_error h r) as [p|] eqn:Hp.
    - destruct (Hall r p Hp) as (q & Hq & Hs & Hc).
      rewrite Hp' in Hq. injection Hq as <-.
      assert (Hap : isAllowed p = true).
      { unfold sameButClauses in Hs. rewrite <- Hs. exact Ha. }
      assert (Hex : existsb (Nat.eqb r) (orEmpty changed) = true).
      { apply existsb_exists. exists r. split; [assumption|].
        apply Nat.eqb_refl. }
      rewrite Hex, Hap in Hc. simpl in Hc. rewrite Hc.
      apply firstn_1_twice.
    - exfalso. apply nth_error_None in Hp. rewrite <- Hlen in Hp.
      apply nth_error_None in Hp. congruence. }
  unfold alterStatement. rewrite B1. simpl. rewrite B2. simpl.
  rewrite B3. simpl. eauto.
Qed.

(* ---------------------------------------------------------------- *)
(** *** What INSERT and UPDATE assign *)

Lemma get_set (c k : string) {A} (v : A) (o : list (string * A)) :
  get c (set k v o) = if (c =? k)%string then Some v else get c o.
Proof.
  destruct (String.eqb_spec c k) as [-> | Hne].
  - apply get_set_same.
  - now apply get_set_other.
Qed.

Lemma get_in_keys {A} (c : string) (o : list (string * A)) :
  In c (keys o) <-> exists v, get c o = Some v.
Proof.
  induction o as [|[k v] o IH]; simpl.
  - split; [intros [] | intros [v H]; discriminate].
  - destruct (String.eqb_spec c k) as [-> | Hne].
    + split; eauto.
    + rewrite <- IH. split; [intros [E | H]; [congruence | exact H] | auto].
Qed.

Lemma insert_loop (setMap : Obj) :
  forall acc : Obj,
    (forall k, In k (keys setMap) -> getProperty k <> None) ->
    exists insertMap,
      forEach addInsertEntry setMap acc = inr insertMap
      /\ (forall c v',
             get c insertMap = Some v' ->
             get c acc = Some v'
             \/ exists k v p,
                  In (k, v) setMap /\ getProperty k = Some p
                  /\ isAllowed p = true /\ columnName p = c
                  /\ v' = toQueryValue v)
      /\ (forall c, In c (keys acc) -> In c (keys insertMap))
      /\ (forall k v p,
             In (k, v) setMap -> getProperty k = Some p ->
             isAllowed p = true -> In (columnName p) (keys insertMap)).
Proof.
  induction setMap as [|[k v] m IH]; intros acc Hk; simpl.
  - exists acc. repeat split; auto. intros k v p [].
  - unfold addInsertEntry at 1. simpl.
    destruct (getProperty k) as [p|] eqn:Ep;
      [|exfalso; apply (Hk k); [now left | assumption]].
    assert (Hm : forall k', In k' (keys m) -> getProperty k' <> None)
      by (intros k' Hk'; apply Hk; now right).
    destruct (isAllowed p) eqn:Ea; simpl.
    + destruct (IH (set (columnName p) (toQueryValue v) acc) Hm)
        as (im & E & Hget & Hkeys & Hall).
      exists im. split; [assumption|]. repeat split.
      * intros c v' Hc. destruct (Hget c v' Hc) as [Hs | (k1 & v1 & p1 & H1)].
        -- rewrite get_set in Hs.
           destruct (String.eqb_spec c (columnName p)) as [-> | Hne];
             [|now left].
           injection Hs as <-. right. exists k, v, p.
           split; [now left|]. repeat split; assumption.
        -- right. exists k1, v1, p1.
           destruct H1 as (Hin & H1). split; [now right | exact H1].
      * intros c Hc. apply Hkeys. apply get_in_keys. rewrite get_set.
        destruct (c =? columnName p)%string; [eauto|].
        now apply get_in_keys.
      * intros k1 v1 p1 [[= <- <-] | Hin] Hp1 Ha1.
        -- rewrite Ep in Hp1. injection Hp1 as <-.
           apply Hkeys. apply get_in_keys. rewrite get_set.
           rewrite String.eqb_refl. eauto.
        -- eapply Hall; eauto.
    + destruct (IH acc Hm) as (im & E & Hget & Hkeys & Hall).
      exists im. split; [assumption|]. repeat split; auto.
      * intros c v' Hc. destruct (Hget c v' Hc) as [Hs | (k1 & v1 & p1 & H1)];
          [now left|].
        right. exists k1, v1, p1.
        destruct H1 as (Hin & H1). split; [now right | exact H1].
      * intros k1 v1 p1 [[= <- <-] | Hin] Hp1 Ha1.
        -- rewrite Ep in Hp1. injection Hp1 as <-. congruence.
        -- eapply Hall; eauto.
Qed.

(** X3.  [addInsertClause] on a set map of known property names returns, makes
    one [insert] call and no other: the map it inserts has the columns of the
    storable properties named in the set map and no other column, and each
    value is the value given, converted by [toQueryValue] when it has that
    method.  A directive object is a value like another. *)
Theorem insert_storable_columns (setMap : Obj) (q : Query) :
  (forall k, In k (keys setMap) -> getProperty k <> None) ->
  exists insertMap,
    addInsertClause q setMap = inr (insert insertMap q)
    /\ (forall c v',
           get c insertMap = Some v' ->
           exists k v p,
             In (k, v) setMap /\ getProperty k = Some p
             /\ isAllowed p = true /\ columnName p = c
             /\ v' = toQueryValue v)
    /\ (forall k v p,
           In (k, v) setMap -> getProperty k = Some p ->
           isAllowed p = true -> In (columnName p) (keys insertMap)).
Proof.
  intros Hk.
  destruct (insert_loop setMap [] Hk) as (im & E & Hget & _ & Hall).
  exists im. unfold addInsertClause. rewrite E. simpl.
  repeat split; auto.
  intros c v' Hc. destruct (Hget c v' Hc) as [Hs | H]; [discriminate | exact H].
Qed.

Lemma transformers_counters (col : string) (es : Obj) (q q' : Query) :
  forEach (applySetTransformer col) es q = inr q' ->
  forall c,
    In c (q_counters q') ->
    In c (q_counters q)
    \/ exists n, c = Increment col n \/ c = Decrement col n.
Proof.
  intros H.
  refine (@forEach_inv _ _
            (fun x => forall c, In c (q_counters x) ->
               In c (q_counters q)
               \/ exists n, c = Increment col n \/ c = Decrement col n)
            _ _ _ q q' _ H); [|auto].
  intros s e s' _ Hs Hstep c Hc. unfold applySetTransformer in Hstep.
  unfold setTransformers in Hstep.
  destruct (fst e =? "$inc")%string.
  - injection Hstep as <-. simpl in Hc.
    apply in_app_or in Hc as [Hc | [<- | []]]; [auto | right; eauto].
  - destruct (fst e =? "$decr")%string.
    + injection Hstep as <-. simpl in Hc.
      apply in_app_or in Hc as [Hc | [<- | []]]; [auto | right; eauto].
    + destruct (inherited (fst e)) as [[arity [|]|]|]; simpl in Hstep;
        try discriminate.
      injection Hstep as <-. auto.
Qed.

Lemma set_loop (setMap : Obj) :
  forall (q q' : Query) (acc updateMap : Obj),
    forEach addSetEntry setMap (q, acc) = inr (q', updateMap) ->
    (forall c v',
        get c updateMap = Some v' ->
        get c acc = Some v'
        \/ exists k v p,
             In (k, v) setMap /\ getProperty k = Some p
             /\ isAllowed p = true /\ columnName p = c
             /\ isDirective v = false /\ v' = toQueryValue v)
    /\ (forall c, In c (keys acc) -> In c (keys updateMap))
    /\ (forall k v p,
           In (k, v) setMap -> getProperty k = Some p ->
           isAllowed p = true -> isDirective v = false ->
           In (columnName p) (keys updateMap))
    /\ (forall c,
           In c (q_counters q') ->
           In c (q_counters q)
           \/ exists k v p n,
                In (k, v) setMap /\ getProperty k = Some p
                /\ isAllowed p = true /\ isDirective v = true
                /\ (c = Increment (columnName p) n
                    \/ c = Decrement (columnName p) n)).
Proof.
  induction setMap as [|[k v] m IH]; intros q q' acc um H; simpl in H.
  - injection H as <- <-. repeat split; auto. intros k v p [].
  - apply bind_inr in H as ([q1 acc1] & E1 & H).
    apply IH in H as (Hget & Hkeys & Hall & Hcnt). clear IH.
    unfold addSetEntry in E1. simpl in E1.
    destruct (getProperty k) as [p|] eqn:Ep; [|discriminate].
    assert (Hlater :
              forall c v',
                (exists k0 v0 p0,
                    In (k0, v0) m /\ getProperty k0 = Some p0
                    /\ isAllowed p0 = true /\ columnName p0 = c
                    /\ isDirective v0 = false /\ v' = toQueryValue v0) ->
                exists k0 v0 p0,
                  In (k0, v0) ((k, v) :: m) /\ getProperty k0 = Some p0
                  /\ isAllowed p0 = true /\ columnName p0 = c
                  /\ isDirective v0 = false /\ v' = toQueryValue v0).
    { intros c v' (k0 & v0 & p0 & Hin & Hrest). exists k0, v0, p0.
      split; [now right | exact Hrest]. }
    assert (Hcnt' :
              forall c,
                (exists k0 v0 p0 n,
                    In (k0, v0) m /\ getProperty k0 = Some p0
                    /\ isAllowed p0 = true /\ isDirective v0 = true
                    /\ (c = Increment (columnName p0) n
                        \/ c = Decrement (columnName p0) n)) ->
                exists k0 v0 p0 n,
                  In (k0, v0) ((k, v) :: m) /\ getProperty k0 = Some p0
                  /\ isAllowed p0 = true /\ isDirective v0 = true
                  /\ (c = Increment (columnName p0) n
                      \/ c = Decrement (columnName p0) n)).
    { intros c (k0 & v0 & p0 & n & Hin & Hrest). exists k0, v0, p0, n.
      split; [now right | exact Hrest]. }
    destruct (isAllowed p) eqn:Ea.
    + assert (Hassign :
                isDirective v = false ->
                (q1, acc1) = (q, set (columnName p) (toQueryValue v) acc) ->
                (forall c v',
                    get c um = Some v' ->
                    get c acc = Some v'
                    \/ exists k0 v0 p0,
                         In (k0, v0) ((k, v) :: m) /\ getProperty k0 = Some p0
                         /\ isAllowed p0 = true /\ columnName p0 = c
                         /\ isDirective v0 = false /\ v' = toQueryValue v0)
                /\ (forall c, In c (keys acc) -> In c (keys um))
                /\ (forall k0 v0 p0,
                       In (k0, v0) ((k, v) :: m) -> getProperty k0 = Some p0 ->
                       isAllowed p0 = true -> isDirective v0 = false ->
                       In (columnName p0) (keys um))
                /\ (forall c,
                       In c (q_counters q') ->
                       In c (q_counters q)
                       \/ exists k0 v0 p0 n,
                            In (k0, v0) ((k, v) :: m)
                            /\ getProperty k0 = Some p0
                            /\ isAllowed p0 = true /\ isDirective v0 = true
                            /\ (c = Increment (columnName p0) n
                                \/ c = Decrement (columnName p0) n))).
      { intros Hd [= -> ->]. repeat split.
        - intros c v' Hc. destruct (Hget c v' Hc) as [Hs | Hs]; [|auto].
          rewrite get_set in Hs.
          destruct (String.eqb_spec c (columnName p)) as [-> | Hne];
            [|now left].
          injection Hs as <-. right. exists k, v, p.
          split; [now left|]. repeat split; assumption.
        - intros c Hc. apply Hkeys. apply get_in_keys. rewrite get_set.
          destruct (c =? columnName p)%string; [eauto|].
          now apply get_in_keys.
        - intros k0 v0 p0 [[= <- <-] | Hin] Hp0 Ha0 Hd0.
          + rewrite Ep in Hp0. injection Hp0 as <-.
            apply Hkeys. apply get_in_keys. rewrite get_set.
            rewrite String.eqb_refl. eauto.
          + eapply Hall; eauto.
        - intros c Hc. destruct (Hcnt c Hc) as [Hq | Hq]; auto. }
      assert (Hdirective :
                forall es,
                  isDirective v = true ->
                  bind (forEach (applySetTransformer (columnName p)) es q)
                    (fun q2 => ret (q2, acc)) = inr (q1, acc1) ->
                  (forall c v',
                      get c um = Some v' ->
                      get c acc = Some v'
                      \/ exists k0 v0 p0,
                           In (k0, v0) ((k, v) :: m)
                           /\ getProperty k0 = Some p0
                           /\ isAllowed p0 = true /\ columnName p0 = c
                           /\ isDirective v0 = false
                           /\ v' = toQueryValue v0)
                  /\ (forall c, In c (keys acc) -> In c (keys um))
                  /\ (forall k0 v0 p0,
                         In (k0, v0) ((k, v) :: m) ->
                         getProperty k0 = Some p0 ->
                         isAllowed p0 = true -> isDirective v0 = false ->
                         In (columnName p0) (keys um))
                  /\ (forall c,
                         In c (q_counters q') ->
                         In c (q_counters q)
                         \/ exists k0 v0 p0 n,
                              In (k0, v0) ((k, v) :: m)
                              /\ getProperty k0 = Some p0
                              /\ isAllowed p0 = true
                              /\ isDirective v0 = true
                              /\ (c = Increment (columnName p0) n
                                  \/ c = Decrement (columnName p0) n))).
      { intros es Hd E. apply bind_inr in E as (q2 & E2 & E).
        injection E as <- <-. repeat split.
        - intros c v' Hc. destruct (Hget c v' Hc); auto.
        - assumption.
        - intros k0 v0 p0 [[= <- <-] | Hin] Hp0 Ha0 Hd0;
            [congruence | eapply Hall; eauto].
        - intros c Hc. destruct (Hcnt c Hc) as [Hq | Hq]; [|auto].
          destruct (@transformers_counters _ _ _ _ E2 c Hq) as [Hq0 | (n & Hn)];
            [auto|].
          right. exists k, v, p, n. split; [now left|].
          repeat split; assumption. }
      destruct v; simpl in E1;
        try (apply Hassign; [reflexivity | now injection E1 as <- <-]);
        try (eapply Hdirective; [reflexivity | exact E1]).
    + injection E1 as <- <-. repeat split; auto.
      * intros c v' Hc. destruct (Hget c v' Hc); auto.
      * intros k0 v0 p0 [[= <- <-] | Hin] Hp0 Ha0 Hd0.
        -- rewrite Ep in Hp0. injection Hp0 as <-. congruence.
        -- eapply Hall; eauto.
      * intros c Hc. destruct (Hcnt c Hc) as [Hq | Hq]; auto.
Qed.

(** X4.  In the query [addSetClause] returns for a set map, the map given to
    [update] has a column only for an entry of the set map on a storable
    property whose value is not a directive object, with the value given
    (converted by [toQueryValue] when it has that method), and it has the
    column of every such entry; an increment or decrement that was not on the
    query before comes from a directive object on a storable property and is
    on the column of that property. *)
Theorem update_assignments (setMap : Obj) (q q' : Query) :
  addSetClause q (Some setMap) = inr q' ->
  exists updateMap,
    q_update q' = Some updateMap
    /\ (forall c v',
           get c updateMap = Some v' ->
           exists k v p,
             In (k, v) setMap /\ getProperty k = Some p
             /\ isAllowed p = true /\ columnName p = c
             /\ isDirective v = false /\ v' = toQueryValue v)
    /\ (forall k v p,
           In (k, v) setMap -> getProperty k = Some p ->
           isAllowed p = true -> isDirective v = false ->
           In (columnName p) (keys updateMap))
    /\ (forall c,
           In c (q_counters q') ->
           In c (q_counters q)
           \/ exists k v p n,
                In (k, v) setMap /\ getProperty k = Some p
                /\ isAllowed p = true /\ isDirective v = true
                /\ (c = Increment (columnName p) n
                    \/ c = Decrement (columnName p) n)).
Proof.
  unfold addSetClause. intros H.
  apply bind_inr in H as ([q1 um] & E & H). injection H as <-.
  apply set_loop in E as (Hget & _ & Hall & Hcnt).
  exists um. simpl. repeat split; auto.
  intros c v' Hc. destruct (Hget c v' Hc) as [Hs | Hs];
    [discriminate | exact Hs].
Qed.

(** X5.  A set map whose entries are all on known properties that are not
    storable assigns nothing and fails on nothing, whatever the values:
    [update] gets an empty map. *)
Theorem set_skips_non_storable (setMap : Obj) (q : Query) :
  (forall k, In k (keys setMap) ->
             exists p, getProperty k = Some p /\ isAllowed p = false) ->
  addSetClause q (Some setMap) = inr (update [] q).
Proof.
  intros H. unfold addSetClause.
  assert (E : forall st, forEach addSetEntry setMap st = inr st).
  { induction setMap as [|[k v] m IH]; intros st; simpl; [reflexivity|].
    unfold addSetEntry at 1. simpl.
    destruct (H k (or_introl eq_refl)) as (p & -> & ->). simpl.
    apply IH. intros k' Hk'. apply H. now right. }
  now rewrite E.
Qed.

(* ---------------------------------------------------------------- *)
(** *** COUNT statements *)

(** X6.  [createCountStatement] with a property name that is not the empty
    string builds a query exactly when the name is a key of the model's own
    property map and the where map, if any, is accepted: the query is from the
    table, counts the column of that property, storable or not, and has the
    where clauses and nothing else.  Without a property name it counts [*]. *)
Theorem count_statement (propertyName : option string)
    (whereMap : option Obj) (q : Query) :
  propertyName <> Some EmptyString ->
  (createCountStatement propertyName whereMap = inr q
   <-> exists c ws,
         match propertyName with
         | Some n =>
             exists p, get n (getAllProperties self) = Some p
                       /\ c = columnName p
         | None => c = "*"
         end
         /\ match whereMap with
            | Some m => whereClauses m = inr ws
            | None => ws = []
            end
         /\ q = addWheres ws (count c (from (tableName self)))).
Proof.
  intros _. unfold createCountStatement. split.
  - intros H. apply bind_inr in H as (q0 & E0 & H).
    assert (Hc : exists c,
               match propertyName with
               | Some n =>
                   exists p, get n (getAllProperties self) = Some p
                             /\ c = columnName p
               | None => c = "*"
               end
               /\ q0 = count c (from (tableName self))).
    { destruct propertyName as [n|].
      - destruct (get n (getAllProperties self)) as [p|]; [|discriminate].
        injection E0 as <-. exists (columnName p). split; [now exists p|].
        reflexivity.
      - injection E0 as <-. now exists "*". }
    destruct Hc as (c & Hc & ->). exists c.
    destruct whereMap as [m|]; simpl in H.
    + unfold addWhereClause in H. apply bind_inr in H as (ws & Ews & H).
      injection H as <-. now exists ws.
    + injection H as <-. now exists [].
  - intros (c & ws & Hc & Hws & ->).
    assert (E0 : match propertyName with
                 | Some n =>
                     match get n (getAllProperties self) with
                     | Some property =>
                         ret (count (columnName property)
                                (from (tableName self)))
                     | None =>
                         throw (Err ("Unknown property `" ++ n ++ "`."))
                     end
                 | None => ret (count "*" (from (tableName self)))
                 end = inr (count c (from (tableName self)))).
    { destruct propertyName as [n|].
      - destruct Hc as (p & -> & ->). reflexivity.
      - now subst c. }
    rewrite E0. simpl. destruct whereMap as [m|]; simpl.
    + unfold addWhereClause. now rewrite Hws.
    + now subst ws.
Qed.

(* ---------------------------------------------------------------- *)
(** *** Where maps *)

Lemma addWheres_app (ws1 ws2 : list Where) (q : Query) :
  addWheres (ws1 ++ ws2) q = addWheres ws2 (addWheres ws1 q).
Proof. unfold addWheres. simpl. now rewrite app_assoc. Qed.

(** X7.  Adding the where clauses of a map whose entries are those of [m1]
    followed by those of [m2] is adding those of [m1] and then those of [m2]:
    the same clauses in the same order, or the same error. *)
Theorem where_maps_compose (q : Query) (m1 m2 : Obj) :
  addWhereClause q (m1 ++ m2)%list
  = (q1 <- addWhereClause q m1 ;; addWhereClause q1 m2).
Proof.
  unfold addWhereClause, whereClauses. rewrite collect_app.
  destruct (collect whereEntry m1) as [e|ws1]; simpl; [reflexivity|].
  destruct (collect whereEntry m2) as [e|ws2]; simpl; [reflexivity|].
  now rewrite addWheres_app.
Qed.

(* ---------------------------------------------------------------- *)
(** *** Sqlish statements *)

Lemma substring_all (s : string) :
  String.substring 0 (String.length s) s = s.
Proof. induction s as [|c s IH]; simpl; [reflexivity | now rewrite IH]. Qed.

Lemma substring_prefix (s t : string) :
  String.substring 0 (String.length s) (s ++ t) = s.
Proof. induction s as [|c s IH]; simpl; [now destruct t | now rewrite IH]. Qed.

Lemma length_append (s t : string) :
  String.length (s ++ t) = (String.length s + String.length t)%nat.
Proof. induction s as [|c s IH]; simpl; [reflexivity | now rewrite IH]. Qed.

Lemma unwrap_parentheses (s : string) :
  substringJS 1 (String.length ("(" ++ s ++ ")") - 1) ("(" ++ s ++ ")") = s.
Proof.
  unfold substringJS. simpl String.length. rewrite length_append. simpl.
  rewrite Nat.sub_0_r, Nat.add_1_r.
  replace (S (String.length s) - 1)%nat with (String.length s) by lia.
  apply substring_prefix.
Qed.

(** X8.  [execute] hands to the datastore the text that [parseSQLishStatement]
    makes, without the parentheses put around it, and the values as given: it
    succeeds exactly when [parseSQLishStatement] does. *)
Theorem execute_unwraps_statement (sql s : string) (values vs : list Value) :
  execute sql values = inr (s, vs)
  <-> parseSQLishStatement sql = inr ("(" ++ s ++ ")") /\ vs = values.
Proof.
  unfold execute, parseSQLishStatement. split.
  - intros H. apply bind_inr in H as (st & E & H).
    apply bind_inr in E as (t & Et & E). injection E as <-.
    change (String "(" (t ++ ")")) with ("(" ++ t ++ ")") in H.
    rewrite unwrap_parentheses in H. injection H as <- <-.
    rewrite Et. now split.
  - intros [H ->]. apply bind_inr in H as (t & Et & H).
    injection H as H.
    assert (t = s) as ->;
      [|rewrite Et; unfold bind, ret;
        now rewrite (unwrap_parentheses s)].
    clear - H. revert s H. induction t as [|c t IH]; intros [|d s] H.
    + reflexivity.
    + simpl in H. destruct s; discriminate.
    + simpl in H. destruct t; discriminate.
    + simpl in H. injection H as -> H. now rewrite (IH s H).
Qed.

(** X9.  The text for a counting property and the text for [$count("name")] in
    a statement given to [execute] are the same, or fail the same way, when
    the property belongs to the model of this table; the function name is
    taken in any case. *)
Theorem count_renderers_agree (property : Property)
    (sqlishFunctionName targetPropertyName : string) :
  modelOf (model property) = inr self ->
  toUpperCase sqlishFunctionName = "COUNT" ->
  createReadOnlyStatement property targetPropertyName
  = parseSQLishFunction sqlishFunctionName targetPropertyName.
Proof.
  intros Hm Hu. unfold createReadOnlyStatement, parseSQLishFunction.
  rewrite Hm, Hu. simpl. unfold getProperty. reflexivity.
Qed.

(** X10.  A search on a model without an [id] property fails, whatever the
    other arguments are: the search condition is put under the key [id] of the
    where map. *)
Theorem search_needs_id (searchText : string) (where_ : option Obj)
    (limit skip : option Z) (sort : option Sort) (group : option Group)
    (select fetchAssociations : option (list string))
    (autoFetchDepth : option nat) :
  getProperty "id" = None ->
  fails (snd (createSearchStatement searchText where_ limit skip sort group
                select fetchAssociations autoFetchDepth)).
Proof.
  intros Hid. unfold createSearchStatement. simpl.
  apply select_fails_on_where.
  apply whereClauses_unknown with (k := "id");
    [assumption | discriminate |].
  apply get_in_keys. rewrite get_set_same. eauto.
Qed.

(* ---------------------------------------------------------------- *)
(** *** Sort maps *)

(** X11.  A sort map that [addSortClause] accepts adds one ORDER BY for each
    of its keys, in key order, after those the query has: on the column of the
    property under that key, with the table name before it unless the property
    is virtual, and with the direction [ASC] or [DESC] and no other; a
    direction given as a string is that string in upper case, and one given as
    a number is [DESC] when the number is negative. *)
Theorem sort_orders (q q' : Query) (m : Obj) :
  addSortClause q (Some (SortMap m)) = inr q' ->
  exists os,
    q' = addOrders os q
    /\ Forall2
         (fun (e : string * Value) (o : string * string) =>
            exists p,
              getProperty (fst e) = Some p
              /\ fst o = (if isVirtual (options p) then columnName p
                          else tableName self ++ "." ++ columnName p)
              /\ (snd o = "ASC" \/ snd o = "DESC")
              /\ (forall s, snd e = VStr s -> snd o = toUpperCase s)
              /\ (forall z, snd e = VNum z ->
                            snd o = if (z <? 0)%Z then "DESC" else "ASC"))
         m os.
Proof.
  unfold addSortClause, sortClauses. simpl. intros H.
  apply bind_inr in H as (os & E & H). injection H as <-.
  exists os. split; [reflexivity|].
  revert os E. induction m as [|[k v] m IH]; intros os E; simpl in E.
  - injection E as <-. constructor.
  - apply bind_inr in E as (o & Eo & E).
    apply bind_inr in E as (rest & Erest & E). injection E as <-.
    unfold sortEntry in Eo. simpl in Eo.
    destruct (getProperty k) as [p|] eqn:Ep; [|discriminate].
    apply bind_inr in Eo as (d & Ed & Eo).
    assert (Hd : (d = "ASC" \/ d = "DESC")
                 /\ (forall s, v = VStr s -> d = toUpperCase s)
                 /\ (forall z, v = VNum z ->
                               d = if (z <? 0)%Z then "DESC" else "ASC")).
    { destruct v; simpl in Ed;
        try (injection Ed as <-;
             repeat split; [now left | discriminate | discriminate]).
      - injection Ed as <-. repeat split; [|discriminate|].
        + destruct (z <? 0)%Z; [now right | now left].
        + now intros z' [= ->].
      - destruct (toUpperCase s =? "ASC")%string eqn:Ea.
        + injection Ed as <-. apply String.eqb_eq in Ea.
          repeat split; [now left | now intros s' [= ->] | discriminate].
        + destruct (toUpperCase s =? "DESC")%string eqn:Eb; [|discriminate].
          injection Ed as <-. apply String.eqb_eq in Eb.
          repeat split; [now right | now intros s' [= ->] | discriminate]. }
    assert (Ho : o = [((if isVirtual (options p) then columnName p
                        else tableName self ++ "." ++ columnName p), d)]).
    { destruct (isVirtual (options p)); now injection Eo as <-. }
    subst o. simpl. constructor; [|now apply IH].
    exists p. simpl. destruct Hd as (H1 & H2 & H3).
    repeat split; assumption.
Qed.

(* ---------------------------------------------------------------- *)
(** *** Alternatives and key paths in a where map *)

Lemma orBranches_bodies (propertyName : string) (ors : list Value) :
  forall isFirst,
    orBranches propertyName ors isFirst
    = match map (orBranch propertyName) ors with
      | [] => []
      | body :: others =>
          WhereWrapped (negb isFirst) body :: map (WhereWrapped true) others
      end.
Proof.
  induction ors as [|or rest IH]; intros isFirst; simpl; [reflexivity|].
  f_equal. rewrite IH. now destruct (map (orBranch propertyName) rest).
Qed.

Lemma orBranch_inr (propertyName : string) (or : Value) (body : list Where) :
  orBranch propertyName or = inr body ->
  exists es,
    ownEntries or = inr es
    /\ collect
         (fun e : string * Value =>
            whereProperty (notFoundInOr propertyName) (fst e) (snd e))
         es = inr body.
Proof.
  unfold orBranch. intros H. apply bind_inr in H as (es & Ees & H).
  now exists es.
Qed.

(** X12.  A where map entry [$or] with an array that [addWhereClause] accepts
    makes one group; the group has one sub-group for each element of the
    array, in order, the first joined with [where] and the others with
    [orWhere]; a sub-group is what the function of its element does when the
    builder runs it, and a sub-group that returns has the clauses of the
    properties of its element, as at the top level of a where map but for the
    message of the error for an unknown property.  An empty array makes an
    empty group. *)
Theorem or_group (ors : list Value) (ws : list Where) :
  whereEntry ("$or", VArr ors) = inr ws ->
  exists bodies,
    Forall2
      (fun or body =>
         body = orBranch "$or" or
         /\ forall clauses,
              body = inr clauses ->
              exists es,
                ownEntries or = inr es
                /\ collect
                     (fun e : string * Value =>
                        whereProperty (notFoundInOr "$or") (fst e) (snd e))
                     es = inr clauses)
      ors bodies
    /\ ws = [WhereWrapped false (inr (alternatives bodies))].
Proof.
  unfold whereEntry. simpl. intros H. injection H as <-.
  exists (map (orBranch "$or") ors). split.
  - induction ors as [|or rest IH]; simpl; constructor; [|exact IH].
    split; [reflexivity|]. intros clauses Hc. now apply orBranch_inr.
  - now rewrite orBranches_bodies.
Qed.

(** X13.  A where map entry whose key is a key path through an association
    makes one EXISTS condition: a sub-select from the table of the model of
    the property the path leads to, with the clauses for the value on the
    column of that property, not qualified, made with the raw where template
    of the association and not that of the property, and with the condition
    that ties the sub-select to this table as its last clause.  The
    sub-select is what the function handed to the builder makes when the
    builder runs it. *)
Theorem key_path_where (notFound keyPath : string) (whereValue : Value)
    (firstProperty : Property) (ws : list Where) :
  getFirstProperty keyPath = Some firstProperty ->
  whereProperty notFound keyPath whereValue = inr ws ->
  exists property subSelect,
    getProperty keyPath = Some property
    /\ ws = [WhereExists subSelect]
    /\ (forall owner body,
           modelOf (model property) = inr owner ->
           addValueClause (columnName property) whereValue
             (Some firstProperty) = inr body ->
           (isManyToMany firstProperty = true ->
            exists t otherProperty,
              modelOfOpt "through" (through (options firstProperty)) = inr t
              /\ getPropertyOpt t
                   (throughPropertyName (options firstProperty))
                 = Some otherProperty) ->
           (isManyToMany firstProperty = false ->
            exists via, relationshipViaOf firstProperty = inr via) ->
           exists correlation,
             subSelect
             = inr (tableName owner,
                    (body ++ [WhereRaw correlation []])%list))
    /\ forall t clauses,
         subSelect = inr (t, clauses) ->
         exists owner body correlation,
           modelOf (model property) = inr owner
           /\ addValueClause (columnName property) whereValue
                (Some firstProperty) = inr body
           /\ t = tableName owner
           /\ clauses = (body ++ [WhereRaw correlation []])%list
           /\ ((isManyToMany firstProperty = true
                /\ exists t otherProperty,
                     modelOfOpt "through" (through (options firstProperty))
                     = inr t
                     /\ getPropertyOpt t
                          (throughPropertyName (options firstProperty))
                        = Some otherProperty
                     /\ correlation
                        = columnName otherProperty ++ " = "
                          ++ quote (tableName self) ++ "." ++ quote "id")
               \/ (isManyToMany firstProperty = false
                   /\ exists via,
                        relationshipViaOf firstProperty = inr via
                        /\ correlation
                           = if isAllowed via then
                               columnName via ++ " = " ++ getTableName self
                               ++ ".id"
                             else
                               tableName self ++ "."
                               ++ columnName firstProperty
                               ++ " = " ++ tableName owner ++ ".id")).
Proof.
  intros Hf H. unfold whereProperty in H.
  destruct (getProperty keyPath) as [property|]; [|discriminate].
  rewrite Hf in H. injection H as <-.
  eexists property, _. split; [reflexivity|]. split; [reflexivity|]. split.
  - intros owner body Eo Eb Hmany Hone. rewrite Eo. simpl. rewrite Eb. simpl.
    destruct (isManyToMany firstProperty).
    + destruct (Hmany eq_refl) as (t & otherProperty & Et & Eop).
      rewrite Et. simpl. rewrite Eop. simpl. now eexists.
    + destruct (Hone eq_refl) as (via & Ev). rewrite Ev. simpl.
      destruct (isAllowed via); now eexists.
  - intros t clauses H.
    apply bind_inr in H as (owner & Eo & H).
    apply bind_inr in H as (body & Eb & H).
    apply bind_inr in H as (correlation & Ec & H). injection H as <- <-.
    exists owner, body, correlation.
    repeat (split; [reflexivity || assumption|]).
    destruct (isManyToMany firstProperty).
    + left. split; [reflexivity|].
      apply bind_inr in Ec as (t & Et & Ec).
      apply bind_inr in Ec as (otherProperty & Eop & Ec). injection Ec as <-.
      exists t, otherProperty. split; [assumption|]. split; [|reflexivity].
      destruct (getPropertyOpt t
                  (throughPropertyName (options firstProperty)));
        [now injection Eop as <- | discriminate].
    + right. split; [reflexivity|].
      apply bind_inr in Ec as (via & Ev & Ec). exists via.
      split; [assumption|].
      destruct (isAllowed via); now injection Ec as <-.
Qed.

(* ---------------------------------------------------------------- *)
(** *** The columns of a SELECT *)

Lemma filter_push {A} (f : A -> bool) (l : list A) (a : A) :
  filter f (l ++ [a]) = (filter f l ++ (if f a then [a] else []))%list.
Proof. rewrite filter_app. reflexivity. Qed.

Lemma association_columns_loop (pick : string -> bool)
    (associations : list Property) (l : list (string * Property)) :
  forall q q',
    forEach
      (fun query (e : string * Property) =>
         if pick (fst e) then
           if isAllowed (snd e) then
             ret (column
                    (Col (columnsAlias associations ++ "."
                          ++ columnName (snd e) ++ " as "
                          ++ columnAs associations (snd e))) query)
           else
             s <- sqlishOf (snd e) ;;
             match s with
             | Some template =>
                 sql <- expandSqlish (columnsAlias associations ++ ".")
                          (snd e) template ;;
                 ret (column
                        (ColRaw "(" sql
                           (") as " ++ columnAs associations (snd e)))
                        query)
             | None => ret query
             end
         else ret query)
      l q = inr q' ->
    exists cs,
      q_columns q' = (q_columns q ++ cs)%list
      /\ filter isPlain cs
         = map (fun e => associationColumn associations (snd e))
             (filter (fun e => pick (fst e) && isAllowed (snd e)) l).
Proof.
  induction l as [|e l IH]; intros q q' H; simpl in H.
  - injection H as <-. exists []. now rewrite app_nil_r.
  - apply bind_inr in H as (q1 & E1 & H).
    apply IH in H as (cs & Hcs & Hplain). clear IH. simpl filter.
    destruct (pick (fst e)); simpl andb.
    + destruct (isAllowed (snd e)).
      * injection E1 as <-. simpl in Hcs.
        exists (associationColumn associations (snd e) :: cs).
        split; [now rewrite Hcs, <- app_assoc|].
        simpl. now rewrite Hplain.
      * apply bind_inr in E1 as ([template|] & _ & E1).
        -- apply bind_inr in E1 as (sql & _ & E1). injection E1 as <-.
           simpl in Hcs.
           exists (ColRaw "(" sql (") as " ++ columnAs associations (snd e))
                   :: cs).
           split; [now rewrite Hcs, <- app_assoc | exact Hplain].
        -- injection E1 as <-. now exists cs.
    + injection E1 as <-. now exists cs.
Qed.

(** X14.  [addSelectColumnsForAssociation] keeps the columns of the query and
    adds columns after them.  Those given by name are, in the order of the
    property map of the associated model, one for each storable property that
    is chosen: under the alias of the chain, and named by the names of the
    chain, each followed by the indicator of the property, and the column
    name.  The property [id] is chosen whatever [select] and the auto-fetch
    properties are. *)
Theorem association_columns (q q' : Query) (associations : list Property)
    (select : option (list string)) :
  addSelectColumnsForAssociation q associations select = inr q' ->
  exists referenceProperty am cs,
    last (map Some associations) None = Some referenceProperty
    /\ modelOfOpt "associatedModel" (getAssociatedModel referenceProperty)
       = inr am
    /\ q_columns q' = (q_columns q ++ cs)%list
    /\ filter isPlain cs
       = map (fun e => associationColumn associations (snd e))
           (filter (fun e => chosen associations select (fst e)
                             && isAllowed (snd e))
              (getAllProperties am))
    /\ chosen associations select "id" = true.
Proof.
  unfold addSelectColumnsForAssociation. intros H.
  apply bind_inr in H as (r & Er & H).
  apply bind_inr in H as (am & Eam & H).
  assert (Hr : last (map Some associations) None = Some r).
  { destruct (last (map Some associations) None);
      [now injection Er as <- | discriminate]. }
  exists r, am.
  pose (pick := fun propertyName : string =>
          negb match select, autoFetchProperties (options r) with
               | None, None => false
               | _, _ => true
               end
          || fst (fold_left
                    (selectedThrough
                       (String.concat EmptyString
                          (map (fun association => name association ++ ".")
                             associations)))
                    (orEmpty select) (false, []))
          || (propertyName =? "id")%string
          || includes propertyName
               (List.app
                  (snd (fold_left
                          (selectedThrough
                             (String.concat EmptyString
                                (map (fun association =>
                                        name association ++ ".")
                                   associations)))
                          (orEmpty select) (false, [])))
                  (orEmpty (autoFetchProperties (options r))))).
  assert (Hpick : forall n, pick n = chosen associations select n).
  { intros n. unfold pick, chosen. rewrite Hr.
    destruct select, (autoFetchProperties (options r)); reflexivity. }
  apply (association_columns_loop pick) in H.
  destruct H as (cs & Hcs & Hplain). exists cs.
  repeat (split; [assumption|]). split.
  - rewrite Hplain. f_equal. apply filter_ext. intros e.
    now rewrite Hpick.
  - rewrite <- Hpick. unfold pick.
    destruct select, (autoFetchProperties (options r)); simpl;
      try reflexivity; now rewrite orb_true_r.
Qed.

Lemma base_columns_loop (group : option Group)
    (select : option (list string)) (l : list (string * Property)) :
  forall q q',
    forEach (selectEntry group select) l q = inr q' ->
    exists cs,
      q_columns q' = (q_columns q ++ cs)%list
      /\ filter isPlain cs
         = map (fun e => baseColumn (snd e))
             (filter (fun e => selected group select (snd e)
                               && isAllowed (snd e)) l).
Proof.
  induction l as [|e l IH]; intros q q' H; simpl in H.
  - injection H as <-. exists []. now rewrite app_nil_r.
  - apply bind_inr in H as (q1 & E1 & H).
    apply IH in H as (cs & Hcs & Hplain). clear IH. simpl filter.
    unfold selectEntry in E1. fold (selected group select (snd e)) in E1.
    destruct (selected group select (snd e)); simpl andb.
    + destruct (isAllowed (snd e)).
      * injection E1 as <-. simpl in Hcs.
        exists (baseColumn (snd e) :: cs).
        split; [now rewrite Hcs, <- app_assoc|].
        simpl. now rewrite Hplain.
      * unfold sqlishColumn in E1.
        apply bind_inr in E1 as ([template|] & _ & E1).
        -- apply bind_inr in E1 as (sql & _ & E1). injection E1 as <-.
           simpl in Hcs.
           exists (ColRaw "(" sql (") as " ++ quote (columnName (snd e)))
                   :: cs).
           split; [now rewrite Hcs, <- app_assoc | exact Hplain].
        -- injection E1 as <-. now exists cs.
    + injection E1 as <-. now exists cs.
Qed.

Lemma moreColumns_refl (q : Query) : moreColumns q q.
Proof. exists []. now rewrite app_nil_r. Qed.

Lemma moreColumns_trans (q1 q2 q3 : Query) :
  moreColumns q1 q2 -> moreColumns q2 q3 -> moreColumns q1 q3.
Proof.
  intros [cs1 H1] [cs2 H2]. exists (cs1 ++ cs2)%list.
  now rewrite H2, H1, app_assoc.
Qed.

Lemma moreColumns_column (c : Column) (q : Query) :
  moreColumns q (column c q).
Proof. now exists [c]. Qed.

Lemma addSelectColumnsForAssociation_columns (q q' : Query)
    (associations : list Property) (select : option (list string)) :
  addSelectColumnsForAssociation q associations select = inr q' ->
  moreColumns q q'.
Proof.
  unfold addSelectColumnsForAssociation. intros H.
  apply bind_inr in H as (r & _ & H).
  apply bind_inr in H as (am & _ & H).
  revert H.
  apply forEach_rel with (R := moreColumns);
    [apply moreColumns_refl | apply moreColumns_trans|].
  intros q0 e q1 _ Hstep.
  match type of Hstep with
  | (if ?c then _ else _) = _ => destruct c
  end; [|injection Hstep as <-; apply moreColumns_refl].
  destruct (isAllowed (snd e)).
  - injection Hstep as <-. apply moreColumns_column.
  - apply bind_inr in Hstep as ([template|] & _ & Hstep).
    + apply bind_inr in Hstep as (sql & _ & Hstep). injection Hstep as <-.
      apply moreColumns_column.
    + injection Hstep as <-. apply moreColumns_refl.
Qed.

Lemma addAssociationFrom_columns (fuel : nat) :
  forall (q q' : Query) (associations : list Property)
         (select : option (list string)),
    addAssociationFrom fuel q associations select = inr q' ->
    moreColumns q q'.
Proof.
  induction fuel as [|fuel IH]; intros q q' associations select H;
    simpl in H;
    apply bind_inr in H as (q1 & E1 & H);
    apply bind_inr in H as (q2 & E2 & H);
    apply addSelectColumnsForAssociation_columns in E1;
    apply addJoinStatement_joins in E2 as (js & _ & ->).
  - now injection H as <-.
  - apply bind_inr in H as (lastAssociation & _ & H).
    apply moreColumns_trans with (q2 := addJoins js q1); [exact E1|].
    destruct (getAssociatedModel lastAssociation) as [an|];
      [|injection H as <-; apply moreColumns_refl].
    apply bind_inr in H as (am & _ & H). revert H.
    apply forEach_rel with (R := moreColumns);
      [apply moreColumns_refl | apply moreColumns_trans|].
    intros q0 e q3 _ Hstep.
    match type of Hstep with
    | (if ?c then _ else _) = _ => destruct c
    end; [|injection Hstep as <-; apply moreColumns_refl].
    now apply IH in Hstep.
Qed.

Lemma association_loop_columns (whereMap : option Obj)
    (select fetchAssociations : option (list string))
    (autoFetchDepth : option nat) (l : list (string * Property)) :
  forall sq wq sq' wq',
    forEach (associationEntry whereMap select fetchAssociations
               autoFetchDepth) l (sq, wq) = inr (sq', wq') ->
    exists rest,
      q_columns sq' = (q_columns sq ++ rest)%list
      /\ ((forall e, In e l -> fetched fetchAssociations (snd e) = false) ->
          rest = []).
Proof.
  induction l as [|e l IH]; intros sq wq sq' wq' H; simpl in H.
  - injection H as <- <-. exists []. now rewrite app_nil_r.
  - apply bind_inr in H as ([sq1 wq1] & E1 & H).
    apply IH in H as (rest & Hrest & Hnone). clear IH.
    unfold associationEntry in E1.
    fold (fetched fetchAssociations (snd e)) in E1.
    destruct (fetched fetchAssociations (snd e)) eqn:Ef.
    + apply bind_inr in E1 as (q1 & Ea & E1). injection E1 as <- <-.
      apply addAssociationFrom_columns in Ea as [cs Hcs].
      exists (cs ++ rest)%list. split.
      * now rewrite Hrest, Hcs, app_assoc.
      * intros Hall. specialize (Hall e (or_introl eq_refl)). congruence.
    + assert (Hsame : q_columns sq1 = q_columns sq).
      { apply bind_inr in E1 as (m & _ & E1).
        destruct (match get (name (snd e)) m with
                  | Some v => truthy v
                  | None => false
                  end); [|now injection E1 as <- <-].
        destruct wq as [w|].
        - apply bind_inr in E1 as (w1 & _ & E1). now injection E1 as <- <-.
        - apply bind_inr in E1 as (q1 & Ej & E1). injection E1 as <- <-.
          now apply addJoinStatement_joins in Ej as (js & _ & ->). }
      exists rest. split; [now rewrite Hrest, Hsame|].
      intros Hall. apply Hnone. intros e' He'. apply Hall. now right.
Qed.

Lemma addGroupClause_columns (q q' : Query) (group : option Group) :
  addGroupClause q group = inr q' -> q_columns q' = q_columns q.
Proof.
  unfold addGroupClause. intros H.
  destruct (truthyGroup group); [|now injection H as <-].
  apply bind_inr in H as (ns & _ & H). revert H.
  apply forEach_rel with (R := fun q q' => q_columns q' = q_columns q);
    [reflexivity | intros; congruence|].
  intros q0 n q1 _ Hstep.
  destruct (getProperty n); [|discriminate].
  now injection Hstep as <-.
Qed.

Lemma addWhereClauseOpt_columns (q q' : Query) (whereMap : option Obj) :
  addWhereClauseOpt q whereMap = inr q' -> q_columns q' = q_columns q.
Proof.
  destruct whereMap as [m|]; simpl; intros H; [|now injection H as <-].
  unfold addWhereClause in H. apply bind_inr in H as (ws & _ & H).
  now injection H as <-.
Qed.

Lemma addLimitClause_columns (q : Query) (n : option Z) :
  q_columns (addLimitClause q n) = q_columns q.
Proof. destruct n as [z|]; simpl; [now destruct (0 <? z)%Z | reflexivity]. Qed.

Lemma addOffsetClause_columns (q : Query) (n : option Z) :
  q_columns (addOffsetClause q n) = q_columns q.
Proof. destruct n as [z|]; simpl; [now destruct (0 <? z)%Z | reflexivity]. Qed.

(** X15.  A statement built by [createSelectStatement] selects, in its select
    query, first the columns of this table and then what the fetched
    associations add, and nothing when no association is fetched.  The columns
    of this table given by name are, in the order of the property map, those
    of the storable properties that are not hidden and are named in [select],
    or are not aggregates when there is no [select], or are the [id] when
    there is no group. *)
Theorem base_columns (whereMap : option Obj) (limit skip : option Z)
    (sort : option Sort) (group : option Group)
    (select fetchAssociations : option (list string))
    (autoFetchDepth : option nat) (st : Statement) :
  createSelectStatement whereMap limit skip sort group select
    fetchAssociations autoFetchDepth = inr st ->
  exists s cs rest,
    outer st = Some s
    /\ q_columns s = (cs ++ rest)%list
    /\ filter isPlain cs
       = map (fun e => baseColumn (snd e))
           (filter (fun e => selected group select (snd e)
                             && isAllowed (snd e))
              (getAllProperties self))
    /\ ((forall e, In e (getAssociations self) ->
                   fetched fetchAssociations (snd e) = false) ->
        rest = []).
Proof.
  intros H. unfold createSelectStatement in H.
  apply bind_inr in H as (wq0 & _ & H).
  apply bind_inr in H as (sq1 & E1 & H).
  apply bind_inr in H as ([sq2 wq2] & E2 & H).
  simpl fst in H. simpl snd in H.
  apply bind_inr in H as (sq3 & E3 & H).
  apply bind_inr in H as (sq4 & E4 & H).
  apply base_columns_loop in E1 as (cs & Hcs & Hplain). simpl in Hcs.
  apply association_loop_columns in E2 as (rest & Hrest & Hnone).
  unfold addSortClause in E3.
  apply bind_inr in E3 as (os & _ & E3). injection E3 as <-.
  apply addGroupClause_columns in E4. simpl in E4.
  assert (Hs : q_columns sq4 = (cs ++ rest)%list) by congruence.
  destruct wq2 as [w|].
  - apply bind_inr in H as (w1 & _ & H).
    apply bind_inr in H as (w2 & _ & H). injection H as <-.
    exists sq4, cs, rest. repeat split; assumption.
  - apply bind_inr in H as (sq5 & E5 & H). injection H as <-.
    apply addWhereClauseOpt_columns in E5.
    exists (addOffsetClause (addLimitClause sq5 limit) skip), cs, rest.
    rewrite addOffsetClause_columns, addLimitClause_columns.
    repeat split; try assumption. congruence.
Qed.

(** X16.  Without a where map, [createSelectStatement] fails when the model
    has an association that is not fetched: the where map is asked for the
    name of the association. *)
Theorem select_needs_where_map (limit skip : option Z)
    (sort : option Sort) (group : option Group)
    (select fetchAssociations : option (list string))
    (autoFetchDepth : option nat) (e : string * Property) :
  In e (getAssociations self) ->
  fetched fetchAssociations (snd e) = false ->
  fails (createSelectStatement None limit skip sort group select
           fetchAssociations autoFetchDepth).
Proof.
  intros Hin Hf. unfold createSelectStatement.
  apply fails_bind_all. intros wq0.
  apply fails_bind_all. intros sq1.
  apply fails_bind.
  apply in_split in Hin as (l1 & l2 & ->).
  apply forEach_fails_at. intros [sq wq].
  unfold associationEntry. fold (fetched fetchAssociations (snd e)).
  rewrite Hf. simpl. now eexists.
Qed.

(* ---------------------------------------------------------------- *)
(** *** Join conditions *)

(** X17.  The join of an association that is not many-to-many: one join,
    between the alias of the chain before the association and the alias of the
    chain.  For [hasOne] and [hasMany] it ties the [id] of the first to the
    column of the named property of the associated model, and for [belongsTo]
    the column of the association to the [id] of the second. *)
Theorem join_conditions (associations : list Property)
    (association : Property) (js : list Join) (j : Join) :
  last (map Some associations) None = Some association ->
  isManyToMany association = false ->
  joinsFor associations = inr js ->
  In j js ->
  js = [j]
  /\ exists am,
       modelOfOpt "associatedModel" (getAssociatedModel association) = inr am
       /\ ((exists h associationProperty,
              (hasOne (options association) = Some h
               \/ (hasOne (options association) = None
                   /\ hasMany (options association) = Some h))
              /\ getPropertyOf am h = Some associationProperty
              /\ j_first j = previousAlias associations ++ ".id"
              /\ j_second j
                 = alias associations ++ "."
                   ++ columnName associationProperty)
           \/ (hasOne (options association) = None
               /\ hasMany (options association) = None
               /\ belongsTo (options association) <> None
               /\ j_first j
                  = previousAlias associations ++ "."
                    ++ columnName association
               /\ j_second j = alias associations ++ ".id")).
Proof.
  intros Hlast Hm H Hin. unfold joinsFor in H. rewrite Hlast in H.
  simpl in H. rewrite Hm in H.
  apply bind_inr in H as (am & Eam & H).
  destruct (hasOne (options association)) as [h|] eqn:E1.
  - apply bind_inr in H as (ap & Eap & H). injection H as <-.
    destruct Hin as [<- | []]. split; [reflexivity|].
    exists am. split; [assumption|]. left. exists h, ap.
    split; [now left|]. split; [|now split].
    destruct (getPropertyOf am h); [now injection Eap as <- | discriminate].
  - destruct (hasMany (options association)) as [h|] eqn:E2.
    + destruct (getPropertyOf am h) as [ap|] eqn:Eap.
      * injection H as <-. destruct Hin as [<- | []].
        split; [reflexivity|].
        exists am. split; [assumption|]. left. exists h, ap.
        split; [now right|]. now repeat split.
      * apply bind_inr in H as (owner & _ & H). discriminate.
    + destruct (belongsTo (options association)) as [b|] eqn:E3.
      * injection H as <-. destruct Hin as [<- | []].
        split; [reflexivity|].
        exists am. split; [assumption|]. right.
        repeat split; discriminate.
      * destruct (autoFetch (options association)); [discriminate|].
        injection H as <-. destruct Hin.
Qed.

(** X18.  The joins of a many-to-many association: two left outer joins.  The
    first is to the table of the through model, under its own name, and ties
    the column of the through property of the association to the [id] of the
    alias of the chain before the association; the second is to the table of
    the associated model under the alias of the chain, and ties the column of
    the through property of the other side to its [id]. *)
Theorem many_to_many_joins (associations : list Property)
    (association : Property) (js : list Join) :
  last (map Some associations) None = Some association ->
  isManyToMany association = true ->
  joinsFor associations = inr js ->
  exists throughModel relation1Property via relation2Property am,
    modelOfOpt "through" (through (options association)) = inr throughModel
    /\ getPropertyOpt throughModel
         (throughPropertyName (options association))
       = Some relation1Property
    /\ relationshipViaOf association = inr via
    /\ getPropertyOpt throughModel (throughPropertyName (options via))
       = Some relation2Property
    /\ modelOfOpt "associatedModel" (getAssociatedModel association) = inr am
    /\ js = [mkJoin leftOuterJoin (tableName throughModel)
               (tableName throughModel ++ "."
                ++ columnName relation1Property)
               (previousAlias associations ++ ".id");
             mkJoin leftOuterJoin
               (tableName am ++ " as " ++ alias associations)
               (tableName throughModel ++ "."
                ++ columnName relation2Property)
               (alias associations ++ ".id")].
Proof.
  intros Hlast Hm H. unfold joinsFor in H. rewrite Hlast in H.
  simpl in H. rewrite Hm in H.
  apply bind_inr in H as (throughModel & Et & H).
  apply bind_inr in H as (via & Ev & H).
  destruct (getPropertyOpt throughModel
              (throughPropertyName (options association)))
    as [relation1Property|] eqn:E1.
  - destruct (getPropertyOpt throughModel (throughPropertyName (options via)))
      as [relation2Property|] eqn:E2.
    + apply bind_inr in H as (am & Eam & H). injection H as <-.
      exists throughModel, relation1Property, via, relation2Property, am.
      repeat split; assumption.
    + apply bind_inr in H as (am & _ & H). discriminate.
  - apply bind_inr in H as (owner & _ & H). discriminate.
Qed.

(* ---------------------------------------------------------------- *)
(** *** INSERT statements *)

(** X19.  A statement built by [createInsertStatement] is an insert into the
    table of the map [addInsertClause] makes, with a RETURNING list of [*]
    followed by one column for each property with a sqlish text that is not an
    aggregate, in property order, and nothing else. *)
Theorem insert_statement (setMap : Obj) (q : Query) :
  createInsertStatement setMap = inr q ->
  exists insertMap computed,
    addInsertClause (from (tableName self)) setMap
    = inr (insert insertMap (from (tableName self)))
    /\ q = returning (Col "*" :: computed)
             (insert insertMap (from (tableName self)))
    /\ Forall2 returnedAs
         (filter returned (map snd (getAllProperties self))) computed.
Proof.
  unfold createInsertStatement, addReturningClause, returningColumns.
  intros H. apply bind_inr in H as (q1 & E1 & H).
  apply bind_inr in H as (cols & Ec & H). injection H as <-.
  unfold addInsertClause in E1 |- *.
  apply bind_inr in E1 as (insertMap & Ei & E1). injection E1 as <-.
  apply returning_forEach in Ec as (computed & -> & HF).
  exists insertMap, computed. rewrite Ei. repeat split. assumption.
Qed.

(* ---------------------------------------------------------------- *)
(** *** Values in a where map *)

(** X20.  For a property with a raw where template, a value that is not an
    array makes one raw condition, the template, whatever the value is: null,
    an operator object and a value with [toQueryValue] are not looked into,
    and the column plays no part.  When the template has [$1], its first [$1]
    becomes [?] and the value is the one binding, as given; when it has none,
    the value is dropped.  An array makes an IN condition on the column and
    the template plays no part. *)
Theorem raw_where_takes_precedence (columnName template : string)
    (value : Value) (property : Property) :
  rawWhere (options property) = Some template ->
  (isArray value = false ->
   addValueClause columnName value (Some property)
   = inr [if contains "$1" template then
            WhereRaw (replaceFirst "$1" "?" template) [value]
          else WhereRaw template []])
  /\ (forall l,
         value = VArr l ->
         addValueClause columnName value (Some property)
         = inr [WhereIn columnName (VArr (map toQueryValue l))]).
Proof.
  intros Hraw. split.
  - intros Harr. unfold addValueClause. rewrite Hraw.
    destruct value; try discriminate Harr;
      now destruct (contains "$1" template).
  - now intros l ->.
Qed.

(** X21.  A where map entry whose key is a property of this model, not a key
    path, makes the clauses of its value on one column: for a many-to-many
    association the column, in the through table, of the first association of
    the through model to the model of the other side; for a [hasOne]
    association the [id] under the table name of the model of the other side,
    [_] and the name of the association; otherwise the column of the property
    in the table of its model.  The raw where template is that of the
    property. *)
Theorem plain_where_column (notFound propertyName : string)
    (whereValue : Value) (property : Property) (ws : list Where) :
  getProperty propertyName = Some property ->
  getFirstProperty propertyName = None ->
  whereProperty notFound propertyName whereValue = inr ws ->
  exists whereColumn,
    addValueClause whereColumn whereValue (Some property) = inr ws
    /\ ((isManyToMany property = true
         /\ exists t via a,
              modelOfOpt "through" (through (options property)) = inr t
              /\ relationshipViaOf property = inr via
              /\ hd_error (findAssociationsTo t (model via)) = Some a
              /\ whereColumn = tableName t ++ "." ++ columnName a)
        \/ (isManyToMany property = false
            /\ hasOne (options property) <> None
            /\ exists via vm,
                 relationshipViaOf property = inr via
                 /\ modelOf (model via) = inr vm
                 /\ whereColumn
                    = tableName vm ++ "_" ++ name property ++ ".id")
        \/ (isManyToMany property = false
            /\ hasOne (options property) = None
            /\ exists owner,
                 modelOf (model property) = inr owner
                 /\ whereColumn
                    = tableName owner ++ "."
                      ++ columnName property)).
Proof.
  intros Hp Hf H. unfold whereProperty in H. rewrite Hp, Hf in H.
  apply bind_inr in H as (c & Ec & H). exists c. split; [exact H|].
  destruct (isManyToMany property).
  - left. split; [reflexivity|].
    apply bind_inr in Ec as (t & Et & Ec).
    apply bind_inr in Ec as (via & Ev & Ec).
    apply bind_inr in Ec as (a & Ea & Ec). injection Ec as <-.
    exists t, via, a. repeat (split; [assumption|]). split; [|reflexivity].
    destruct (hd_error (findAssociationsTo t (model via)));
      [now injection Ea as <- | discriminate].
  - right. destruct (hasOne (options property)) as [h|].
    + left. split; [reflexivity|]. split; [discriminate|].
      apply bind_inr in Ec as (via & Ev & Ec).
      apply bind_inr in Ec as (vm & Evm & Ec). injection Ec as <-.
      now exists via, vm.
    + right. split; [reflexivity|]. split; [reflexivity|].
      apply bind_inr in Ec as (owner & Eo & Ec). injection Ec as <-.
      now exists owner.
Qed.

(* ---------------------------------------------------------------- *)
(** *** GROUP BY *)

(** X22.  A group that [addGroupClause] accepts adds one GROUP BY for each of
    its names, in order, after those the query has: the column of the property
    of that name with the table name before it, for a virtual property too.  A
    group that is absent or the empty string adds none. *)
Theorem group_columns (q q' : Query) (group : option Group) :
  addGroupClause q group = inr q' ->
  if truthyGroup group then
    exists propertyNames properties,
      groupNames group = Some propertyNames
      /\ Forall2 (fun n p => getProperty n = Some p)
           propertyNames properties
      /\ q_groups q'
         = List.app (q_groups q)
             (map (fun p => tableName self ++ "." ++ columnName p)
                properties)
  else q' = q.
Proof.
  unfold addGroupClause. intros H.
  destruct (truthyGroup group); [|now injection H as <-].
  apply bind_inr in H as (ns & Ens & H).
  assert (Hns : groupNames group = Some ns).
  { destruct group as [[g|l|]|]; simpl in *; try discriminate;
      now injection Ens as <-. }
  exists ns. clear Ens.
  assert (forall q q',
             forEach
               (fun selectQuery propertyName =>
                  match getProperty propertyName with
                  | None =>
                      throw (Err ("Invalid group by property `"
                                  ++ groupText group ++ "`."))
                  | Some property =>
                      ret (groupBy (tableName self ++ "."
                                    ++ columnName property) selectQuery)
                  end) ns q = inr q' ->
             exists properties,
               Forall2 (fun n p => getProperty n = Some p) ns properties
               /\ q_groups q'
                  = List.app (q_groups q)
                      (map (fun p => tableName self ++ "." ++ columnName p)
                         properties)) as Hloop.
  { clear. induction ns as [|n ns IH]; intros q q' H; simpl in H.
    - injection H as <-. exists []. split; [constructor|].
      simpl. now rewrite app_nil_r.
    - apply bind_inr in H as (q1 & E1 & H).
      destruct (getProperty n) as [p|] eqn:Ep; [|discriminate].
      injection E1 as <-. apply IH in H as (ps & HF & Hg).
      exists (p :: ps). split; [now constructor|].
      rewrite Hg. simpl. now rewrite <- app_assoc. }
  apply Hloop in H as (ps & HF & Hg). exists ps.
  repeat split; assumption.
Qed.

(* ---------------------------------------------------------------- *)
(** *** The API routes *)

Lemma _canUpdateProperties_all (canUpdateOption : Property -> Value)
    (propertyNames : list string) :
  _canUpdateProperties canUpdateOption propertyNames = true ->
  forall n p,
    In n propertyNames -> getProperty n = Some p ->
    isUndefined (canUpdateOption p) = true
    \/ truthy (canUpdateOption p) = true.
Proof.
  induction propertyNames as [|k l IH]; simpl; intros H n p Hin Hp.
  - destruct Hin.
  - destruct Hin as [-> | Hin].
    + rewrite Hp in H.
      destruct (isUndefined (canUpdateOption p)); [now left|].
      destruct (truthy (canUpdateOption p)); [now right | discriminate].
    + destruct (match getProperty k with
                | Some property =>
                    negb (isUndefined (canUpdateOption property))
                    && negb (truthy (canUpdateOption property))
                | None => false
                end); [discriminate|].
      now apply IH with (n := n).
Qed.

(** X23.  When the update route calls the update function of the model, the
    update was permitted, the set map is the body of the request, and the
    where map has the [id] of the request under [id]; its only other key is
    the permission key path, a known property, with the authenticator under
    it.  A key path [id] leaves the [id] of the request under [id] and the
    authenticator nowhere.  No key of the set map is a property whose
    [canUpdate] option is set and falsy. *)
Theorem update_call_guards (canUpdateOption : Property -> Value)
    (canUpdate _authenticator : Value) (keyPath : option string)
    (id : Value) (body : option Obj) (whereMap setMap : Obj) :
  updateCall canUpdateOption canUpdate _authenticator keyPath id body
  = inr (whereMap, setMap) ->
  truthy canUpdate = true
  /\ body = Some setMap
  /\ get "id" whereMap = Some id
  /\ (forall k, In k (keys whereMap) -> k = "id" \/ keyPath = Some k)
  /\ (forall k, keyPath = Some k ->
                getProperty k <> None
                /\ (k <> "id" -> get k whereMap = Some _authenticator))
  /\ (forall n p,
         In n (keys setMap) -> getProperty n = Some p ->
         isUndefined (canUpdateOption p) = true
         \/ truthy (canUpdateOption p) = true).
Proof.
  unfold updateCall. intros H.
  destruct (truthy canUpdate);
    [|unfold notPermitted in H; destruct (truthy _authenticator);
      discriminate].
  split; [reflexivity|].
  destruct keyPath as [k|].
  - destruct (getProperty k) eqn:Ek; [|discriminate H].
    unfold andThen in H.
    destruct body as [b|]; [|discriminate H].
    destruct (_canUpdateProperties canUpdateOption (keys b)) eqn:Ec;
      [|discriminate H].
    assert (Hw : whereMap = set "id" id (set k _authenticator [])
                 /\ setMap = b) by (split; congruence).
    clear H. destruct Hw as [-> ->].
    split; [reflexivity|].
    split; [apply get_set_same|].
    split; [|split; [|now apply _canUpdateProperties_all]].
    + cbn [set].
      destruct (String.eqb_spec "id" k) as [<- | Hne]; cbn [keys map fst].
      * intros k' [<- | []]. now left.
      * intros k' [<- | [<- | []]]; [now right | now left].
    + intros k' [= <-]. split; [congruence|]. intros Hne.
      rewrite get_set_other by assumption. apply get_set_same.
  - unfold andThen in H. destruct body as [b|]; [|discriminate H].
    destruct (_canUpdateProperties canUpdateOption (keys b)) eqn:Ec;
      [|discriminate H].
    assert (Hw : whereMap = set "id" id [] /\ setMap = b)
      by (split; congruence).
    clear H. destruct Hw as [-> ->].
    split; [reflexivity|].
    split; [apply get_set_same|].
    split; [|split; [|now apply _canUpdateProperties_all]].
    + intros k' [<- | []]. now left.
    + discriminate.
Qed.

(** X24.  When the create route calls the create function of the model, the
    creation was permitted and the argument is the body of the request.  For a
    model with an automatic property and a request with a body, the body has
    the authenticator under the name of that property, whatever was there,
    which was nothing or a falsy value, and its other keys are as in the
    request.  For a request without a body the argument is no body: the
    automatic property is not given to the create function. *)
Theorem create_call_guards (canCreate _authenticator : Value)
    (hasAuthenticator : bool) (automaticPropertyName : option string)
    (body argument : option Obj) :
  createCall canCreate _authenticator hasAuthenticator automaticPropertyName
    body = inr argument ->
  truthy canCreate = true
  /\ (body = None -> argument = None)
  /\ (automaticPropertyName = None -> argument = body)
  /\ (forall n b,
         automaticPropertyName = Some n -> body = Some b ->
         hasAuthenticator = true
         /\ match get n b with
            | Some v => truthy v = false
            | None => True
            end
         /\ exists b',
              argument = Some b'
              /\ get n b' = Some _authenticator
              /\ forall k, k <> n -> get k b' = get k b).
Proof.
  unfold createCall. intros H.
  destruct (truthy canCreate);
    [|unfold notPermitted in H; destruct (truthy _authenticator);
      discriminate].
  split; [reflexivity|].
  destruct automaticPropertyName as [n|].
  - destruct hasAuthenticator; [|discriminate]. simpl in H.
    destruct (match get n (orEmpty body) with
              | Some v => truthy v
              | None => false
              end) eqn:Eg; [discriminate|].
    injection H as <-. repeat split.
    + now intros ->.
    + discriminate.
    + injection H as <-. subst body. simpl in Eg.
      destruct (get n b); [exact Eg | exact I].
    + injection H as <-. subst body. simpl.
      exists (set n _authenticator b). split; [reflexivity|].
      split; [apply get_set_same|].
      intros k Hk. now apply get_set_other.
  - injection H as <-. repeat split; try discriminate.
    now intros ->.
Qed.

Lemma get_remove_same {A} (k : string) (o : list (string * A)) :
  get k (remove k o) = None.
Proof.
  induction o as [|[k' v] o IH]; simpl; [reflexivity|].
  destruct (String.eqb k k') eqn:E; [exact IH|]. simpl. now rewrite E.
Qed.

Lemma get_remove_other {A} (k k' : string) (o : list (string * A)) :
  k' <> k -> get k' (remove k o) = get k' o.
Proof.
  intros Hne. induction o as [|[k0 v] o IH]; simpl; [reflexivity|].
  destruct (String.eqb_spec k k0) as [<- | Hk].
  - apply String.eqb_neq in Hne. now rewrite Hne.
  - simpl. now rewrite IH.
Qed.

(** X25.  When the read-many route calls the find function of the model,
    reading was permitted, and the query map has the keys of the query of the
    request with their values, but for [$options]: a truthy [$options] is
    parsed into the options of the call and taken out of the query map, and
    one that is falsy, such as an empty string, stays in the query map as a
    condition, with no options. *)
Theorem read_many_call_guards (parse : Value -> Promise Value)
    (canRead _authenticator : Value) (query : option Obj)
    (queryMap : Obj) (optionsMap : Value) :
  readManyCall parse canRead _authenticator query
  = inr (queryMap, optionsMap) ->
  truthy canRead = true
  /\ (forall k, k <> "$options" ->
                get k queryMap = get k (orEmpty query))
  /\ match get "$options" (orEmpty query) with
     | Some options =>
         if truthy options then
           get "$options" queryMap = None
           /\ parse options = inr optionsMap
         else
           get "$options" queryMap = Some options
           /\ optionsMap = VObj []
     | None => get "$options" queryMap = None /\ optionsMap = VObj []
     end.
Proof.
  unfold readManyCall. intros H.
  destruct (truthy canRead);
    [|unfold notPermitted in H; destruct (truthy _authenticator);
      discriminate].
  split; [reflexivity|].
  destruct (get "$options" (orEmpty query)) as [options|] eqn:Eo.
  - destruct (truthy options).
    + destruct (parse options) as [r|parsed]; [discriminate H|].
      unfold andThen in H.
      assert (Hq : queryMap = remove "$options" (orEmpty query)
                   /\ optionsMap = parsed) by (split; congruence).
      clear H. destruct Hq as [-> ->]. split; [|split; [|reflexivity]].
      * intros k Hk. now apply get_remove_other.
      * apply get_remove_same.
    + assert (Hq : queryMap = orEmpty query /\ optionsMap = VObj [])
        by (split; congruence).
      clear H. destruct Hq as [-> ->]. repeat split. exact Eo.
  - assert (Hq : queryMap = orEmpty query /\ optionsMap = VObj [])
      by (split; congruence).
    clear H. destruct Hq as [-> ->]. repeat split. exact Eo.
Qed.

(* ---------------------------------------------------------------- *)
(** *** Through models *)

Lemma assign_length (links : Links) (r : nat) (v : option string) :
  List.length (assign links r v) = List.length links.
Proof.
  revert r. induction links as [|x l IH]; intros [|r]; simpl; auto.
Qed.

Lemma assign_nth_same (links : Links) (r : nat) (v : option string) :
  (r < List.length links)%nat -> nth_error (assign links r v) r = Some v.
Proof.
  revert r. induction links as [|x l IH]; intros [|r]; simpl; intros H;
    try lia; [reflexivity | apply IH; lia].
Qed.

Lemma assign_nth_other (links : Links) (r i : nat) (v : option string) :
  i <> r -> nth_error (assign links r v) i = nth_error links i.
Proof.
  revert r i. induction links as [|x l IH]; intros [|r] [|i] H; simpl;
    auto; congruence.
Qed.

(** The loop of [postInstallModel], for two associations that are not the
    same object. *)
Lemma link_loop (t : ThroughModel) (links : Links) :
  throughProperty t <> throughAssociatedProperty t ->
  (throughProperty t < List.length links)%nat ->
  (throughAssociatedProperty t < List.length links)%nat ->
  forall properties,
    let links' := fold_left (linkThroughProperty t) properties links in
    List.length links' = List.length links
    /\ nth_error links' (throughProperty t)
       = match find (fun p => refersTo (referenceName p) (ownerName t))
                 (rev properties) with
         | Some p => Some (Some (throughName p))
         | None => nth_error links (throughProperty t)
         end
    /\ nth_error links' (throughAssociatedProperty t)
       = match find (fun p => negb (refersTo (referenceName p) (ownerName t))
                              && refersTo (referenceName p)
                                   (associatedName t))
                 (rev properties) with
         | Some p => Some (Some (throughName p))
         | None => nth_error links (throughAssociatedProperty t)
         end
    /\ forall i, i <> throughProperty t ->
                 i <> throughAssociatedProperty t ->
                 nth_error links' i = nth_error links i.
Proof.
  intros Hne Hr Hr'. induction properties as [|p l IH] using rev_ind.
  - simpl. repeat split.
  - rewrite fold_left_app, rev_app_distr. simpl.
    destruct IH as (Hlen & Ho & Ha & Hrest).
    unfold linkThroughProperty at 1 3 5 7.
    destruct (refersTo (referenceName p) (ownerName t)); simpl.
    + rewrite assign_length. split; [exact Hlen|].
      split; [apply assign_nth_same; lia|].
      split; [now rewrite assign_nth_other by auto|].
      intros i H1 H2. rewrite assign_nth_other by assumption. auto.
    + destruct (refersTo (referenceName p) (associatedName t)); simpl.
      * rewrite assign_length. split; [exact Hlen|].
        split; [now rewrite assign_nth_other by auto|].
        split; [apply assign_nth_same; lia|].
        intros i H1 H2. rewrite assign_nth_other by assumption. auto.
      * repeat split; assumption.
Qed.

(** X26.  After [postInstallModel] for a through model between two
    associations, the association the model is the through model of has the
    name of the last property of the model that refers to the model of that
    association, and the other association the name of the last property that
    refers to its associated model and not to the first; each is left as it
    was when there is no such property, and nothing else is written to. *)
Theorem through_links (modelName : string) (isAuthenticator : bool)
    (t : ThroughModel) (_authenticator : option string) (links : Links) :
  throughProperty t <> throughAssociatedProperty t ->
  (throughProperty t < List.length links)%nat ->
  (throughAssociatedProperty t < List.length links)%nat ->
  let links' :=
    snd (postInstallModel modelName isAuthenticator (Some t)
           (_authenticator, links)) in
  nth_error links' (throughProperty t)
  = match find (fun p => refersTo (referenceName p) (ownerName t))
            (rev (throughModelProperties t)) with
    | Some p => Some (Some (throughName p))
    | None => nth_error links (throughProperty t)
    end
  /\ nth_error links' (throughAssociatedProperty t)
     = match find (fun p => negb (refersTo (referenceName p) (ownerName t))
                            && refersTo (referenceName p) (associatedName t))
               (rev (throughModelProperties t)) with
       | Some p => Some (Some (throughName p))
       | None => nth_error links (throughAssociatedProperty t)
       end
  /\ forall i, i <> throughProperty t ->
               i <> throughAssociatedProperty t ->
               nth_error links' i = nth_error links i.
Proof.
  intros Hne Hr Hr'. simpl.
  destruct (link_loop t links Hne Hr Hr' (throughModelProperties t))
    as (_ & Ho & Ha & Hrest).
  repeat split; assumption.
Qed.

(** X27.  For a through model between two associations of the same model,
    [postInstallModel] never writes to the second association: its
    [throughPropertyName] is left as it was. *)
Theorem self_reference_links_one_side (modelName : string)
    (isAuthenticator : bool) (t : ThroughModel)
    (_authenticator : option string) (links : Links) :
  ownerName t = associatedName t ->
  throughProperty t <> throughAssociatedProperty t ->
  nth_error
    (snd (postInstallModel modelName isAuthenticator (Some t)
            (_authenticator, links)))
    (throughAssociatedProperty t)
  = nth_error links (throughAssociatedProperty t).
Proof.
  intros Hsame Hne. simpl.
  generalize (throughModelProperties t) as properties.
  intros properties. revert links.
  induction properties as [|p l IH]; intros links; simpl; [reflexivity|].
  rewrite IH. unfold linkThroughProperty. rewrite <- Hsame.
  destruct (refersTo (referenceName p) (ownerName t)); [|reflexivity].
  apply assign_nth_other. auto.
Qed.

End Table.

(* ------------------------------------------------------------------ *)
(** ** The properties on the sample schema *)

Lemma alias_of_chain_witness :
  [Post_comments] <> []
  /\ alias Post [Post_comments] = join "_" ["posts"; "comments"].
Proof.
  split.
  - discriminate.
  - apply (alias_of_chain Post (chain := [Post_comments])). discriminate.
Defined.

(** Two different chains from the users table, [best_friend] and
    [best] then [friend], get the same alias. *)
Lemma alias_collision :
  [User_bestFriend] <> [User_best; User_friend]
  /\ alias User [User_bestFriend] = alias User [User_best; User_friend].
Proof. split; [discriminate | reflexivity]. Qed.

Lemma join_type_of_association_witness :
  joinsFor sameCamel blog Post (push [] Post_comments)
  = inr [mkJoin leftOuterJoin "comments as posts_comments" "posts.id"
           "posts_comments.post_id"]
  /\ ((hasOne (options Post_comments) = None
       /\ hasMany (options Post_comments) = None
       /\ belongsTo (options Post_comments) = None
       /\ [mkJoin leftOuterJoin "comments as posts_comments" "posts.id"
             "posts_comments.post_id"] = [])
      \/ (exists j associated,
            [mkJoin leftOuterJoin "comments as posts_comments" "posts.id"
               "posts_comments.post_id"] = [j]
            /\ j_table j
               = tableName associated ++ " as "
                 ++ alias Post (push [] Post_comments)
            /\ j_type j = leftOuterJoin)).
Proof.
  split.
  - reflexivity.
  - apply (join_type_of_association sameCamel blog Post [] Post_comments).
    reflexivity.
Defined.

(** A required many-to-many association is joined with two left outer
    joins. *)
Lemma required_many_to_many_left_joined :
  isManyToMany Post_tags = true
  /\ required (options Post_tags) = true
  /\ joinsFor sameCamel blog Post [Post_tags]
     = inr [mkJoin leftOuterJoin "taggings" "taggings.post_id" "posts.id";
            mkJoin leftOuterJoin "tags as posts_tags" "taggings.tag_id"
              "posts_tags.id"].
Proof. repeat split. Qed.

(** C9.  [alterStatement] writes to the properties of the changed set: called
    with the [score] column of the posts table, whose clauses are
    [INTEGER] and [NOT NULL], it leaves the property with the clause
    [INTEGER] alone, and a second call with the same arguments builds another
    statement, without the [NOT NULL]. *)
Theorem alterStatement_changes_clauses :
  clauses Post_score = ["INTEGER"; "NOT NULL"]
  /\ alterStatement Post [Post_score] None None (Some [0%nat])
     = inr (Raw ("ALTER TABLE " ++ quote "posts" ++ nl
                 ++ tab ++ " ALTER COLUMN " ++ quote "score"
                 ++ " TYPE INTEGER SET NOT NULL" ++ nl ++ ";") [],
            [withClauses ["INTEGER"] Post_score])
  /\ alterStatement Post [withClauses ["INTEGER"] Post_score] None None
       (Some [0%nat])
     = inr (Raw ("ALTER TABLE " ++ quote "posts" ++ nl
                 ++ tab ++ " ALTER COLUMN " ++ quote "score"
                 ++ " TYPE INTEGER SET " ++ nl ++ ";") [],
            [withClauses ["INTEGER"] Post_score]).
Proof. repeat split. Qed.



(** [constructor] is no operator key and a member of every object: the
    lookup in the operator table finds it, no error is raised, and the
    builder is called with no operator. *)
Lemma inherited_operator_key_accepted :
  WHERE_TRANSFORMER "constructor" = Some (Inherited (Method 1 true))
  /\ addValueClause [] [] "posts.title" (VObj [("constructor", VNum 1)]) None
     = inr [WhereOpUndefined "posts.title" (VNum 1)]
  /\ whereClauses [] [] blog Post [("title", VObj [("toString", VNum 1)])]
     = inr [WhereOpUndefined "posts.title" (VNum 1)].
Proof. repeat split. Qed.


(** [remove(where, limit=10, skip=0, sort={id:'asc'})] and
    [update(where, {score: 5}, limit=10, skip=0, sort={id:'asc'})] on the
    posts table. *)
Lemma paginated_mutations_witness :
  (exists w d,
      createDeleteStatement sameCase noTokens [] [] blog Post
        (Some [("title", VStr "x")]) (Some 10%Z) (Some 0%Z)
        (Some (SortMap [("id", VStr "asc")]))
      = inr (Raw withT [w; d])
      /\ q_from w = "posts"
      /\ q_wheres w = [WhereVal false "posts.title" (VStr "x")]
      /\ q_orders w = [("posts.id", "ASC")]
      /\ q_limit w = Some 10%Z
      /\ q_offset w = None
      /\ q_from d = "posts"
      /\ q_delete d = true
      /\ q_wheres d = [idInT]
      /\ q_returning d
         = Some [Col "*";
                 countOfComments])
  /\ exists w d,
       createUpdateStatement sameCase noTokens [] [] blog Post
         (Some [("title", VStr "x")]) (Some [("score", VNum 5)])
         (Some 10%Z) (Some 0%Z) (Some (SortMap [("id", VStr "asc")]))
       = inr (Raw withT [w; d])
       /\ q_from w = "posts"
       /\ q_wheres w = [WhereVal false "posts.title" (VStr "x")]
       /\ q_orders w = [("posts.id", "ASC")]
       /\ q_limit w = Some 10%Z
       /\ q_offset w = None
       /\ q_from d = "posts"
       /\ q_update d = Some [("score", VNum 5)]
       /\ q_wheres d = [idInT]
       /\ q_returning d
          = Some [Col "*";
                  countOfComments].
Proof.
  pose proof (paginated_mutations sameCase noTokens [] [] blog Post
                (Some [("title", VStr "x")]) (Some [("score", VNum 5)])
                (Some 10%Z) (Some 0%Z) (Some (SortMap [("id", VStr "asc")])))
    as (_ & _ & Hdelete & Hupdate).
  split.
  - do 2 eexists. split.
    + exact (Hdelete _ _ _ _ eq_refl eq_refl eq_refl (fun _ => eq_refl)).
    + repeat split.
  - do 2 eexists. split.
    + exact (Hupdate _ _ _ _ _ eq_refl eq_refl eq_refl eq_refl
               (fun _ => eq_refl)).
    + repeat split.
Defined.

(** A limit of zero is no limit: the delete is not paginated.  A negative
    limit makes the statement paginated, and the first query has no
    LIMIT. *)
Lemma limit_zero_and_negative_limit :
  getProperty blog Post "id" <> None
  /\ createDeleteStatement sameCase noTokens [] [] blog Post
       (Some [("title", VStr "x")]) (Some 0%Z) None None
     = inr (Built
              (addWheres [WhereVal false "posts.title" (VStr "x")]
                 (returning
                    [Col "*";
                     countOfComments]
                    (delete (from "posts")))))
  /\ exists w d,
       createDeleteStatement sameCase noTokens [] [] blog Post
         (Some [("title", VStr "x")]) (Some (-1)%Z) None None
       = inr (Raw withT [w; d])
       /\ q_wheres w = [WhereVal false "posts.title" (VStr "x")]
       /\ q_limit w = None
       /\ q_offset w = None
       /\ q_orders w = []
       /\ q_wheres d = [idInT].
Proof.
  split; [discriminate|]. split; [reflexivity|].
  do 2 eexists. split; [reflexivity|]. repeat split.
Qed.

(** A paginated select on the posts table that filters on the author: the
    inner query joins the users table. *)
Lemma inner_query_joins_referenced_association :
  exists w s,
    createSelectStatement sameCase sameCamel noTokens [] [] blog Post
      (Some [("user", VNum 1)]) (Some 10%Z) None None None None None
      (Some 5%nat)
    = inr (Raw ("WITH " ++ dq ++ "posts" ++ dq ++ " AS (?) ?") [w; s])
    /\ q_from w = "posts"
    /\ q_limit w = Some 10%Z
    /\ q_joins w = [mkJoin leftOuterJoin "users as posts_user"
                      "posts.user_id" "posts_user.id"]
    /\ q_joins s = [mkJoin leftOuterJoin "comments as posts_comments"
                      "posts.id" "posts_comments.post_id"].
Proof. do 2 eexists. split; [vm_compute; reflexivity|]. repeat split. Qed.

Lemma paginated_select_witness :
  exists st,
    createSelectStatement sameCase sameCamel noTokens [] [] blog Post
      (Some [("title", VStr "x")]) (Some 10%Z) None None None None None
      (Some 5%nat) = inr st
    /\ exists s, outer st = Some s /\ q_from s = "posts".
Proof.
  eexists. split.
  - vm_compute. reflexivity.
  - destruct (paginated_select sameCase sameCamel noTokens [] [] blog Post
                (Some [("title", VStr "x")]) (Some 10%Z) None None None None
                None (Some 5%nat) eq_refl)
      as (s & Hout & Hfrom & _).
    exists s. split; assumption.
Defined.

(** A select on the users table that joins nothing is sorted by id all the
    same: the model has associations. *)
Lemma implicit_sort_without_join :
  getAllAssociations User <> []
  /\ exists q,
       createSelectStatement sameCase sameCamel noTokens [] [] blog User
         (Some []) None None None None None None None = inr (Built q)
       /\ q_joins q = []
       /\ q_orders q = [("users.id", "ASC")].
Proof.
  split; [discriminate|]. eexists.
  split; [vm_compute; reflexivity|]. repeat split.
Qed.

Lemma implicit_sort_by_id_witness :
  exists st,
    createSelectStatement sameCase sameCamel noTokens [] [] blog Post
      (Some []) None None None None None None (Some 5%nat) = inr st
    /\ exists s, outer st = Some s /\ q_orders s = [("posts.id", "ASC")].
Proof.
  eexists. split.
  - vm_compute. reflexivity.
  - destruct (implicit_sort_by_id sameCase sameCamel noTokens [] [] blog Post
                (Some []) None None None None None None (Some 5%nat) eq_refl)
      as (s & Hout & Himplicit & _).
    exists s. split; [assumption|].
    apply (Himplicit ltac:(discriminate) eq_refl eq_refl (idP "Post") eq_refl).
Defined.



(** The error for an unknown name in a sort map, and the one for an unknown
    group name, do not name the table. *)
Lemma sort_and_group_errors_omit_table :
  getProperty blog Post "bogus" = None
  /\ addSortClause blog Post (from "posts")
       (Some (SortMap [("bogus", VStr "asc")]))
     = inl (Err "Warning: cannot find property `bogus` in orderBy.")
  /\ contains "posts" "Warning: cannot find property `bogus` in orderBy."
     = false
  /\ createDeleteStatement sameCase noTokens [] [] blog Post (Some []) None
       None (Some (SortMap [("bogus", VStr "asc")]))
     = inl (Err "Warning: cannot find property `bogus` in orderBy.")
  /\ addGroupClause blog Post (from "posts") (Some (GroupString "bogus"))
     = inl (Err "Invalid group by property `bogus`.")
  /\ contains "posts" "Invalid group by property `bogus`." = false.
Proof. repeat split. Qed.

(** The error for an unknown name inside a branch of [$or] shows the key
    [$or], not the name. *)
Lemma or_error_shows_or_key :
  exists msg,
    orBranch [] [] blog Post "$or" (VObj [("bogus", VNum 1)])
    = inl (Err msg)
    /\ contains "`$or`" msg = true
    /\ contains "bogus" msg = false.
Proof. eexists. repeat split. Qed.

(** A paginated select sorted on an unknown name fails on the member access
    [property.options], before [addSortClause] is reached. *)
Lemma paginated_select_unknown_sort :
  createSelectStatement sameCase sameCamel noTokens [] [] blog Post
    (Some []) (Some 10%Z) None (Some (SortMap [("bogus", VStr "asc")])) None
    None None None
  = inl (TypeError "property").
Proof. reflexivity. Qed.

(* ------------------------------------------------------------------ *)
(** ** More properties on the sample schema *)

Lemma alterStatement_frame_witness :
  exists st h',
    alterStatement Post [Post_score; idP "Post"] None None (Some [0%nat])
    = inr (st, h')
    /\ List.length h' = 2%nat
    /\ nth_error h' 1 = Some (idP "Post").
Proof.
  eexists. eexists. split; [vm_compute; reflexivity|].
  destruct (@alterStatement_frame Post [Post_score; idP "Post"] _ None None
              (Some [0%nat]) _ eq_refl) as (Hl & Hout & _).
  split; [exact Hl|].
  apply (Hout 1%nat). simpl. intros [H | []]. discriminate H.
Defined.

Lemma alterStatement_settles_witness :
  exists st h' st',
    alterStatement Post [Post_score] None None (Some [0%nat]) = inr (st, h')
    /\ alterStatement Post h' None None (Some [0%nat]) = inr (st', h').
Proof.
  eexists. eexists.
  destruct (@alterStatement_settles Post [Post_score] _ None None
              (Some [0%nat]) _ eq_refl) as (st' & H).
  exists st'. split; [reflexivity | exact H].
Defined.

Lemma insert_storable_columns_witness :
  (forall k, In k (keys [("title", VStr "a"); ("comments", VNull)]) ->
             getProperty blog Post k <> None)
  /\ exists insertMap,
       addInsertClause blog Post (from "posts")
         [("title", VStr "a"); ("comments", VNull)]
       = inr (insert insertMap (from "posts"))
       /\ forall k v p,
            In (k, v) [("title", VStr "a"); ("comments", VNull)] ->
            getProperty blog Post k = Some p ->
            isAllowed p = true -> In (columnName p) (keys insertMap).
Proof.
  assert (H : forall k,
             In k (keys [("title", VStr "a"); ("comments", VNull)]) ->
             getProperty blog Post k <> None).
  { intros k [<- | [<- | []]]; discriminate. }
  split; [exact H|].
  destruct (@insert_storable_columns blog Post
              [("title", VStr "a"); ("comments", VNull)] (from "posts") H)
    as (insertMap & E & _ & Hall).
  exists insertMap. split; assumption.
Defined.

Lemma update_assignments_witness :
  exists q',
    addSetClause [] [] blog Post (from "posts")
      (Some [("title", VStr "a"); ("score", VObj [("$inc", VNum 1)])])
    = inr q'
    /\ exists updateMap,
         q_update q' = Some updateMap
         /\ forall c v',
              get c updateMap = Some v' ->
              exists k v p,
                In (k, v) [("title", VStr "a");
                           ("score", VObj [("$inc", VNum 1)])]
                /\ getProperty blog Post k = Some p
                /\ isAllowed p = true /\ columnName p = c
                /\ isDirective v = false /\ v' = toQueryValue v.
Proof.
  eexists. split; [vm_compute; reflexivity|].
  destruct (@update_assignments [] [] blog Post
              [("title", VStr "a"); ("score", VObj [("$inc", VNum 1)])]
              (from "posts") _ eq_refl)
    as (updateMap & Hu & Hget & _).
  exists updateMap. split; assumption.
Defined.

Lemma set_skips_non_storable_witness :
  (forall k, In k (keys [("comments", VNum 1)]) ->
             exists p, getProperty blog Post k = Some p
                       /\ isAllowed p = false)
  /\ addSetClause [] [] blog Post (from "posts")
       (Some [("comments", VNum 1)])
     = inr (update [] (from "posts")).
Proof.
  assert (H : forall k,
             In k (keys [("comments", VNum 1)]) ->
             exists p, getProperty blog Post k = Some p
                       /\ isAllowed p = false).
  { intros k [<- | []]. exists Post_comments. split; reflexivity. }
  split; [exact H|].
  apply (@set_skips_non_storable [] [] blog Post [("comments", VNum 1)]
           (from "posts") H).
Defined.

Lemma count_statement_witness :
  Some "title" <> Some EmptyString
  /\ createCountStatement [] [] blog Post (Some "title")
       (Some [("score", VNum 3)])
     = inr (addWheres [WhereVal false "posts.score" (VNum 3)]
              (count "title" (from "posts"))).
Proof.
  split; [discriminate|].
  apply (proj2 (@count_statement [] [] blog Post (Some "title")
                  (Some [("score", VNum 3)]) _ ltac:(discriminate))).
  exists "title", [WhereVal false "posts.score" (VNum 3)].
  split; [|split; reflexivity].
  eexists. split; reflexivity.
Defined.

Lemma execute_unwraps_statement_witness :
  parseSQLishStatement noTokens blog Post "SELECT 1" = inr "(SELECT 1)"
  /\ execute noTokens blog Post "SELECT 1" [VNum 2]
     = inr ("SELECT 1", [VNum 2]).
Proof.
  split; [reflexivity|].
  apply (proj2 (@execute_unwraps_statement noTokens blog Post "SELECT 1"
                  "SELECT 1" [VNum 2] [VNum 2])).
  split; reflexivity.
Defined.

Lemma count_renderers_agree_witness :
  modelOf blog (model (countingP "Post" "numberOfComments" "comments"))
  = inr Post
  /\ toUpperCase "count" = "COUNT"
  /\ createReadOnlyStatement blog
       (countingP "Post" "numberOfComments" "comments") "comments"
     = inr ("(SELECT COUNT(*) FROM " ++ quote "comments" ++ " WHERE "
            ++ quote "posts" ++ ".id = " ++ quote "comments"
            ++ ".post_id)")
  /\ parseSQLishFunction blog Post "count" "comments"
     = createReadOnlyStatement blog
         (countingP "Post" "numberOfComments" "comments") "comments".
Proof.
  split; [reflexivity|]. split; [reflexivity|]. split; [reflexivity|].
  symmetry.
  apply (@count_renderers_agree blog Post
           (countingP "Post" "numberOfComments" "comments")
           "count" "comments" eq_refl eq_refl).
Defined.

Lemma search_needs_id_witness :
  getProperty blog Setting "id" = None
  /\ fails (snd (createSearchStatement sameCase sameCamel noTokens [] []
                   blog Setting "fire" None None None None None None None
                   None)).
Proof.
  split; [reflexivity|].
  apply (@search_needs_id sameCase sameCamel noTokens [] [] blog Setting
           "fire" None None None None None None None None eq_refl).
Defined.

Lemma sort_orders_witness :
  exists q',
    addSortClause blog Post (from "posts")
      (Some (SortMap [("title", VStr "desc"); ("score", VNum (-1))]))
    = inr q'
    /\ exists os,
         q' = addOrders os (from "posts")
         /\ Forall (fun o => snd o = "ASC" \/ snd o = "DESC") os.
Proof.
  eexists. split; [vm_compute; reflexivity|].
  destruct (@sort_orders blog Post (from "posts") _
              [("title", VStr "desc"); ("score", VNum (-1))] eq_refl)
    as (os & Hq & HF).
  exists os. split; [exact Hq|].
  clear Hq. induction HF as [|e o m os' (p & _ & _ & Hd & _) _ IH];
    constructor; assumption.
Defined.

Lemma or_group_witness :
  exists ws bodies,
    whereEntry [] [] blog Post
      ("$or", VArr [VObj [("title", VStr "a")]; VObj [("score", VNum 1)]])
    = inr ws
    /\ bodies = [inr [WhereVal false "posts.title" (VStr "a")];
                 inr [WhereVal false "posts.score" (VNum 1)]]
    /\ ws = [WhereWrapped false (inr (alternatives bodies))].
Proof.
  eexists.
  destruct (@or_group [] [] blog Post
              [VObj [("title", VStr "a")]; VObj [("score", VNum 1)]]
              _ eq_refl) as (bodies & HF & Hws).
  exists bodies. split; [reflexivity|]. split; [|exact Hws].
  inversion HF as [|or1 body1 ors1 bodies1 [H1 _] HF1]; subst.
  inversion HF1 as [|or2 body2 ors2 bodies2 [H2 _] HF2]; subst.
  inversion HF2; subst. reflexivity.
Defined.

Lemma key_path_where_witness :
  getFirstProperty blog Post "comments.text" = Some Post_comments
  /\ exists ws body,
       whereProperty [] [] blog Post "not found" "comments.text" (VStr "hi")
       = inr ws
       /\ addValueClause [] [] "text" (VStr "hi") (Some Post_comments)
          = inr body
       /\ body = [WhereVal false "text" (VStr "hi")]
       /\ ws = [WhereExists
                  (inr ("comments",
                        (body
                         ++ [WhereRaw
                               ("post_id = " ++ quote "posts" ++ ".id")
                               []])%list))].
Proof.
  split; [reflexivity|].
  eexists.
  destruct (@key_path_where [] [] blog Post "not found" "comments.text"
              (VStr "hi") Post_comments _ eq_refl eq_refl)
    as (property & subSelect & Ep & Hws & _ & Hsub).
  injection Ep as <-.
  eexists. split; [reflexivity|]. split; [reflexivity|].
  split; [reflexivity|].
  rewrite Hws. f_equal. f_equal.
  destruct subSelect as [e | [t clauses]].
  - injection Hws as Hws. discriminate Hws.
  - destruct (Hsub t clauses eq_refl)
      as (owner & body & correlation & Eo & Eb & -> & -> & Hc).
    injection Eo as <-. injection Eb as <-.
    destruct Hc as [[Hm _] | (_ & via & Ev & ->)]; [discriminate Hm|].
    injection Ev as <-. reflexivity.
Defined.

Lemma association_columns_witness :
  exists q' cs,
    addSelectColumnsForAssociation sameCase noTokens blog Post
      (from "posts") [Post_comments] (Some ["comments.text"])
    = inr q'
    /\ q_columns q' = cs
    /\ filter isPlain cs
       = [Col "posts_comments.id as comments$id";
          Col "posts_comments.text as comments$text"].
Proof.
  eexists.
  destruct (@association_columns sameCase noTokens blog Post (from "posts")
              _ [Post_comments] (Some ["comments.text"]) eq_refl)
    as (r & am & cs & Er & Eam & Hcs & Hplain & _).
  exists cs. split; [reflexivity|]. split; [exact Hcs|].
  injection Er as <-. injection Eam as <-. exact Hplain.
Defined.

Lemma base_columns_witness :
  exists st s cs,
    createSelectStatement sameCase sameCamel noTokens [] [] blog Setting
      (Some []) None None None None (Some ["value"]) None None
    = inr st
    /\ outer st = Some s
    /\ q_columns s = cs
    /\ filter isPlain cs = [Col "settings.value"].
Proof.
  eexists.
  destruct (@base_columns sameCase sameCamel noTokens [] [] blog Setting
              (Some []) None None None None (Some ["value"]) None None _
              eq_refl)
    as (s & cs & rest & Hout & Hcs & Hplain & Hnone).
  exists s, cs. split; [reflexivity|]. split; [exact Hout|].
  split; [|exact Hplain].
  rewrite Hcs, Hnone; [apply app_nil_r | intros e []].
Defined.

Lemma select_needs_where_map_witness :
  In ("user", Post_user) (getAssociations Post)
  /\ fetched None (snd ("user", Post_user)) = false
  /\ fails (createSelectStatement sameCase sameCamel noTokens [] [] blog
              Post None None None None None None None None).
Proof.
  split; [now left|]. split; [reflexivity|].
  apply (@select_needs_where_map sameCase sameCamel noTokens [] [] blog
           Post None None None None None None None ("user", Post_user));
    [now left | reflexivity].
Defined.

Lemma join_conditions_witness :
  exists js j,
    joinsFor sameCamel blog Post [Post_user] = inr js
    /\ js = [j]
    /\ j_first j = "posts.user_id"
    /\ j_second j = "posts_user.id".
Proof.
  exists [mkJoin leftOuterJoin "users as posts_user" "posts.user_id"
            "posts_user.id"].
  eexists. split; [reflexivity|].
  destruct (@join_conditions sameCamel blog Post [Post_user] Post_user
              [mkJoin leftOuterJoin "users as posts_user" "posts.user_id"
                 "posts_user.id"]
              (mkJoin leftOuterJoin "users as posts_user" "posts.user_id"
                 "posts_user.id")
              eq_refl eq_refl eq_refl (or_introl eq_refl))
    as (Hjs & am & Eam
        & [(h & ap & [Hh | [_ Hh]] & _) | (_ & _ & _ & H1 & H2)]);
    try discriminate Hh.
  split; [exact Hjs|]. split; [exact H1 | exact H2].
Defined.

Lemma many_to_many_joins_witness :
  exists js,
    joinsFor sameCamel blog Post [Post_tags] = inr js
    /\ js = [mkJoin leftOuterJoin "taggings" "taggings.post_id" "posts.id";
             mkJoin leftOuterJoin "tags as posts_tags" "taggings.tag_id"
               "posts_tags.id"].
Proof.
  eexists. split; [vm_compute; reflexivity|].
  destruct (@many_to_many_joins sameCamel blog Post [Post_tags] Post_tags _
              eq_refl eq_refl eq_refl)
    as (t & r1 & via & r2 & am & Et & E1 & Ev & E2 & Eam & Hjs).
  injection Et as <-. injection E1 as <-. injection Ev as <-.
  injection E2 as <-. injection Eam as <-. exact Hjs.
Defined.

Lemma insert_statement_witness :
  exists q insertMap computed,
    createInsertStatement sameCase noTokens blog Post
      [("title", VStr "a")] = inr q
    /\ q = returning (Col "*" :: computed)
             (insert insertMap (from "posts"))
    /\ List.length computed = 1%nat.
Proof.
  eexists.
  destruct (@insert_statement sameCase noTokens blog Post
              [("title", VStr "a")] _ eq_refl)
    as (insertMap & computed & _ & Hq & HF).
  exists insertMap, computed. split; [reflexivity|]. split; [exact Hq|].
  apply Forall2_length in HF. now rewrite <- HF.
Defined.

Lemma raw_where_takes_precedence_witness :
  rawWhere (options Post_titleSearch)
  = Some "to_tsvector(title) @@ to_tsquery($1)"
  /\ addValueClause [] [] "posts.title" (VObj [("$like", VStr "a")])
       (Some Post_titleSearch)
     = inr [WhereRaw "to_tsvector(title) @@ to_tsquery(?)"
              [VObj [("$like", VStr "a")]]].
Proof.
  split; [reflexivity|].
  apply (proj1 (@raw_where_takes_precedence [] [] "posts.title"
                  "to_tsvector(title) @@ to_tsquery($1)"
                  (VObj [("$like", VStr "a")]) Post_titleSearch eq_refl)
           eq_refl).
Defined.

Lemma plain_where_column_witness :
  getProperty blog User "profile" = Some User_profile
  /\ getFirstProperty blog User "profile" = None
  /\ exists ws,
       whereProperty [] [] blog User "not found" "profile" (VNum 1) = inr ws
       /\ addValueClause [] [] "profiles_profile.id" (VNum 1)
            (Some User_profile) = inr ws.
Proof.
  split; [reflexivity|]. split; [reflexivity|].
  eexists. split; [vm_compute; reflexivity|].
  destruct (@plain_where_column [] [] blog User "not found" "profile"
              (VNum 1) User_profile _ eq_refl eq_refl eq_refl)
    as (c & Ec & [(Hm & _) | [(_ & _ & via & vm & Ev & Evm & Hc)
                             | (_ & Hh & _)]]);
    try discriminate.
  injection Ev as <-. injection Evm as <-. subst c. exact Ec.
Defined.

Lemma group_columns_witness :
  exists q',
    addGroupClause blog Post (from "posts")
      (Some (GroupArray ["title"; "score"])) = inr q'
    /\ exists properties,
         q_groups q'
         = map (fun p => "posts." ++ columnName p) properties
         /\ List.length properties = 2%nat.
Proof.
  eexists. split; [vm_compute; reflexivity|].
  destruct (@group_columns blog Post (from "posts") _
              (Some (GroupArray ["title"; "score"])) eq_refl)
    as (ns & ps & Ens & HF & Hg).
  exists ps. split; [exact Hg|].
  injection Ens as <-. apply Forall2_length in HF. now rewrite <- HF.
Defined.

Lemma update_call_guards_witness :
  exists whereMap setMap,
    updateCall blog Post
      (fun p => if (name p =? "id")%string then VBool false else VUndefined)
      (VBool true) (VObj [("id", VNum 7)]) (Some "user") (VNum 1)
      (Some [("title", VStr "x")])
    = inr (whereMap, setMap)
    /\ get "id" whereMap = Some (VNum 1)
    /\ get "user" whereMap = Some (VObj [("id", VNum 7)]).
Proof.
  eexists. eexists. split; [vm_compute; reflexivity|].
  destruct (@update_call_guards blog Post
              (fun p => if (name p =? "id")%string then VBool false
                        else VUndefined)
              (VBool true) (VObj [("id", VNum 7)]) (Some "user") (VNum 1)
              (Some [("title", VStr "x")]) _ _ eq_refl)
    as (_ & _ & Hid & _ & Hk & _).
  split; [exact Hid|].
  apply (proj2 (Hk "user" eq_refl)). discriminate.
Defined.

Lemma create_call_guards_witness :
  exists argument b',
    createCall (VBool true) (VObj [("id", VNum 7)]) true (Some "user")
      (Some [("title", VStr "x"); ("user", VNull)])
    = inr argument
    /\ argument = Some b'
    /\ get "user" b' = Some (VObj [("id", VNum 7)]).
Proof.
  eexists.
  destruct (@create_call_guards (VBool true) (VObj [("id", VNum 7)]) true
              (Some "user") (Some [("title", VStr "x"); ("user", VNull)])
              _ eq_refl)
    as (_ & _ & _ & H).
  destruct (H "user" [("title", VStr "x"); ("user", VNull)] eq_refl eq_refl)
    as (_ & _ & b' & Ha & Hg & _).
  exists b'. split; [reflexivity|]. split; assumption.
Defined.

Lemma read_many_call_guards_witness :
  exists queryMap optionsMap,
    readManyCall (fun _ => inr (VObj [])) (VBool true) VNull
      (Some [("title", VStr "a"); ("$options", VStr EmptyString)])
    = inr (queryMap, optionsMap)
    /\ get "$options" queryMap = Some (VStr EmptyString)
    /\ optionsMap = VObj [].
Proof.
  eexists. eexists. split; [vm_compute; reflexivity|].
  destruct (@read_many_call_guards (fun _ => inr (VObj [])) (VBool true)
              VNull
              (Some [("title", VStr "a"); ("$options", VStr EmptyString)])
              _ _ eq_refl)
    as (_ & _ & H).
  exact H.
Defined.

Lemma through_links_witness :
  (0 <> 1)%nat
  /\ (0 < List.length [None; None : option string])%nat
  /\ (1 < List.length [None; None : option string])%nat
  /\ snd (postInstallModel "Tagging" false
            (Some (mkThroughModel 0 1 "Post" "Tag"
                     [mkThroughProperty "post" (Some "Post");
                      mkThroughProperty "tag" (Some "Tag")]))
            (None, [None; None]))
     = [Some "post"; Some "tag"]
  /\ nth_error
       (snd (postInstallModel "Tagging" false
               (Some (mkThroughModel 0 1 "Post" "Tag"
                        [mkThroughProperty "post" (Some "Post");
                         mkThroughProperty "tag" (Some "Tag")]))
               (None, [None; None]))) 1
     = Some (Some "tag").
Proof.
  split; [discriminate|]. split; [simpl; lia|]. split; [simpl; lia|].
  split; [reflexivity|].
  apply (proj1 (proj2
    (@through_links "Tagging" false
       (mkThroughModel 0 1 "Post" "Tag"
          [mkThroughProperty "post" (Some "Post");
           mkThroughProperty "tag" (Some "Tag")])
       None [None; None]
       ltac:(discriminate) ltac:(simpl; lia) ltac:(simpl; lia)))).
Defined.

Lemma self_reference_links_one_side_witness :
  ownerName (mkThroughModel 0 1 "User" "User"
               [mkThroughProperty "follower" (Some "User");
                mkThroughProperty "followee" (Some "User")])
  = associatedName (mkThroughModel 0 1 "User" "User"
                      [mkThroughProperty "follower" (Some "User");
                       mkThroughProperty "followee" (Some "User")])
  /\ (0 <> 1)%nat
  /\ snd (postInstallModel "Follow" false
            (Some (mkThroughModel 0 1 "User" "User"
                     [mkThroughProperty "follower" (Some "User");
                      mkThroughProperty "followee" (Some "User")]))
            (None, [None; None]))
     = [Some "followee"; None]
  /\ nth_error
       (snd (postInstallModel "Follow" false
               (Some (mkThroughModel 0 1 "User" "User"
                        [mkThroughProperty "follower" (Some "User");
                         mkThroughProperty "followee" (Some "User")]))
               (None, [None; None]))) 1
     = nth_error [None; None : option string] 1.
Proof.
  split; [reflexivity|]. split; [discriminate|]. split; [reflexivity|].
  apply (@self_reference_links_one_side "Follow" false
           (mkThroughModel 0 1 "User" "User"
              [mkThroughProperty "follower" (Some "User");
               mkThroughProperty "followee" (Some "User")])
           None [None; None] eq_refl ltac:(discriminate)).
Defined.
